(** * roboarm_2: the serial command/acknowledgement engine

    A shallow embedding of the three Python scripts of the repository
    ([home.py], [sender.py], [sending.py]) that drive a GRBL/FluidNC
    controller over a serial link, and the properties of their command
    protocol.

    How the program is modelled.

    - Text is ASCII: a Python [str] is a [string]; [strip], [lower],
      [startswith] and the slices are written out on it.
    - [time.time()] is a clock in milliseconds ([Z]).  It moves only where the
      sender thread suspends ([time.sleep], a blocking queue [get]), by the
      requested duration.
    - The device and the receiver thread are the environment.  [env k] is the
      list of lines [ser.readline()] hands to the receiver while the sender is
      suspended for the [k]-th time; the receiver's loop body is run on them at
      that point.  Every theorem quantifies over [env], so every schedule of
      arrivals, at the granularity of the sender's suspension points, is
      covered.
    - [ser.write] always succeeds and is recorded in the sender's trace, with
      its sleeps, its queue reads and its prints (as tagged messages).
      [ser.flush()] has no effect of its own in this model. *)

From Stdlib Require Import List ZArith Lia String Ascii Bool Arith DecimalString.
Import ListNotations.

(** ** Python string primitives (ASCII) *)

Module Py.

Definition NL : string := String (ascii_of_nat 10) EmptyString.
Definition CR : string := String (ascii_of_nat 13) EmptyString.
Definition CRLF : string := String (ascii_of_nat 13) NL.
(** Ctrl-X, the soft-reset control byte [b"\x18"]. *)
Definition CTRL_X : string := String (ascii_of_nat 24) EmptyString.

(** [str.isspace] on ASCII: tab, LF, VT, FF, CR, FS, GS, RS, US, space. *)
Definition isspace (c : ascii) : bool :=
  let n := nat_of_ascii c in
  ((9 <=? n) && (n <=? 13)) || ((28 <=? n) && (n <=? 32)).

Definition isdigit (c : ascii) : bool :=
  let n := nat_of_ascii c in (48 <=? n) && (n <=? 57).

Fixpoint lstrip (s : string) : string :=
  match s with
  | EmptyString => EmptyString
  | String c r => if isspace c then lstrip r else s
  end.

Fixpoint rstrip (s : string) : string :=
  match s with
  | EmptyString => EmptyString
  | String c r =>
      match rstrip r with
      | EmptyString => if isspace c then EmptyString else String c EmptyString
      | r' => String c r'
      end
  end.

(** [s.strip()] *)
Definition strip (s : string) : string := rstrip (lstrip s).

Definition lower_char (c : ascii) : ascii :=
  let n := nat_of_ascii c in
  if (65 <=? n) && (n <=? 90) then ascii_of_nat (n + 32) else c.

Definition upper_char (c : ascii) : ascii :=
  let n := nat_of_ascii c in
  if (97 <=? n) && (n <=? 122) then ascii_of_nat (n - 32) else c.

(** [s.lower()] *)
Fixpoint lower (s : string) : string :=
  match s with
  | EmptyString => EmptyString
  | String c r => String (lower_char c) (lower r)
  end.

(** [s.upper()] *)
Fixpoint upper (s : string) : string :=
  match s with
  | EmptyString => EmptyString
  | String c r => String (upper_char c) (upper r)
  end.

(** [s.startswith(p)] *)
Definition startswith (s p : string) : bool := String.prefix p s.

(** [s.endswith(p)] *)
Definition endswith (s p : string) : bool :=
  let n := String.length s in
  let m := String.length p in
  if m <=? n then String.eqb (String.substring (n - m) m s) p else false.

(** [p in s] for a non-empty [p] *)
Definition contains (s p : string) : bool :=
  match String.index 0 p s with Some _ => true | None => false end.

(** [s.find(p)]: [None] stands for Python's [-1]. *)
Definition find (s p : string) : option nat := String.index 0 p s.

(** [s[1:bar]] *)
Definition slice_1_to (s : string) (bar : nat) : string :=
  String.substring 1 (bar - 1) s.

(** [s[1:-1]] *)
Definition slice_1_m1 (s : string) : string :=
  String.substring 1 (String.length s - 2) s.

(** [s[-1]] of a non-empty string *)
Definition last_char (s : string) : string :=
  String.substring (String.length s - 1) 1 s.

(** Truthiness of a [str]: the empty string is false. *)
Definition truthy (s : string) : bool :=
  match s with EmptyString => false | _ => true end.

(** The number a run of ASCII digits spells, most significant first. *)
Fixpoint int_of_digits (acc : Z) (s : string) : Z :=
  match s with
  | EmptyString => acc
  | String c r => int_of_digits (10 * acc + Z.of_nat (nat_of_ascii c - 48))%Z r
  end.

(** [sys.int_info.default_max_str_digits]: the longest run of digits, leading
    zeros counted, that [int] converts (CPython 3.11 and later, and the
    security releases of 3.7 to 3.10).  The scripts never change the limit. *)
Definition INT_MAX_STR_DIGITS : Z := 4300.

(** [int(digits)] for a non-empty run of ASCII digits.  [None] stands for the
    [ValueError] that a run longer than the limit raises. *)
Definition int_of_str (digits : string) : option Z :=
  if (Z.of_nat (String.length digits) <=? INT_MAX_STR_DIGITS)%Z
  then Some (int_of_digits 0 digits)
  else None.

(** The longest prefix of digits, and what follows it. *)
Fixpoint span_digits (s : string) : string * string :=
  match s with
  | EmptyString => (EmptyString, EmptyString)
  | String c r =>
      if isdigit c then let (d, rest) := span_digits r in (String c d, rest)
      else (EmptyString, s)
  end.

(** What is left of [s] after the prefix [p], when [s] starts with [p]. *)
Fixpoint drop_prefix (p s : string) : option string :=
  match p, s with
  | EmptyString, _ => Some s
  | String a p', String b s' => if Ascii.eqb a b then drop_prefix p' s' else None
  | String _ _, EmptyString => None
  end.

End Py.

(** ** Python [while] loops

    [while cond: body] over a loop state [St].  The body answers [Some a] when
    it leaves the loop by [return]/[break] with value [a], and [None] when it
    falls through to the next test of the condition.  The loop itself answers
    [None] when the condition fails.  [iter] counts the remaining iterations
    down from a measure of the state; [while_unfold] shows that a measure the
    body decreases never runs out, so [while_] satisfies the loop's own
    equation. *)

Module Loop.

Section While.
Variables St A : Type.
Variable cond : St -> bool.
Variable body : St -> option A * St.

Fixpoint iter (fuel : nat) (s : St) : option A * St :=
  match fuel with
  | O => (None, s)
  | S f =>
      if cond s then
        match body s with
        | (Some a, s') => (Some a, s')
        | (None, s') => iter f s'
        end
      else (None, s)
  end.

Variable mu : St -> nat.

Definition while_ (s : St) : option A * St := iter (S (mu s)) s.

Hypothesis mu_decreases :
  forall s s', cond s = true -> body s = (None, s') -> mu s' < mu s.

Lemma iter_enough : forall n m s, mu s < n -> mu s < m -> iter n s = iter m s.
Proof.
  induction n as [|n IH]; intros m s Hn Hm; [lia|].
  destruct m as [|m]; [lia|].
  simpl. destruct (cond s) eqn:Hc; [|reflexivity].
  destruct (body s) as [[a|] s'] eqn:Hb; [reflexivity|].
  pose proof (mu_decreases s s' Hc Hb).
  apply IH; lia.
Qed.

Lemma while_unfold : forall s,
  while_ s =
  if cond s then
    match body s with
    | (Some a, s') => (Some a, s')
    | (None, s') => while_ s'
    end
  else (None, s).
Proof.
  intros s. unfold while_.
  change (iter (S (mu s)) s) with
    (if cond s then
       match body s with
       | (Some a, s') => (Some a, s')
       | (None, s') => iter (mu s) s'
       end
     else (None, s)).
  destruct (cond s) eqn:Hc; [|reflexivity].
  destruct (body s) as [[a|] s'] eqn:Hb; [reflexivity|].
  pose proof (mu_decreases s s' Hc Hb).
  apply iter_enough; lia.
Qed.

(** A loop that falls through does so at a state where its condition is
    false. *)
Lemma while_none_exits : forall s s', while_ s = (None, s') -> cond s' = false.
Proof.
  intros s. remember (mu s) as n eqn:E. revert s E.
  induction n as [n IH] using lt_wf_ind. intros s -> s' H.
  rewrite while_unfold in H. destruct (cond s) eqn:C.
  - destruct (body s) as [[a|] s1] eqn:B; [discriminate|].
    apply (IH (mu s1)) with (s := s1); auto.
  - inversion H; subst. exact C.
Qed.
End While.

Arguments iter {St A} cond body fuel s.
Arguments while_ {St A} cond body mu s.
Arguments while_unfold {St A} cond body mu _ s.
Arguments while_none_exits {St A} cond body mu _ s s' _.

Section Invariants.
Variables St A : Type.
Variable cond : St -> bool.
Variable body : St -> option A * St.

(** A relation between states that every iteration respects is respected
    by the whole loop. *)
Lemma iter_preserves (R : St -> St -> Prop) :
  (forall s, R s s) ->
  (forall s1 s2 s3, R s1 s2 -> R s2 s3 -> R s1 s3) ->
  (forall s r s', cond s = true -> body s = (r, s') -> R s s') ->
  forall n s r s', iter cond body n s = (r, s') -> R s s'.
Proof.
  intros Hrefl Htrans Hstep.
  induction n as [|n IH]; intros s r s' H; simpl in H.
  - inversion H; subst. apply Hrefl.
  - destruct (cond s) eqn:Hc.
    + destruct (body s) as [[a|] s1] eqn:Hb.
      * inversion H; subst. eapply Hstep; eauto.
      * eapply Htrans; [eapply Hstep; eauto | eapply IH; eauto].
    + inversion H; subst. apply Hrefl.
Qed.

(** A loop that answers [Some a] was left from inside its body, at a state
    reached from the start by iterations that fell through. *)
Lemma iter_some (R : St -> St -> Prop) :
  (forall s, R s s) ->
  (forall s1 s2 s3, R s1 s2 -> R s2 s3 -> R s1 s3) ->
  (forall s s', cond s = true -> body s = (None, s') -> R s s') ->
  forall n s a s', iter cond body n s = (Some a, s') ->
  exists s1, R s s1 /\ cond s1 = true /\ body s1 = (Some a, s').
Proof.
  intros Hrefl Htrans Hstep.
  induction n as [|n IH]; intros s a s' H; simpl in H; [discriminate|].
  destruct (cond s) eqn:Hc; [|discriminate].
  destruct (body s) as [[b|] s1] eqn:Hb.
  - inversion H; subst. exists s. auto.
  - destruct (IH _ _ _ H) as (s2 & HR & Hc2 & Hb2).
    exists s2. split; [|auto].
    eapply Htrans; [eapply Hstep; eauto | exact HR].
Qed.

(** A loop that answers [None] stopped at a state where its condition is
    false, or ran out of iterations. *)
Lemma iter_none_preserves (P : St -> Prop) :
  (forall s r s', cond s = true -> body s = (r, s') -> P s -> P s') ->
  forall n s r s', iter cond body n s = (r, s') -> P s -> P s'.
Proof.
  intros Hstep.
  induction n as [|n IH]; intros s r s' H HP; simpl in H.
  - inversion H; subst. exact HP.
  - destruct (cond s) eqn:Hc.
    + destruct (body s) as [[a|] s1] eqn:Hb.
      * inversion H; subst. eapply Hstep; eauto.
      * eapply IH; [exact H|]. eapply Hstep; eauto.
    + inversion H; subst. exact HP.
Qed.

(** Where a loop stops: at its start, or at the end of a turn of its body
    taken with the condition true. *)
Lemma iter_exit : forall n s r s',
  iter cond body n s = (r, s') ->
  s' = s \/ exists s1 r1, cond s1 = true /\ body s1 = (r1, s').
Proof.
  induction n as [|n IH]; intros s r s' H; simpl in H.
  - inversion H; auto.
  - destruct (cond s) eqn:Hc; [|inversion H; auto].
    destruct (body s) as [[a|] s1] eqn:Hb.
    + inversion H; subst. right. exists s, (Some a). auto.
    + destruct (IH _ _ _ H) as [-> | Hlast]; [|right; exact Hlast].
      right. exists s, None. auto.
Qed.
End Invariants.

Arguments iter_exit {St A} cond body n s r s' _.
Arguments iter_preserves {St A} cond body R _ _ _ n s r s' _.
Arguments iter_some {St A} cond body R _ _ _ n s a s' _.
Arguments iter_none_preserves {St A} cond body P _ n s r s' _ _.

End Loop.

(** ** What [home.py] and [sender.py] share

    The two stdin-driven streamers define the same receiver, the same status
    and wait helpers, the same send/acknowledge primitive and the same homing
    macro; they differ in [send_homing_with_retries] and in [_sender_loop]. *)

Module Common.

Import Py.
Open Scope string_scope.
Open Scope Z_scope.

(** What the sender thread prints, by message. *)
Inductive Msg : Type :=
| MTry (gcode : string) (attempt retries : Z)  (* ">> {gcode}  (try {attempt}/{retries})" *)
| MNoReply (gcode : string)                   (* "[TIMEOUT] no reply for: {gcode}" *)
| MFw (ack gcode : string)                    (* "[FW] {ack}  for: {gcode}" *)
| MNotIdle (state : string) (timeout_s : Z)   (* "[TIMEOUT] still not Idle, last state ..." *)
| MHomingTry (cmd : string) (i max_tries : Z) (* ">> {homing_cmd}  (try {i}/{max_tries})" *)
| MHomingAlarm (alarm i max_tries : Z)        (* "[INFO] Homing alarm ... Unlock + retry" *)
| MNonRecoverable (ack : string)              (* "[ERR] Non-recoverable response during homing" *)
| MNotStarted                                 (* "[ERR] Homing did not start (no ack / no motion)." *)
| MNoReturnToIdle                             (* "[ERR] Homing did not return to Idle." *)
| MHomingFailed (max_tries : Z)               (* "[ERR] Homing failed after {max_tries} tries." *)
| MSeqAborted                                 (* "[ERR] Homing sequence aborted." *)
| MHomeBegin                                  (* ">> %%HOME (begin sequence)" *)
| MHomeDone                                   (* ">> %%HOME (done)" *)
| MHomeFailed                                 (* ">> %%HOME (FAILED) - ABORTING" *)
| MGiveUp (line ack : string)                 (* "[ERR] giving up on line: ..." *)
| MReset.                                     (* ">> %%RESET (Ctrl-X soft reset)" *)

(** What the sender thread does, in order. *)
Inductive Event : Type :=
| Wrote (bytes : string)      (* ser.write(bytes) *)
| Slept (ms : Z)              (* time.sleep *)
| Got (ack : string)          (* _rxq.get / get_nowait returned ack *)
| Empty                       (* _rxq.get / get_nowait raised queue.Empty *)
| Printed (m : Msg).

(** What the receiver thread prints. *)
Inductive RxMsg : Type :=
| REcho (line : string)       (* "<< {line}" *)
| RQueueFull.                 (* "[WARN] RX queue full; dropping ack" *)

Record World : Type := mkWorld {
  rxq : list string;          (* _rxq, oldest first *)
  last_state : string;        (* _last_state *)
  stop : bool;                (* _stop *)
  now : Z;                    (* time.time(), in ms *)
  tick : nat;                 (* suspension points of the sender so far *)
  trace : list Event;         (* the sender thread's actions, oldest first *)
  rx_out : list RxMsg         (* the receiver thread's prints, oldest first *)
}.

Definition set_rxq (q : list string) (w : World) : World :=
  mkWorld q (last_state w) (stop w) (now w) (tick w) (trace w) (rx_out w).
Definition set_last_state (s : string) (w : World) : World :=
  mkWorld (rxq w) s (stop w) (now w) (tick w) (trace w) (rx_out w).
Definition set_stop (w : World) : World :=
  mkWorld (rxq w) (last_state w) true (now w) (tick w) (trace w) (rx_out w).
Definition advance (ms : Z) (w : World) : World :=
  mkWorld (rxq w) (last_state w) (stop w) (now w + ms) (S (tick w)) (trace w) (rx_out w).
Definition emit (e : Event) (w : World) : World :=
  mkWorld (rxq w) (last_state w) (stop w) (now w) (tick w) (trace w ++ [e]) (rx_out w).
Definition rx_print (m : RxMsg) (w : World) : World :=
  mkWorld (rxq w) (last_state w) (stop w) (now w) (tick w) (trace w) (rx_out w ++ [m]).

(** [_rxq = queue.Queue(maxsize=8192)] *)
Definition RXQ_MAXSIZE : Z := 8192.
(** [POLL_INTERVAL_S = 0.25] *)
Definition POLL_INTERVAL_S : Z := 250.

(** *** The receiver *)

(** [lower.startswith("ok") or lower.startswith("error") or
    lower.startswith("alarm")] *)
Definition is_ack (lower : string) : bool :=
  startswith lower "ok" || startswith lower "error" || startswith lower "alarm".

(** The [<State|...>] banner. *)
Definition track_state (line : string) (w : World) : World :=
  if startswith line "<" then
    match find line "|" with
    | Some bar =>
        if (0 <? bar)%nat then set_last_state (slice_1_to line bar) w
        else if endswith line ">" then set_last_state (slice_1_m1 line) w
        else w
    | None =>
        if endswith line ">" then set_last_state (slice_1_m1 line) w else w
    end
  else w.

(** [_rxq.put(lower, timeout=0.1)]: the put waits for a free slot for at most
    0.1 s; the sender takes nothing out meanwhile, so a full queue raises
    [queue.Full], and the handler prints the warning. *)
Definition rxq_put (lower : string) (w : World) : World :=
  if Z.of_nat (List.length (rxq w)) <? RXQ_MAXSIZE
  then set_rxq (rxq w ++ [lower]) w
  else rx_print RQueueFull w.

(** One turn of the [while not _stop.is_set()] loop of [_rx_loop], on the
    bytes [raw] that [ser.readline()] returned. *)
Definition rx_iter (raw : string) (w : World) : World :=
  if stop w then w
  else if negb (truthy raw) then w
  else
    let line := strip raw in
    let w := rx_print (REcho line) w in
    let w := track_state line w in
    let lower := lower line in
    if is_ack lower then rxq_put lower w else w.

Definition _rx_loop (lines : list string) (w : World) : World :=
  fold_left (fun w raw => rx_iter raw w) lines w.

(** Python exceptions the modelled code can raise. *)
Inductive Exn : Type := UnboundLocalError.

Inductive Result (A : Type) : Type :=
| Ret (a : A)
| Raise (e : Exn).
Arguments Ret {A} a.
Arguments Raise {A} e.

Section Sender.

(** The lines the serial port delivers during each suspension of the sender. *)
Variable env : nat -> list string.

(** The sender thread is suspended for [ms]: the receiver runs. *)
Definition suspend (ms : Z) (w : World) : World :=
  advance ms (_rx_loop (env (tick w)) w).

Definition sleep (ms : Z) (w : World) : World :=
  suspend ms (emit (Slept ms) w).

(** [_rxq.get(timeout=ms)] *)
Definition rxq_get (ms : Z) (w : World) : option string * World :=
  match rxq w with
  | a :: q => (Some a, emit (Got a) (set_rxq q w))
  | [] =>
      let w := suspend ms w in
      match rxq w with
      | a :: q => (Some a, emit (Got a) (set_rxq q w))
      | [] => (None, emit Empty w)
      end
  end.

(** [_rxq.get_nowait()] *)
Definition rxq_get_nowait (w : World) : option string * World :=
  match rxq w with
  | a :: q => (Some a, emit (Got a) (set_rxq q w))
  | [] => (None, emit Empty w)
  end.

(** *** Polling helpers *)

Definition request_status (w : World) : World := emit (Wrote "?") w.

Definition is_idle (w : World) : bool := String.eqb (last_state w) "Idle".

(** The body of the [while] of [wait_until_idle]. *)
Definition idle_body (w : World) : option bool * World :=
  if is_idle w then
    let w := sleep POLL_INTERVAL_S w in
    let w := request_status w in
    let w := sleep 20 w in
    if is_idle w then (Some true, w) else (None, w)
  else
    let w := sleep POLL_INTERVAL_S w in
    (None, request_status w).

Definition idle_cond (start timeout_s : Z) (w : World) : bool :=
  now w - start <? timeout_s.

Definition idle_fuel (start timeout_s : Z) (w : World) : nat :=
  Z.to_nat ((start + timeout_s - now w) / POLL_INTERVAL_S + 1).

Definition wait_until_idle (timeout_s : Z) (w : World) : bool * World :=
  let start := now w in
  let w := request_status w in
  let w := sleep POLL_INTERVAL_S w in
  match Loop.while_ (idle_cond start timeout_s) idle_body
                    (idle_fuel start timeout_s) w with
  | (Some b, w) => (b, w)
  | (None, w) => (false, emit (Printed (MNotIdle (last_state w) timeout_s)) w)
  end.

(** The body of the first [while] of [wait_motion_complete]; [Some tt] is its
    [break]. *)
Definition leave_idle_body (w : World) : option unit * World :=
  if negb (is_idle w) then (Some tt, w)
  else
    let w := sleep POLL_INTERVAL_S w in
    (None, request_status w).

Definition wait_motion_complete (leave_idle_timeout finish_timeout : Z)
    (w : World) : bool * World :=
  let start := now w in
  let w := request_status w in
  let w := snd (Loop.while_ (idle_cond start leave_idle_timeout) leave_idle_body
                            (idle_fuel start leave_idle_timeout) w) in
  wait_until_idle finish_timeout w.

(** *** TX / acknowledgement primitives *)

Definition send_line (s : string) (w : World) : World :=
  let s := if endswith s NL then s else s ++ NL in
  emit (Wrote s) w.

Definition ack_cond (deadline : Z) (w : World) : bool := now w <? deadline.

Definition ack_fuel (deadline : Z) (w : World) : nat :=
  Z.to_nat ((deadline - now w) / 250 + 1).

Definition wait_ack (timeout_s : Z) (w : World) : option string * World :=
  let deadline := now w + timeout_s in
  Loop.while_ (ack_cond deadline) (rxq_get 250) (ack_fuel deadline) w.

(** [ack if ack else "timeout"] *)
Definition ack_or_timeout (ack : option string) : string :=
  match ack with
  | Some a => if truthy a then a else "timeout"
  | None => "timeout"
  end.

(** The [for attempt in range(1, retries + 1)] loop of [send_gcode], with [n]
    attempts left.  [ack] is the local variable: [None] while it is unbound,
    [Some None] when it holds Python's [None]. *)
Fixpoint send_gcode_loop (n : nat) (attempt retries : Z) (gcode : string)
    (ack_timeout : Z) (ack : option (option string)) (w : World)
    : Result (bool * string) * World :=
  match n with
  | O =>
      match ack with
      | None => (Raise UnboundLocalError, w)
      | Some a => (Ret (false, ack_or_timeout a), w)
      end
  | S n' =>
      let w := emit (Printed (MTry gcode attempt retries)) w in
      let w := send_line gcode w in
      let (r, w) := wait_ack ack_timeout w in
      match r with
      | None =>
          let w := emit (Printed (MNoReply gcode)) w in
          send_gcode_loop n' (attempt + 1) retries gcode ack_timeout (Some None) w
      | Some a =>
          if startswith a "ok" then (Ret (true, a), w)
          else
            let w := emit (Printed (MFw a gcode)) w in
            let w := if attempt <? retries then sleep 200 w else w in
            send_gcode_loop n' (attempt + 1) retries gcode ack_timeout
                            (Some (Some a)) w
      end
  end.

Definition send_gcode (gcode : string) (retries ack_timeout : Z) (w : World)
    : Result (bool * string) * World :=
  send_gcode_loop (Z.to_nat retries) 1 retries gcode ack_timeout None w.

(** [ALARM_RE = re.compile(r'^alarm:?\s*(\d+)', re.IGNORECASE)] and
    [int(m.group(1))]: [None] when the line does not match, and when [int]
    raises its [ValueError] ([except ValueError: return None]). *)
Definition parse_alarm_code (ack_line : string) : option Z :=
  match drop_prefix "alarm" (lower (String.substring 0 5 ack_line)) with
  | None => None
  | Some _ =>
      let rest := String.substring 5 (String.length ack_line - 5) ack_line in
      let rest := match drop_prefix ":" rest with Some r => r | None => rest end in
      let (digits, _) := span_digits (lstrip rest) in
      if truthy digits then
        match int_of_str digits with
        | Some code => Some code          (* return int(m.group(1)) *)
        | None => None                    (* except ValueError: return None *)
        end
      else None
  end.

(** [alarm in (8, 9)] *)
Definition recoverable (alarm : option Z) : bool :=
  match alarm with
  | Some n => (n =? 8) || (n =? 9)
  | None => false
  end.

(** The alarm code as the messages show it. *)
Definition code_of (alarm : option Z) : Z :=
  match alarm with Some c => c | None => 0 end.

(** The body of the [while True] of [unlock_after_alarm]; [Some tt] is its
    [break]. *)
Definition drain_body (w : World) : option unit * World :=
  match rxq_get_nowait w with
  | (Some _, w) => (None, w)
  | (None, w) => (Some tt, w)
  end.

Definition unlock_after_alarm (w : World) : World :=
  let w := send_line "$X" w in
  let w := sleep 200 w in
  snd (Loop.while_ (fun _ => true) drain_body
                   (fun w => List.length (rxq w)) w).

(** *** The homing macro

    [_perform_home_sequence] builds a list of sixteen thunks and runs them in
    order; a [Step] names the three shapes the thunks have. *)

Inductive Step : Type :=
| StepHome (homing_cmd : string)  (* lambda: send_homing_with_retries(ser, cmd, max_tries=homing_retries) *)
| StepWait                        (* lambda: wait_motion_complete(ser) *)
| StepMove (gcode : string).      (* lambda: send_gcode(ser, gcode)[0] *)

Definition steps : list Step :=
  [ StepHome "$HZ"; StepWait;
    StepMove "g0 z180"; StepWait;
    StepHome "$HA"; StepWait;
    StepHome "$HY"; StepWait;
    StepMove "g0 y45"; StepWait;
    StepHome "$HZ"; StepWait;
    StepHome "$HX"; StepWait;
    StepMove "g0 x45 y45 z45 a45"; StepWait ].

(** [send_homing_with_retries(ser, homing_cmd, max_tries, ack_timeout)], which
    the two files define differently. *)
Variable send_homing_with_retries : string -> Z -> Z -> World -> Result bool * World.

(** [step()], with the defaults of the callee written out: [ack_timeout=20.0]
    for homing, [retries=1, ack_timeout=12.0] for [send_gcode], and
    [leave_idle_timeout=2.0, finish_timeout=300.0] for the wait. *)
Definition run_step (homing_retries : Z) (st : Step) (w : World)
    : Result bool * World :=
  match st with
  | StepHome cmd => send_homing_with_retries cmd homing_retries 20000 w
  | StepWait => let (ok, w) := wait_motion_complete 2000 300000 w in (Ret ok, w)
  | StepMove gcode =>
      match send_gcode gcode 1 12000 w with
      | (Ret (ok, _), w) => (Ret ok, w)
      | (Raise e, w) => (Raise e, w)
      end
  end.

(** [for step in steps: if not step(): print(...); return False] and the final
    [return True]. *)
Fixpoint run_steps (homing_retries : Z) (todo : list Step) (w : World)
    : Result bool * World :=
  match todo with
  | [] => (Ret true, w)
  | st :: todo' =>
      match run_step homing_retries st w with
      | (Ret true, w) => run_steps homing_retries todo' w
      | (Ret false, w) => (Ret false, emit (Printed MSeqAborted) w)
      | (Raise e, w) => (Raise e, w)
      end
  end.

Definition _perform_home_sequence (homing_retries : Z) (w : World)
    : Result bool * World :=
  run_steps homing_retries steps w.

(** *** The work queue

    An item of [_workq], with the number of 0.1 s polls of the sender that find
    the queue empty before the producer has put it. *)

Inductive Item : Type :=
| IGcode (line : string)   (* {"type": "gcode", "line": line} *)
| IHome                    (* {"type": "home"} *)
| IReset                   (* {"type": "reset"} (sender.py) *)
| IEof.                    (* EOF_SENTINEL *)

Definition WorkQueue : Type := list (nat * Item).

(** How [_sender_loop] ends. *)
Inductive Exit : Type :=
| ExitEof                  (* return on EOF_SENTINEL *)
| ExitStop                 (* return on an empty queue with _stop set *)
| ExitAbort                (* return after a failed %%HOME *)
| ExitCrash (e : Exn)      (* an exception ends the thread *)
| ExitWaiting.             (* the producer put nothing more: the loop polls on *)

(** [d] polls [_workq.get(timeout=0.1)] that raise [queue.Empty]; [true] when
    one of them found [_stop] set. *)
Fixpoint poll_empty (d : nat) (w : World) : bool * World :=
  match d with
  | O => (false, w)
  | S d' =>
      let w := suspend 100 w in
      if stop w then (true, w) else poll_empty d' w
  end.

End Sender.

End Common.

(** ** [home.py] *)

Module Home.

Import Py Common.
Open Scope string_scope.
Open Scope Z_scope.

Section Sender.

Variable env : nat -> list string.

(** The number of lines the port delivers during [count] suspensions from
    the [from]-th on. *)
Fixpoint lines_in (from count : nat) : nat :=
  match count with
  | O => O
  | S c => (List.length (env from) + lines_in (S from) c)%nat
  end.

(** [leave_idle_timeout = 3.0] *)
Definition LEAVE_IDLE_TIMEOUT : Z := 3000.

(** The status poll that ends a turn of the watch loop. *)
Definition watch_poll (ack : option string) (w : World)
    : option bool * (option string * World) :=
  let w := request_status w in
  if negb (is_idle w) then (Some true, (ack, w)) else (None, (ack, w)).

(** The body of the [while] of [send_homing_with_retries] that waits for an
    ack or for motion to start.  The loop state is the local [ack] and the
    world; [Some started] is a [break]. *)
Definition watch_body (s : option string * World)
    : option bool * (option string * World) :=
  let (ack, w) := s in
  match rxq_get env 200 w with
  | (Some a, w) =>
      if startswith a "ok" then (Some true, (Some a, w))
      else if startswith a "alarm" || startswith a "error"
           then (Some false, (Some a, w))
           else watch_poll (Some a) w
  | (None, w) => watch_poll ack w
  end.

Definition watch_cond (start : Z) (s : option string * World) : bool :=
  now (snd s) - start <? LEAVE_IDLE_TIMEOUT.

Definition watch_fuel (start : Z) (s : option string * World) : nat :=
  let w := snd s in
  let t := Z.to_nat ((start + LEAVE_IDLE_TIMEOUT - now w + 199) / 200) in
  (t + List.length (rxq w) + lines_in (tick w) t)%nat.

(** [ack and (ack.startswith("alarm") or ack.startswith("error"))] *)
Definition is_fault (ack : option string) : bool :=
  match ack with
  | Some a => truthy a && (startswith a "alarm" || startswith a "error")
  | None => false
  end.

(** The start of a try: the command is sent, and the watch loop runs until
    an ack arrives, motion is seen to start, or the window closes.  The answer
    is the locals [started] and [ack]. *)
Definition homing_start (homing_cmd : string) (i max_tries : Z) (w : World)
    : bool * option string * World :=
  let w := emit (Printed (MHomingTry homing_cmd i max_tries)) w in
  let w := send_line homing_cmd w in
  let start := now w in
  let '(r, (ack, w)) :=
    Loop.while_ (watch_cond start) watch_body (watch_fuel start) (None, w) in
  (match r with Some b => b | None => false end, ack, w).

(** The [for i in range(1, max_tries + 1)] loop, with [n] tries left. *)
Fixpoint homing_loop (n : nat) (i max_tries : Z) (homing_cmd : string)
    (ack_timeout : Z) (w : World) : bool * World :=
  match n with
  | O => (false, emit (Printed (MHomingFailed max_tries)) w)
  | S n' =>
      let '(started, ack, w) := homing_start homing_cmd i max_tries w in
      if is_fault ack && negb started then
        let a := match ack with Some a => a | None => "" end in
        let alarm := parse_alarm_code a in
        if recoverable alarm then
          let w := emit (Printed (MHomingAlarm (code_of alarm) i max_tries)) w in
          let w := unlock_after_alarm env w in
          let w := sleep env 500 w in
          homing_loop n' (i + 1) max_tries homing_cmd ack_timeout w
        else
          (false, emit (Printed (MNonRecoverable a)) w)
      else if negb started then
        let w := emit (Printed MNotStarted) w in
        let w := unlock_after_alarm env w in
        let w := sleep env 500 w in
        homing_loop n' (i + 1) max_tries homing_cmd ack_timeout w
      else
        let (ok, w) := wait_motion_complete env 2000 (Z.max ack_timeout 300000) w in
        if ok then (true, w)
        else
          let w := emit (Printed MNoReturnToIdle) w in
          homing_loop n' (i + 1) max_tries homing_cmd ack_timeout w
  end.

Definition send_homing_with_retries (homing_cmd : string)
    (max_tries ack_timeout : Z) (w : World) : Result bool * World :=
  let (ok, w) := homing_loop (Z.to_nat max_tries) 1 max_tries homing_cmd ack_timeout w in
  (Ret ok, w).

Definition _perform_home_sequence : Z -> World -> Result bool * World :=
  Common._perform_home_sequence env send_homing_with_retries.

(** [_sender_loop], on the items the producer puts.  The answer carries the
    items never taken from the queue. *)
Fixpoint _sender_loop (homing_retries ack_timeout line_retries : Z)
    (q : WorkQueue) (w : World) : Exit * WorkQueue * World :=
  match q with
  | [] =>
      let w := suspend env 100 w in
      if stop w then (ExitStop, [], w) else (ExitWaiting, [], w)
  | (d, item) :: rest =>
      let (stopped, w) := poll_empty env d w in
      if stopped then (ExitStop, q, w)
      else
        match item with
        | IEof => (ExitEof, rest, w)
        | IHome =>
            let w := emit (Printed MHomeBegin) w in
            match _perform_home_sequence homing_retries w with
            | (Ret true, w) =>
                let w := emit (Printed MHomeDone) w in
                _sender_loop homing_retries ack_timeout line_retries rest w
            | (Ret false, w) =>
                let w := emit (Printed MHomeFailed) w in
                (ExitAbort, rest, set_stop w)
            | (Raise e, w) => (ExitCrash e, rest, w)
            end
        | IGcode line =>
            match send_gcode env line line_retries ack_timeout w with
            | (Ret (ok, ack), w) =>
                let w := if ok then w else emit (Printed (MGiveUp line ack)) w in
                _sender_loop homing_retries ack_timeout line_retries rest w
            | (Raise e, w) => (ExitCrash e, rest, w)
            end
        | IReset =>
            (* neither "home" nor "gcode": no branch applies *)
            _sender_loop homing_retries ack_timeout line_retries rest w
        end
  end.

End Sender.

End Home.

(** ** [sender.py] *)

Module Sender.

Import Py Common.
Open Scope string_scope.
Open Scope Z_scope.

Section Sender.

Variable env : nat -> list string.

(** The [for i in range(1, max_tries + 1)] loop, with [n] tries left. *)
Fixpoint homing_loop (n : nat) (i max_tries : Z) (homing_cmd : string)
    (ack_timeout : Z) (w : World) : Result bool * World :=
  match n with
  | O => (Ret false, emit (Printed (MHomingFailed max_tries)) w)
  | S n' =>
      match send_gcode env homing_cmd 1 ack_timeout w with
      | (Raise e, w) => (Raise e, w)
      | (Ret (true, _), w) => (Ret true, w)
      | (Ret (false, ack), w) =>
          let alarm := parse_alarm_code ack in
          if recoverable alarm then
            let w := emit (Printed (MHomingAlarm (code_of alarm) i max_tries)) w in
            let w := unlock_after_alarm env w in
            let w := sleep env 500 w in
            homing_loop n' (i + 1) max_tries homing_cmd ack_timeout w
          else
            (Ret false, emit (Printed (MNonRecoverable ack)) w)
      end
  end.

Definition send_homing_with_retries (homing_cmd : string)
    (max_tries ack_timeout : Z) (w : World) : Result bool * World :=
  homing_loop (Z.to_nat max_tries) 1 max_tries homing_cmd ack_timeout w.

Definition _perform_home_sequence : Z -> World -> Result bool * World :=
  Common._perform_home_sequence env send_homing_with_retries.

(** [_sender_loop], on the items the producer puts.  The answer carries the
    items never taken from the queue. *)
Fixpoint _sender_loop (homing_retries ack_timeout line_retries : Z)
    (q : WorkQueue) (w : World) : Exit * WorkQueue * World :=
  match q with
  | [] =>
      let w := suspend env 100 w in
      if stop w then (ExitStop, [], w) else (ExitWaiting, [], w)
  | (d, item) :: rest =>
      let (stopped, w) := poll_empty env d w in
      if stopped then (ExitStop, q, w)
      else
        match item with
        | IEof =>
            let (_, w) := wait_motion_complete env 1000 600000 w in
            (ExitEof, rest, w)
        | IHome =>
            let w := emit (Printed MHomeBegin) w in
            match _perform_home_sequence homing_retries w with
            | (Ret true, w) =>
                let w := emit (Printed MHomeDone) w in
                _sender_loop homing_retries ack_timeout line_retries rest w
            | (Ret false, w) =>
                let w := emit (Printed MHomeFailed) w in
                (ExitAbort, rest, set_stop w)
            | (Raise e, w) => (ExitCrash e, rest, w)
            end
        | IReset =>
            let w := emit (Printed MReset) w in
            let w := emit (Wrote CTRL_X) w in
            _sender_loop homing_retries ack_timeout line_retries rest w
        | IGcode line =>
            match send_gcode env line line_retries ack_timeout w with
            | (Ret (ok, ack), w) =>
                let w := if ok then w else emit (Printed (MGiveUp line ack)) w in
                _sender_loop homing_retries ack_timeout line_retries rest w
            | (Raise e, w) => (ExitCrash e, rest, w)
            end
        end
  end.

End Sender.

End Sender.

(** ** [sending.py]

    The self-recovering homing and file-streaming script.  Its receiver queues
    every non-empty line (not only acks), with a [put] that has no timeout, and
    is started by [main] only after the first [hard_clear]; so the world also
    holds the serial input buffer, whether the receiver runs, and the line it
    is blocked on. *)

Module Sending.

Import Py.
Open Scope string_scope.
Open Scope Z_scope.

Inductive Msg : Type :=
| MAlarmDetected                              (* "!! Alarm state detected; hard clear" *)
| MAttempt (cmd : string) (attempt retries : Z) (* ">> {cmd} (attempt {attempt}/{retries})" *)
| MNotClean                                   (* "!! Step did not complete cleanly; recovering ..." *)
| MHoming (cmd : string) (attempt retries : Z) (* ">> Homing {cmd} (attempt ...)" *)
| MHomingReported (ack : string)              (* "!! Homing reported {ack}" *)
| MNudge (ax : string) (sign : Z)             (* "!! ALARM -> nudge {ax} by {sign*nudge_dist} ..." *)
| MNoIdle                                     (* "!! Homing did not reach Idle; recovering" *)
| MStart (path : string) (size : option Z)    (* ">> START STREAM: {path} ({size} bytes)" or without size *)
| MPreview (s : string)                       (* ">> first line preview: {s}" *)
| MCannotOpen                                 (* "!! Could not open file:" *)
| MLine (lineno : nat) (line : string) (attempt total : Z) (* ">> [{lineno}] {line} (attempt ...)" *)
| MAlarmStreaming                             (* "!! Alarm during streaming; recovering" *)
| MGivingUp                                   (* "!! Giving up on this line due to repeated alarms" *)
| MEnd                                        (* ">> END STREAM" *)
| MFileNotFound                               (* "File not found:" *)
| MPortBaud                                   (* ">> PORT: ...  BAUD: ..." *)
| MFile                                       (* ">> FILE: ..." *)
| MFailed (what : string)                     (* "!! Failed to home Z", "!! Failed move Z180", ... *)
| MJobComplete                                (* ">> Job complete" *)
| MStreamAborted.                             (* "!! Streaming aborted due to persistent alarms" *)

Inductive Event : Type :=
| Wrote (bytes : string)      (* ser.write(bytes) *)
| Slept (ms : Z)              (* time.sleep *)
| Got (line : string)         (* _rxq.get returned line *)
| Empty                       (* _rxq.get raised queue.Empty *)
| ResetInput                  (* ser.reset_input_buffer() *)
| Closed                      (* ser.close() *)
| Printed (m : Msg).

Record World : Type := mkWorld {
  rxq : list string;          (* _rxq, oldest first *)
  last_state : string;        (* _last_state *)
  now : Z;                    (* time.time(), in ms *)
  tick : nat;                 (* suspension points of the main thread so far *)
  trace : list Event;         (* the main thread's actions, oldest first *)
  rx_out : list string;       (* the receiver's "<< {line}" prints *)
  inbuf : list string;        (* lines in the serial input buffer, not read yet *)
  rx_on : bool;               (* the receiver thread has been started *)
  rx_held : option string     (* the line the receiver is blocked putting *)
}.

Definition set_rxq (q : list string) (w : World) : World :=
  mkWorld q (last_state w) (now w) (tick w) (trace w) (rx_out w) (inbuf w) (rx_on w) (rx_held w).
Definition set_last_state (s : string) (w : World) : World :=
  mkWorld (rxq w) s (now w) (tick w) (trace w) (rx_out w) (inbuf w) (rx_on w) (rx_held w).
Definition advance (ms : Z) (w : World) : World :=
  mkWorld (rxq w) (last_state w) (now w + ms) (S (tick w)) (trace w) (rx_out w) (inbuf w) (rx_on w) (rx_held w).
Definition emit (e : Event) (w : World) : World :=
  mkWorld (rxq w) (last_state w) (now w) (tick w) (trace w ++ [e]) (rx_out w) (inbuf w) (rx_on w) (rx_held w).
Definition rx_print (line : string) (w : World) : World :=
  mkWorld (rxq w) (last_state w) (now w) (tick w) (trace w) (rx_out w ++ [line]) (inbuf w) (rx_on w) (rx_held w).
Definition set_inbuf (b : list string) (w : World) : World :=
  mkWorld (rxq w) (last_state w) (now w) (tick w) (trace w) (rx_out w) b (rx_on w) (rx_held w).
Definition set_rx_on (w : World) : World :=
  mkWorld (rxq w) (last_state w) (now w) (tick w) (trace w) (rx_out w) (inbuf w) true (rx_held w).
Definition set_rx_held (h : option string) (w : World) : World :=
  mkWorld (rxq w) (last_state w) (now w) (tick w) (trace w) (rx_out w) (inbuf w) (rx_on w) h.

(** [_rxq = queue.Queue(maxsize=8192)] *)
Definition RXQ_MAXSIZE : Z := 8192.

(** *** The receiver *)

Definition has_room (w : World) : bool :=
  Z.of_nat (List.length (rxq w)) <? RXQ_MAXSIZE.

(** [_rxq.put(line)]: no timeout, so on a full queue the receiver stays in
    the call, holding [line]. *)
Definition rxq_put (line : string) (w : World) : World :=
  if has_room w then set_rxq (rxq w ++ [line]) w
  else set_rx_held (Some line) w.

(** The [<State|...>] banner. *)
Definition track_state (line : string) (w : World) : World :=
  if startswith line "<" && contains line ">" then
    match find line "|" with
    | Some bar => set_last_state (slice_1_to line bar) w
    | None => set_last_state (slice_1_m1 line) w
    end
  else w.

(** One turn of the [while True] of [_rx_loop], on what [ser.readline()]
    returned. *)
Definition rx_iter (raw : string) (w : World) : World :=
  let line := strip raw in
  if negb (truthy line) then w
  else
    let w := rx_print line w in
    let w := track_state line w in
    rxq_put line w.

(** The receiver is let out of a [put] it was blocked in once there is room. *)
Definition rx_resume (w : World) : World :=
  match rx_held w with
  | Some line => if has_room w then set_rx_held None (set_rxq (rxq w ++ [line]) w) else w
  | None => w
  end.

(** The receiver reads the buffered lines in order, until it blocks. *)
Fixpoint rx_read (lines : list string) (w : World) : World :=
  match lines with
  | [] => set_inbuf [] w
  | raw :: rest =>
      match rx_held w with
      | Some _ => set_inbuf lines w
      | None => rx_read rest (rx_iter raw w)
      end
  end.

Definition _rx_loop (w : World) : World :=
  if rx_on w then rx_read (inbuf w) (rx_resume w) else w.

Section Main.

(** The lines the serial port receives during each suspension of the main
    thread. *)
Variable env : nat -> list string.

(** The text Python prints for the float [sign * nudge_dist], for [sign] -1 and
    1 (floating point is outside the model). *)
Variable repr_delta : Z -> string.

(** The main thread is suspended for [ms]: lines arrive, the receiver runs. *)
Definition suspend (ms : Z) (w : World) : World :=
  advance ms (_rx_loop (set_inbuf (inbuf w ++ env (tick w)) w)).

Definition sleep (ms : Z) (w : World) : World :=
  suspend ms (emit (Slept ms) w).

(** [_rxq.get(timeout=ms)] *)
Definition rxq_get (ms : Z) (w : World) : option string * World :=
  match rxq w with
  | a :: q => (Some a, emit (Got a) (set_rxq q w))
  | [] =>
      let w := suspend ms w in
      match rxq w with
      | a :: q => (Some a, emit (Got a) (set_rxq q w))
      | [] => (None, emit Empty w)
      end
  end.

Definition send (s : string) (w : World) : World := emit (Wrote (s ++ CRLF)) w.

Definition is_ack (line : string) : bool :=
  startswith line "ok" || startswith line "error" || startswith line "alarm".

(** The body of the [while] of [wait_ack]. *)
Definition ack_body (w : World) : option string * World :=
  match rxq_get 200 w with
  | (Some line, w) =>
      let line := lower line in
      if is_ack line then (Some line, w) else (None, w)
  | (None, w) => (None, w)
  end.

Definition ack_cond (deadline : Z) (w : World) : bool := now w <? deadline.

(** The number of lines the port receives during [count] suspensions from
    the [from]-th on. *)
Fixpoint lines_in (from count : nat) : nat :=
  match count with
  | O => O
  | S c => (List.length (env from) + lines_in (S from) c)%nat
  end.

(** Lines that are queued, held by the receiver, or still in the buffer. *)
Definition pending (w : World) : nat :=
  (List.length (rxq w) + List.length (inbuf w)
   + match rx_held w with Some _ => 1 | None => 0 end)%nat.

Definition ack_fuel (deadline : Z) (w : World) : nat :=
  let t := Z.to_nat ((deadline - now w + 199) / 200) in
  (t + pending w + lines_in (tick w) t)%nat.

Definition wait_ack (timeout_s : Z) (w : World) : option string * World :=
  let deadline := now w + timeout_s in
  Loop.while_ (ack_cond deadline) ack_body (ack_fuel deadline) w.

(** [poll_period=0.25]: no caller passes another value. *)
Definition POLL_PERIOD : Z := 250.

(** [_last_state in targets] *)
Definition in_targets (targets : list string) (w : World) : bool :=
  existsb (String.eqb (last_state w)) targets.

(** The body of the [while] of [wait_state]. *)
Definition state_body (targets : list string) (w : World) : option bool * World :=
  let w := send "?" w in
  let w := sleep POLL_PERIOD w in
  if in_targets targets w then (Some true, w) else (None, w).

Definition state_fuel (deadline : Z) (w : World) : nat :=
  Z.to_nat ((deadline - now w) / POLL_PERIOD + 1).

Definition wait_state (targets : list string) (timeout_s : Z) (w : World)
    : bool * World :=
  let deadline := now w + timeout_s in
  match Loop.while_ (ack_cond deadline) (state_body targets)
                    (state_fuel deadline) w with
  | (Some b, w) => (b, w)
  | (None, w) => (false, w)
  end.

Definition hard_clear (w : World) : World :=
  let w := emit (Wrote CTRL_X) w in
  let w := sleep 300 w in
  let w := emit ResetInput (set_inbuf [] w) in
  let w := send "$X" w in
  let w := snd (wait_ack 6000 w) in
  let w := send "$20=0" w in
  let w := snd (wait_ack 6000 w) in
  let w := send "G90" w in
  let w := snd (wait_ack 3000 w) in
  snd (wait_state ["Idle"; "Run"; "Hold"; "Jog"; "Check"] 3000 w).

Definition clear_alarm_if_needed (w : World) : World :=
  if String.eqb (last_state w) "Alarm" then
    let w := emit (Printed MAlarmDetected) w in
    let w := hard_clear w in
    snd (wait_state ["Idle"] 10000 w)
  else w.

(** [ack and ack.startswith(p)] *)
Definition ack_is (ack : option string) (p : string) : bool :=
  match ack with
  | Some a => truthy a && startswith a p
  | None => false
  end.

(** The [for attempt in range(1, retries + 1)] loop of [send_blocking], with
    [n] attempts left. *)
Fixpoint send_blocking_loop (n : nat) (attempt retries : Z) (cmd : string)
    (ack_timeout idle_timeout : Z) (force_g90 : bool) (w : World) : bool * World :=
  match n with
  | O => (false, w)
  | S n' =>
      let w := clear_alarm_if_needed w in
      let w := if force_g90 then snd (wait_ack 5000 (send "G90" w)) else w in
      let w := emit (Printed (MAttempt cmd attempt retries)) w in
      let w := send cmd w in
      let (ack, w) := wait_ack ack_timeout w in
      let (ok_idle, w) := wait_state ["Idle"] idle_timeout w in
      if String.eqb (last_state w) "Alarm" || ack_is ack "alarm" || negb ok_idle then
        let w := emit (Printed MNotClean) w in
        let w := hard_clear w in
        send_blocking_loop n' (attempt + 1) retries cmd ack_timeout idle_timeout
                           force_g90 w
      else (true, w)
  end.

Definition send_blocking (cmd : string) (ack_timeout idle_timeout retries : Z)
    (force_g90 : bool) (w : World) : bool * World :=
  send_blocking_loop (Z.to_nat retries) 1 retries cmd ack_timeout idle_timeout
                     force_g90 w.

(** [f"{feed}"] for an [int]. *)
Definition str_int (n : Z) : string := DecimalString.NilZero.string_of_int (Z.to_int n).

(** [nudge_axis(ser, axis, delta, feed)], where [delta] is [sign * nudge_dist]. *)
Definition nudge_axis (axis : string) (sign feed : Z) (w : World) : World :=
  let w := send "G91" w in
  let w := snd (wait_ack 3000 w) in
  let w := send ("G1 " ++ axis ++ repr_delta sign ++ " F" ++ str_int feed) w in
  let w := snd (wait_ack 15000 w) in
  let w := snd (wait_state ["Idle"] 20000 w) in
  let w := send "G90" w in
  snd (wait_ack 3000 w).

(** [cmd[-1].upper() if cmd.startswith("$H") and len(cmd) >= 3 else None] *)
Definition axis_from_home_cmd (cmd : string) : option string :=
  if startswith cmd "$H" && (3 <=? String.length cmd)%nat
  then Some (upper (last_char cmd)) else None.

Definition initial_toward_sign (axis : string) : Z := -1.

(** [("alarm:9" in ack or "alarm:8" in ack) and ax] *)
Definition nudge_applies (ack : string) (ax : option string) : bool :=
  (contains ack "alarm:9" || contains ack "alarm:8")
  && match ax with Some a => truthy a | None => false end.

(** The start of an attempt of [homing_step]: the command is sent, an ack
    awaited for 40 s and [Idle] for 120 s.  The answer is the locals [ack] and
    [ok_idle]. *)
Definition homing_attempt (cmd : string) (attempt retries : Z) (w : World)
    : option string * bool * World :=
  let w := emit (Printed (MHoming cmd attempt retries)) w in
  let w := clear_alarm_if_needed w in
  let w := send cmd w in
  let (ack, w) := wait_ack 40000 w in
  let (ok_idle, w) := wait_state ["Idle"] 120000 w in
  (ack, ok_idle, w).

(** [initial_toward_sign(ax) if attempt == 1 else
    (1.0 if attempt % 2 == 0 else -1.0)] *)
Definition nudge_sign (axis : string) (attempt : Z) : Z :=
  if attempt =? 1 then initial_toward_sign axis
  else if attempt mod 2 =? 0 then 1 else -1.

(** The [for attempt in range(1, retries + 1)] loop of [homing_step], with [n]
    attempts left. *)
Fixpoint homing_loop (n : nat) (attempt retries : Z) (cmd : string)
    (ax : option string) (nudge_feed : Z) (w : World) : bool * World :=
  match n with
  | O => (false, w)
  | S n' =>
      let '(ack, ok_idle, w) := homing_attempt cmd attempt retries w in
      if ack_is ack "ok" && ok_idle then (true, w)
      else if ack_is ack "alarm" then
        let a := match ack with Some a => a | None => "" end in
        let w := emit (Printed (MHomingReported a)) w in
        if nudge_applies a ax then
          let axis := match ax with Some x => x | None => "" end in
          let sign := nudge_sign axis attempt in
          let w := emit (Printed (MNudge axis sign)) w in
          let w := hard_clear w in
          let w := nudge_axis axis sign nudge_feed w in
          homing_loop n' (attempt + 1) retries cmd ax nudge_feed w
        else
          let w := hard_clear w in
          homing_loop n' (attempt + 1) retries cmd ax nudge_feed w
      else
        let w := emit (Printed MNoIdle) w in
        let w := hard_clear w in
        homing_loop n' (attempt + 1) retries cmd ax nudge_feed w
  end.

Definition homing_step (cmd : string) (retries nudge_feed : Z) (w : World)
    : bool * World :=
  homing_loop (Z.to_nat retries) 1 retries cmd (axis_from_home_cmd cmd) nudge_feed w.

(** [not line or line.startswith("(") or line.startswith(";")] *)
Definition is_comment (line : string) : bool :=
  negb (truthy line) || startswith line "(" || startswith line ";".

(** How the attempts on one line of the file end. *)
Inductive LineOutcome : Type :=
| NextLine                 (* break, or the range is exhausted *)
| GiveUp.                  (* return False *)

(** The [for attempt in range(1, line_retries + 2)] loop of [stream_file],
    with [n] attempts left. *)
Fixpoint line_loop (n : nat) (attempt line_retries : Z) (lineno : nat)
    (line : string) (w : World) : LineOutcome * World :=
  match n with
  | O => (NextLine, w)
  | S n' =>
      let w := emit (Printed (MLine lineno line attempt (line_retries + 1))) w in
      let w := clear_alarm_if_needed w in
      let w := send line w in
      let (ack, w) := wait_ack 20000 w in
      match ack with
      | None => (NextLine, clear_alarm_if_needed w)
      | Some a =>
          if startswith a "ok" then (NextLine, w)
          else if startswith a "alarm" then
            let w := emit (Printed MAlarmStreaming) w in
            let w := hard_clear w in
            let w := send "G90" w in
            let w := snd (wait_ack 5000 w) in
            if attempt <=? line_retries
            then line_loop n' (attempt + 1) line_retries lineno line w
            else (GiveUp, emit (Printed MGivingUp) w)
          else (NextLine, clear_alarm_if_needed w)
      end
  end.

(** The [for raw in f] loop of [stream_file]; [lineno] counts the lines read
    so far.  [false] is the [return False]. *)
Fixpoint stream_lines (lines : list string) (lineno : nat) (line_retries : Z)
    (w : World) : bool * World :=
  match lines with
  | [] => (true, w)
  | raw :: rest =>
      let lineno := S lineno in
      let line := strip raw in
      if is_comment line then stream_lines rest lineno line_retries w
      else
        match line_loop (Z.to_nat (line_retries + 1)) 1 line_retries lineno line w with
        | (NextLine, w) => stream_lines rest lineno line_retries w
        | (GiveUp, w) => (false, w)
        end
  end.

(** The preview loop: the first line that is not a comment, if any. *)
Fixpoint preview (lines : list string) (w : World) : World :=
  match lines with
  | [] => w
  | raw :: rest =>
      let s := strip raw in
      if is_comment s then preview rest w
      else emit (Printed (MPreview s)) w
  end.

(** [stream_file(ser, path, line_retries)].  [size] is what [os.path.getsize]
    answers ([None] when it raises) and [file] the lines [open(path)] yields
    ([None] when it raises). *)
Definition stream_file (path : string) (size : option Z)
    (file : option (list string)) (line_retries : Z) (w : World) : bool * World :=
  let w := emit (Printed (MStart path size)) w in
  let w := clear_alarm_if_needed w in
  let w := snd (wait_state ["Idle"] 10000 w) in
  match file with
  | None => (false, emit (Printed MCannotOpen) w)
  | Some lines =>
      let w := preview lines w in
      match stream_lines lines 0 line_retries w with
      | (true, w) => (true, emit (Printed MEnd) w)
      | (false, w) => (false, w)
      end
  end.

(** How [main] ends. *)
Inductive MainExit : Type :=
| SysExit (code : Z)       (* sys.exit(code) *)
| Done (ok : bool).        (* main returned after streaming *)

(** [print(msg); ser.close(); sys.exit(3)] *)
Definition fail_step (what : string) (w : World) : MainExit * World :=
  (SysExit 3, emit Closed (emit (Printed (MFailed what)) w)).

(** Steps 1 to 8 of [main]: each is tried in turn, and the first that fails
    ends the run with [sys.exit(3)].  [None] when all eight succeed. *)
Definition homing_macro (home_retries : Z) (w : World) : option MainExit * World :=
  let (ok, w) := homing_step "$HZ" home_retries 1000 w in
  if negb ok then let (e, w) := fail_step "home Z" w in (Some e, w) else
  let (ok, w) := send_blocking "G0 Z180" 30000 60000 3 true w in
  if negb ok then let (e, w) := fail_step "move Z180" w in (Some e, w) else
  let (ok, w) := homing_step "$HA" home_retries 1000 w in
  if negb ok then let (e, w) := fail_step "home A" w in (Some e, w) else
  let (ok, w) := homing_step "$HY" home_retries 1000 w in
  if negb ok then let (e, w) := fail_step "home Y" w in (Some e, w) else
  let (ok, w) := send_blocking "G0 Y45" 30000 45000 3 true w in
  if negb ok then let (e, w) := fail_step "move Y45" w in (Some e, w) else
  let (ok, w) := homing_step "$HZ" home_retries 1000 w in
  if negb ok then let (e, w) := fail_step "home Z (second pass)" w in (Some e, w) else
  let (ok, w) := homing_step "$HX" home_retries 1000 w in
  if negb ok then let (e, w) := fail_step "home X" w in (Some e, w) else
  let (ok, w) := send_blocking "G0 X45 Y45 Z45 A45" 45000 90000 3 true w in
  if negb ok then let (e, w) := fail_step "final pose move" w in (Some e, w) else
  (None, w).

(** [main()], from the parsed arguments: [file_exists] is
    [os.path.exists(args.file)]. *)
Definition main (path : string) (file_exists : bool) (size : option Z)
    (file : option (list string)) (home_retries line_retries : Z) (w : World)
    : MainExit * World :=
  if negb file_exists then (SysExit 2, emit (Printed MFileNotFound) w)
  else
    let w := emit (Printed MPortBaud) w in
    let w := emit (Printed MFile) w in
    let w := hard_clear w in
    let w := set_rx_on w in
    match homing_macro home_retries w with
    | (Some e, w) => (e, w)
    | (None, w) =>
        let (ok, w) := stream_file path size file line_retries w in
        let w := emit (Printed (if ok then MJobComplete else MStreamAborted)) w in
        (Done ok, emit Closed w)
    end.

End Main.

End Sending.

(** * Properties *)

(** ** The shared engine of [home.py] and [sender.py] *)

Module CommonFacts.

Import Py Common.
Open Scope string_scope.
Open Scope Z_scope.
Open Scope list_scope.

(** Case analysis on every test the goal branches on. *)
Ltac break_tests :=
  repeat match goal with
         | |- context [if ?b then _ else _] => destruct b eqn:?
         | |- context [match ?o with Some _ => _ | None => _ end] => destruct o eqn:?
         end.

(** *** What the receiver leaves alone *)

Lemma rx_iter_frame raw w :
  trace (rx_iter raw w) = trace w /\ now (rx_iter raw w) = now w /\
  tick (rx_iter raw w) = tick w /\ stop (rx_iter raw w) = stop w.
Proof.
  unfold rx_iter, rxq_put, track_state.
  break_tests; simpl; auto.
Qed.

Lemma rx_loop_frame lines : forall w,
  trace (_rx_loop lines w) = trace w /\ now (_rx_loop lines w) = now w /\
  tick (_rx_loop lines w) = tick w /\ stop (_rx_loop lines w) = stop w.
Proof.
  induction lines as [|raw lines IH]; intros w; simpl; [auto|].
  destruct (IH (rx_iter raw w)) as (H1 & H2 & H3 & H4).
  destruct (rx_iter_frame raw w) as (G1 & G2 & G3 & G4).
  unfold _rx_loop in *. simpl. rewrite H1, H2, H3, H4. auto.
Qed.

Lemma rx_iter_rxq_length raw w :
  (List.length (rxq (rx_iter raw w)) <= S (List.length (rxq w)))%nat.
Proof.
  unfold rx_iter, rxq_put, track_state.
  break_tests; simpl; try rewrite length_app; simpl; lia.
Qed.

Lemma rx_loop_rxq_length lines : forall w,
  (List.length (rxq (_rx_loop lines w)) <= List.length (rxq w) + List.length lines)%nat.
Proof.
  induction lines as [|raw lines IH]; intros w; simpl; [lia|].
  unfold _rx_loop in *. simpl.
  specialize (IH (rx_iter raw w)). pose proof (rx_iter_rxq_length raw w). lia.
Qed.

(** *** The receiver on one line *)

Lemma rxq_track_state line w : rxq (track_state line w) = rxq w.
Proof. unfold track_state. break_tests; reflexivity. Qed.

Lemma rx_out_track_state line w : rx_out (track_state line w) = rx_out w.
Proof. unfold track_state. break_tests; reflexivity. Qed.

Lemma stop_track_state line w : stop (track_state line w) = stop w.
Proof. unfold track_state. break_tests; reflexivity. Qed.

Lemma rx_iter_ack raw w :
  stop w = false -> truthy raw = true -> is_ack (lower (strip raw)) = true ->
  rx_iter raw w = rxq_put (lower (strip raw)) (track_state (strip raw) (rx_print (REcho (strip raw)) w)).
Proof. intros Hs Ht Ha. unfold rx_iter. rewrite Hs, Ht, Ha. reflexivity. Qed.

Lemma rx_iter_echo raw w :
  stop w = false -> truthy raw = true ->
  exists more, rx_out (rx_iter raw w) = rx_out w ++ REcho (strip raw) :: more.
Proof.
  intros Hs Ht. unfold rx_iter, rxq_put. rewrite Hs, Ht. cbn [negb].
  break_tests; cbn [rx_out rx_print set_rxq]; rewrite rx_out_track_state; cbn [rx_out rx_print].
  - exists []. reflexivity.
  - exists [RQueueFull]. rewrite <- app_assoc. reflexivity.
  - exists []. reflexivity.
Qed.

Lemma rx_iter_out_grows raw w : exists more, rx_out (rx_iter raw w) = rx_out w ++ more.
Proof.
  unfold rx_iter, rxq_put.
  break_tests; cbn [rx_out rx_print set_rxq]; rewrite ?rx_out_track_state; cbn [rx_out rx_print].
  all: try (exists []; rewrite app_nil_r; reflexivity).
  - exists [REcho (strip raw)]. reflexivity.
  - exists [REcho (strip raw); RQueueFull]. rewrite <- app_assoc. reflexivity.
  - exists [REcho (strip raw)]. reflexivity.
Qed.

Lemma rx_loop_out_grows lines : forall w,
  exists more, rx_out (_rx_loop lines w) = rx_out w ++ more.
Proof.
  induction lines as [|raw lines IH]; intros w.
  - exists []. simpl. rewrite app_nil_r. reflexivity.
  - destruct (IH (rx_iter raw w)) as (m2 & E2).
    destruct (rx_iter_out_grows raw w) as (m1 & E1).
    exists (m1 ++ m2). unfold _rx_loop in *. cbn [fold_left].
    rewrite E2, E1, app_assoc. reflexivity.
Qed.

(** Whatever the queue holds, the receiver reads every line it is handed:
    each non-empty one is echoed. *)
Lemma rx_loop_reads_all lines : forall w raw,
  stop w = false -> In raw lines -> truthy raw = true ->
  In (REcho (strip raw)) (rx_out (_rx_loop lines w)).
Proof.
  induction lines as [|r0 lines IH]; intros w raw Hs Hin Ht; [contradiction|].
  unfold _rx_loop in *. cbn [fold_left].
  destruct Hin as [-> | Hin].
  - destruct (rx_iter_echo raw w Hs Ht) as (m1 & E1).
    destruct (rx_loop_out_grows lines (rx_iter raw w)) as (m2 & E2).
    unfold _rx_loop in E2. rewrite E2, E1.
    apply in_or_app. left. apply in_or_app. right. left. reflexivity.
  - apply IH; auto. destruct (rx_iter_frame r0 w) as (_ & _ & _ & H). congruence.
Qed.

(** *** Projections of an updated world *)

Lemma trace_emit e w : trace (emit e w) = trace w ++ [e].
Proof. reflexivity. Qed.
Lemma now_emit e w : now (emit e w) = now w.
Proof. reflexivity. Qed.
Lemma tick_emit e w : tick (emit e w) = tick w.
Proof. reflexivity. Qed.
Lemma stop_emit e w : stop (emit e w) = stop w.
Proof. reflexivity. Qed.
Lemma rxq_emit e w : rxq (emit e w) = rxq w.
Proof. reflexivity. Qed.
Lemma last_state_emit e w : last_state (emit e w) = last_state w.
Proof. reflexivity. Qed.
Lemma trace_set_rxq q w : trace (set_rxq q w) = trace w.
Proof. reflexivity. Qed.
Lemma now_set_rxq q w : now (set_rxq q w) = now w.
Proof. reflexivity. Qed.
Lemma tick_set_rxq q w : tick (set_rxq q w) = tick w.
Proof. reflexivity. Qed.
Lemma stop_set_rxq q w : stop (set_rxq q w) = stop w.
Proof. reflexivity. Qed.
Lemma rxq_set_rxq q w : rxq (set_rxq q w) = q.
Proof. reflexivity. Qed.
Lemma last_state_set_rxq q w : last_state (set_rxq q w) = last_state w.
Proof. reflexivity. Qed.

Create Rewrite HintDb world.

#[export] Hint Rewrite trace_emit now_emit tick_emit stop_emit rxq_emit last_state_emit
  trace_set_rxq now_set_rxq tick_set_rxq stop_set_rxq rxq_set_rxq last_state_set_rxq
  : world.

Section Sender.

Variable env : nat -> list string.

Lemma suspend_frame ms w :
  trace (suspend env ms w) = trace w /\ now (suspend env ms w) = now w + ms /\
  tick (suspend env ms w) = S (tick w) /\ stop (suspend env ms w) = stop w.
Proof.
  unfold suspend. destruct (rx_loop_frame (env (tick w)) w) as (H1 & H2 & H3 & H4).
  unfold advance; cbn [trace now tick stop]. rewrite H1, H2, H3, H4. auto.
Qed.

Lemma trace_suspend ms w : trace (suspend env ms w) = trace w.
Proof. apply suspend_frame. Qed.
Lemma now_suspend ms w : now (suspend env ms w) = now w + ms.
Proof. apply suspend_frame. Qed.
Lemma tick_suspend ms w : tick (suspend env ms w) = S (tick w).
Proof. apply suspend_frame. Qed.
Lemma stop_suspend ms w : stop (suspend env ms w) = stop w.
Proof. apply suspend_frame. Qed.

Lemma trace_sleep ms w : trace (sleep env ms w) = trace w ++ [Slept ms].
Proof. unfold sleep. rewrite trace_suspend. reflexivity. Qed.
Lemma now_sleep ms w : now (sleep env ms w) = now w + ms.
Proof. unfold sleep. rewrite now_suspend. reflexivity. Qed.
Lemma tick_sleep ms w : tick (sleep env ms w) = S (tick w).
Proof. unfold sleep. rewrite tick_suspend. reflexivity. Qed.
Lemma stop_sleep ms w : stop (sleep env ms w) = stop w.
Proof. unfold sleep. rewrite stop_suspend. reflexivity. Qed.

Lemma trace_request_status w : trace (request_status w) = trace w ++ [Wrote "?"].
Proof. reflexivity. Qed.
Lemma now_request_status w : now (request_status w) = now w.
Proof. reflexivity. Qed.
Lemma tick_request_status w : tick (request_status w) = tick w.
Proof. reflexivity. Qed.
Lemma stop_request_status w : stop (request_status w) = stop w.
Proof. reflexivity. Qed.
Lemma rxq_request_status w : rxq (request_status w) = rxq w.
Proof. reflexivity. Qed.
Lemma last_state_request_status w : last_state (request_status w) = last_state w.
Proof. reflexivity. Qed.

(** [s] with the newline [send_line] ends it with. *)
Definition terminated (s : string) : string :=
  if endswith s NL then s else (s ++ NL)%string.

Lemma trace_send_line s w : trace (send_line s w) = trace w ++ [Wrote (terminated s)].
Proof. reflexivity. Qed.
Lemma now_send_line s w : now (send_line s w) = now w.
Proof. reflexivity. Qed.
Lemma tick_send_line s w : tick (send_line s w) = tick w.
Proof. reflexivity. Qed.
Lemma stop_send_line s w : stop (send_line s w) = stop w.
Proof. reflexivity. Qed.
Lemma rxq_send_line s w : rxq (send_line s w) = rxq w.
Proof. reflexivity. Qed.

Hint Rewrite trace_suspend now_suspend tick_suspend stop_suspend
  trace_sleep now_sleep tick_sleep stop_sleep
  trace_request_status now_request_status tick_request_status stop_request_status
  rxq_request_status last_state_request_status
  trace_send_line now_send_line tick_send_line stop_send_line rxq_send_line : world.

(** A [get] that times out has waited its whole timeout; one that answers
    leaves the clock where the wait ended. *)
Lemma rxq_get_cases ms w r w' :
  rxq_get env ms w = (r, w') ->
  (exists a q, rxq w = a :: q /\ r = Some a /\ w' = emit (Got a) (set_rxq q w)) \/
  (rxq w = [] /\ exists a q, rxq (suspend env ms w) = a :: q /\ r = Some a /\
     w' = emit (Got a) (set_rxq q (suspend env ms w))) \/
  (rxq w = [] /\ rxq (suspend env ms w) = [] /\ r = None /\
     w' = emit Empty (suspend env ms w)).
Proof.
  unfold rxq_get. destruct (rxq w) as [|a q] eqn:E.
  - destruct (rxq (suspend env ms w)) as [|a q] eqn:E2; intros H; inversion H; subst.
    + right. right. auto.
    + right. left. split; [reflexivity|]. exists a, q. auto.
  - intros H; inversion H; subst. left. exists a, q. auto.
Qed.

Lemma rxq_get_none ms w w' :
  rxq_get env ms w = (None, w') ->
  now w' = now w + ms /\ trace w' = trace w ++ [Empty] /\ stop w' = stop w /\
  tick w' = S (tick w) /\ rxq w' = [].
Proof.
  intros H. apply rxq_get_cases in H.
  destruct H as [(a & q & _ & H & _) | [(_ & a & q & _ & H & _) | (_ & E & _ & ->)]];
    try discriminate.
  autorewrite with world. auto.
Qed.

(** *** The loops satisfy their own equations *)

Lemma ack_fuel_decreases deadline w w' :
  ack_cond deadline w = true -> rxq_get env 250 w = (None, w') ->
  (ack_fuel deadline w' < ack_fuel deadline w)%nat.
Proof.
  unfold ack_cond, ack_fuel. intros Hc Hg.
  apply Z.ltb_lt in Hc. apply rxq_get_none in Hg. destruct Hg as (Hn & _).
  rewrite Hn.
  assert (0 <= (deadline - now w) / 250) by (apply Z.div_pos; lia).
  assert ((deadline - (now w + 250)) / 250 = (deadline - now w) / 250 - 1).
  { replace (deadline - (now w + 250)) with ((deadline - now w) + (-1) * 250) by lia.
    rewrite Z.div_add by lia. lia. }
  lia.
Qed.

Lemma wait_ack_loop_unfold deadline w :
  Loop.while_ (ack_cond deadline) (rxq_get env 250) (ack_fuel deadline) w =
  if ack_cond deadline w then
    match rxq_get env 250 w with
    | (Some a, w') => (Some a, w')
    | (None, w') =>
        Loop.while_ (ack_cond deadline) (rxq_get env 250) (ack_fuel deadline) w'
    end
  else (None, w).
Proof.
  apply Loop.while_unfold. intros s s'. apply ack_fuel_decreases.
Qed.

Lemma idle_body_none w w' :
  idle_body env w = (None, w') -> now w + POLL_INTERVAL_S <= now w'.
Proof.
  unfold idle_body, POLL_INTERVAL_S.
  destruct (is_idle w).
  - destruct (is_idle _); intros H; inversion H; subst; clear H.
    autorewrite with world. lia.
  - intros H; inversion H; subst; clear H.
    autorewrite with world. lia.
Qed.

Lemma idle_fuel_step start timeout_s w w' :
  idle_cond start timeout_s w = true -> now w + POLL_INTERVAL_S <= now w' ->
  (idle_fuel start timeout_s w' < idle_fuel start timeout_s w)%nat.
Proof.
  unfold idle_cond, idle_fuel, POLL_INTERVAL_S. intros Hc Hn.
  apply Z.ltb_lt in Hc.
  assert (0 <= (start + timeout_s - now w) / 250) by (apply Z.div_pos; lia).
  assert ((start + timeout_s - now w') / 250 <= (start + timeout_s - now w) / 250 - 1).
  { replace ((start + timeout_s - now w) / 250 - 1)
      with ((start + timeout_s - now w + (-1) * 250) / 250)
      by (rewrite Z.div_add by lia; lia).
    apply Z.div_le_mono; lia. }
  lia.
Qed.

Lemma wait_until_idle_loop_unfold start timeout_s w :
  Loop.while_ (idle_cond start timeout_s) (idle_body env) (idle_fuel start timeout_s) w =
  if idle_cond start timeout_s w then
    match idle_body env w with
    | (Some b, w') => (Some b, w')
    | (None, w') =>
        Loop.while_ (idle_cond start timeout_s) (idle_body env)
                    (idle_fuel start timeout_s) w'
    end
  else (None, w).
Proof.
  apply Loop.while_unfold. intros s s' Hc Hb.
  apply idle_fuel_step; [exact Hc | apply idle_body_none; exact Hb].
Qed.

Lemma leave_idle_body_none w w' :
  leave_idle_body env w = (None, w') -> now w + POLL_INTERVAL_S <= now w'.
Proof.
  unfold leave_idle_body, POLL_INTERVAL_S.
  destruct (negb (is_idle w)); intros H; inversion H; subst; clear H.
  autorewrite with world. lia.
Qed.

Lemma leave_idle_loop_unfold start timeout_s w :
  Loop.while_ (idle_cond start timeout_s) (leave_idle_body env)
              (idle_fuel start timeout_s) w =
  if idle_cond start timeout_s w then
    match leave_idle_body env w with
    | (Some b, w') => (Some b, w')
    | (None, w') =>
        Loop.while_ (idle_cond start timeout_s) (leave_idle_body env)
                    (idle_fuel start timeout_s) w'
    end
  else (None, w).
Proof.
  apply Loop.while_unfold. intros s s' Hc Hb.
  apply idle_fuel_step; [exact Hc | apply leave_idle_body_none; exact Hb].
Qed.

Lemma drain_loop_unfold w :
  Loop.while_ (fun _ => true) drain_body (fun w => List.length (rxq w)) w =
  match drain_body w with
  | (Some b, w') => (Some b, w')
  | (None, w') =>
      Loop.while_ (fun _ => true) drain_body (fun w => List.length (rxq w)) w'
  end.
Proof.
  rewrite Loop.while_unfold at 1; [reflexivity|].
  intros s s' _. unfold drain_body, rxq_get_nowait.
  destruct (rxq s) as [|a q] eqn:E; intros H; inversion H; subst. simpl. lia.
Qed.

(** *** What a call adds to the trace *)

(** The bytes written, in order. *)
Definition writes (evs : list Event) : list string :=
  flat_map (fun e => match e with Wrote b => [b] | _ => [] end) evs.

(** [ack.startswith("ok")] *)
Definition ok_reply (a : string) : bool := startswith a "ok".

(** What a [wait_ack] that answers [r] adds: the polls that found the queue
    empty, then the reply. *)
Definition ack_events (k : nat) (r : option string) : list Event :=
  repeat Empty k ++ match r with Some a => [Got a] | None => [] end.

Lemma writes_app evs1 evs2 : writes (evs1 ++ evs2) = writes evs1 ++ writes evs2.
Proof. unfold writes. apply flat_map_app. Qed.

Lemma writes_ack_events k r : writes (ack_events k r) = [].
Proof.
  unfold ack_events. rewrite writes_app.
  assert (writes (repeat Empty k) = []) as -> by (induction k; simpl; auto).
  destruct r; reflexivity.
Qed.

Lemma in_got_ack_events a k r : In (Got a) (ack_events k r) -> r = Some a.
Proof.
  unfold ack_events. rewrite in_app_iff. intros [H | H].
  - apply repeat_spec in H. discriminate.
  - destruct r; simpl in H; [|contradiction].
    destruct H as [H | []]. inversion H. reflexivity.
Qed.

Lemma rxq_get_some ms w a w' :
  rxq_get env ms w = (Some a, w') -> trace w' = trace w ++ [Got a].
Proof.
  intros H. apply rxq_get_cases in H.
  destruct H as [(b & q & _ & H & ->) | [(_ & b & q & _ & H & ->) | (_ & _ & H & _)]];
    try discriminate; inversion H; subst; autorewrite with world; reflexivity.
Qed.

Lemma wait_ack_iter_shape deadline : forall n w r w',
  Loop.iter (ack_cond deadline) (rxq_get env 250) n w = (r, w') ->
  exists k, trace w' = trace w ++ ack_events k r.
Proof.
  induction n as [|n IH]; intros w r w' H; simpl in H.
  - inversion H; subst. exists 0%nat. simpl. rewrite app_nil_r. reflexivity.
  - destruct (ack_cond deadline w).
    + destruct (rxq_get env 250 w) as [[a|] w1] eqn:Hg.
      * inversion H; subst. exists 0%nat. simpl. eapply rxq_get_some; eauto.
      * apply rxq_get_none in Hg. destruct Hg as (_ & Ht & _).
        destruct (IH _ _ _ H) as (k & Hk). exists (S k).
        rewrite Hk, Ht. unfold ack_events. simpl. rewrite <- app_assoc. reflexivity.
    + inversion H; subst. exists 0%nat. simpl. rewrite app_nil_r. reflexivity.
Qed.

Lemma wait_ack_shape timeout_s w r w' :
  wait_ack env timeout_s w = (r, w') ->
  exists k, trace w' = trace w ++ ack_events k r.
Proof. unfold wait_ack, Loop.while_. apply wait_ack_iter_shape. Qed.

(** How a failed [send_gcode] ends: on a timeout of its last attempt, or on
    the last reply, which was not an ok. *)
Definition final_failure (gcode : string) (evs : list Event) (last : string) : Prop :=
  (exists evs0, evs = evs0 ++ [Printed (MNoReply gcode)] /\ last = "timeout") \/
  (exists evs0 a, evs = evs0 ++ [Got a; Printed (MFw a gcode)] /\
                  last = ack_or_timeout (Some a)).

Lemma final_failure_app gcode evs1 evs last :
  final_failure gcode evs last -> final_failure gcode (evs1 ++ evs) last.
Proof.
  intros [(evs0 & -> & H) | (evs0 & a & -> & H)]; [left | right].
  - exists (evs1 ++ evs0). rewrite app_assoc. auto.
  - exists (evs1 ++ evs0), a. rewrite app_assoc. auto.
Qed.

Lemma send_gcode_loop_spec gcode retries ack_timeout : forall n attempt ack w,
  attempt + Z.of_nat n = retries + 1 ->
  (n = 0%nat -> ack <> None) ->
  exists ok last w' evs k,
    send_gcode_loop env n attempt retries gcode ack_timeout ack w = (Ret (ok, last), w') /\
    trace w' = trace w ++ evs /\
    writes evs = repeat (terminated gcode) k /\
    (k <= n)%nat /\ ((1 <= n)%nat -> (1 <= k)%nat) /\
    (ok = false -> k = n) /\
    (ok = true -> ok_reply last = true /\
       exists evs0, evs = evs0 ++ [Got last] /\
                    forall a, In (Got a) evs0 -> ok_reply a = false) /\
    (ok = false -> (forall a, In (Got a) evs -> ok_reply a = false) /\
                   ((1 <= n)%nat -> final_failure gcode evs last)).
Proof.
  induction n as [|n IH]; intros attempt ack w Hn Hack.
  - destruct ack as [a|]; [|exfalso; apply Hack; reflexivity].
    exists false, (ack_or_timeout a), w, [], 0%nat. simpl.
    rewrite app_nil_r. repeat split; auto; try lia; try discriminate.
  - cbn [send_gcode_loop].
    destruct (wait_ack env ack_timeout
                (send_line gcode (emit (Printed (MTry gcode attempt retries)) w)))
      as [r w1] eqn:Hw.
    destruct (wait_ack_shape _ _ _ _ Hw) as (k0 & Hk0).
    autorewrite with world in Hk0.
    destruct r as [a|].
    + destruct (startswith a "ok") eqn:Hok.
      * exists true, a, w1,
          ([Printed (MTry gcode attempt retries); Wrote (terminated gcode)]
             ++ ack_events k0 (Some a)), 1%nat.
        split; [reflexivity|]. split.
        { rewrite Hk0. rewrite <- !app_assoc. reflexivity. }
        split. { rewrite writes_app, writes_ack_events. reflexivity. }
        split; [lia|]. split; [lia|]. split; [discriminate|].
        split; [|discriminate].
        intros _. split; [exact Hok|].
        exists ([Printed (MTry gcode attempt retries); Wrote (terminated gcode)]
                  ++ repeat Empty k0).
        split. { unfold ack_events. rewrite <- !app_assoc. reflexivity. }
        intros b Hb. simpl in Hb.
        destruct Hb as [Hb | [Hb | Hb]]; try discriminate.
        apply repeat_spec in Hb. discriminate.
      * set (w2 := emit (Printed (MFw a gcode)) w1).
        set (w3 := if attempt <? retries then sleep env 200 w2 else w2).
        assert (Hn' : attempt + 1 + Z.of_nat n = retries + 1) by lia.
        assert (Hack' : n = 0%nat -> Some (Some a) <> (None : option (option string)))
          by (intros _; discriminate).
        destruct (IH (attempt + 1) (Some (Some a)) w3 Hn' Hack')
          as (ok & last & w' & evs & k & Hrun & Htr & Hwr & Hle & Hge & Hfail & Hok' & Hno).
        set (pre := [Printed (MTry gcode attempt retries); Wrote (terminated gcode)]
                      ++ ack_events k0 (Some a) ++ [Printed (MFw a gcode)]
                      ++ (if attempt <? retries then [Slept 200] else [])).
        assert (Htr3 : trace w3 = trace w ++ pre).
        { unfold w3, w2, pre. destruct (attempt <? retries); autorewrite with world;
            rewrite Hk0; rewrite <- !app_assoc; simpl; rewrite <- ?app_assoc; reflexivity. }
        assert (Hwpre : writes pre = [terminated gcode]).
        { unfold pre. rewrite !writes_app, writes_ack_events.
          destruct (attempt <? retries); reflexivity. }
        assert (Hgpre : forall b, In (Got b) pre -> ok_reply b = false).
        { unfold pre. intros b Hb. rewrite !in_app_iff in Hb.
          destruct Hb as [Hb | [Hb | [Hb | Hb]]].
          - simpl in Hb. destruct Hb as [Hb | [Hb | []]]; discriminate.
          - apply in_got_ack_events in Hb. inversion Hb; subst. exact Hok.
          - simpl in Hb. destruct Hb as [Hb | []]; discriminate.
          - destruct (attempt <? retries); simpl in Hb;
              [destruct Hb as [Hb | []]; discriminate | contradiction]. }
        exists ok, last, w', (pre ++ evs), (S k).
        split; [exact Hrun|]. split.
        { rewrite Htr, Htr3, <- app_assoc. reflexivity. }
        split. { rewrite writes_app, Hwpre, Hwr. reflexivity. }
        split; [lia|]. split; [lia|]. split; [intros E; specialize (Hfail E); lia|].
        split.
        { intros E. destruct (Hok' E) as (Hl & evs0 & -> & Hev0). split; [exact Hl|].
          exists (pre ++ evs0). split; [rewrite app_assoc; reflexivity|].
          intros b Hb. rewrite in_app_iff in Hb. destruct Hb; auto. }
        { intros E. destruct (Hno E) as (Hall & Hfin). split.
          - intros b Hb. rewrite in_app_iff in Hb. destruct Hb; auto.
          - intros _. destruct n as [|n].
            + (* the last attempt *)
              simpl in Hrun. inversion Hrun; subst.
              assert ((attempt <? retries) = false) as Hlast by (apply Z.ltb_ge; lia).
              right. exists ([Printed (MTry gcode attempt retries); Wrote (terminated gcode)]
                               ++ repeat Empty k0), a.
              split; [|reflexivity].
              assert (evs = []) as ->.
              { apply app_inv_head with (l := trace w3).
                rewrite app_nil_r. symmetry. exact Htr. }
              unfold pre, ack_events. rewrite Hlast.
              rewrite app_nil_r. rewrite <- !app_assoc. reflexivity.
            + apply final_failure_app. apply Hfin. lia. }
    + set (w2 := emit (Printed (MNoReply gcode)) w1).
      assert (Hn' : attempt + 1 + Z.of_nat n = retries + 1) by lia.
      assert (Hack' : n = 0%nat -> Some (@None string) <> None)
        by (intros _; discriminate).
      destruct (IH (attempt + 1) (Some None) w2 Hn' Hack')
        as (ok & last & w' & evs & k & Hrun & Htr & Hwr & Hle & Hge & Hfail & Hok' & Hno).
      set (pre := [Printed (MTry gcode attempt retries); Wrote (terminated gcode)]
                    ++ ack_events k0 None ++ [Printed (MNoReply gcode)]).
      assert (Htr2 : trace w2 = trace w ++ pre).
      { unfold w2, pre. autorewrite with world. rewrite Hk0.
        rewrite <- !app_assoc. reflexivity. }
      assert (Hwpre : writes pre = [terminated gcode]).
      { unfold pre. rewrite !writes_app, writes_ack_events. reflexivity. }
      assert (Hgpre : forall b, In (Got b) pre -> ok_reply b = false).
      { unfold pre. intros b Hb. rewrite !in_app_iff in Hb.
        destruct Hb as [Hb | [Hb | Hb]].
        - simpl in Hb. destruct Hb as [Hb | [Hb | []]]; discriminate.
        - apply in_got_ack_events in Hb. discriminate.
        - simpl in Hb. destruct Hb as [Hb | []]; discriminate. }
      exists ok, last, w', (pre ++ evs), (S k).
      split; [exact Hrun|]. split.
      { rewrite Htr, Htr2, <- app_assoc. reflexivity. }
      split. { rewrite writes_app, Hwpre, Hwr. reflexivity. }
      split; [lia|]. split; [lia|]. split; [intros E; specialize (Hfail E); lia|].
      split.
      { intros E. destruct (Hok' E) as (Hl & evs0 & -> & Hev0). split; [exact Hl|].
        exists (pre ++ evs0). split; [rewrite app_assoc; reflexivity|].
        intros b Hb. rewrite in_app_iff in Hb. destruct Hb; auto. }
      { intros E. destruct (Hno E) as (Hall & Hfin). split.
        - intros b Hb. rewrite in_app_iff in Hb. destruct Hb; auto.
        - intros _. destruct n as [|n].
          + simpl in Hrun. inversion Hrun; subst.
            left. exists ([Printed (MTry gcode attempt retries); Wrote (terminated gcode)]
                            ++ ack_events k0 None).
            split; [|reflexivity].
            assert (evs = []) as ->.
            { apply app_inv_head with (l := trace w2).
              rewrite app_nil_r. symmetry. exact Htr. }
            unfold pre. rewrite app_nil_r. rewrite <- !app_assoc. reflexivity.
          + apply final_failure_app. apply Hfin. lia. }
Qed.

(** *** A later world

    [later w w']: [w'] is [w] after the sender has run on: the stop signal as
    it was, the suspension count no smaller, the trace extended. *)

Definition later (w w' : World) : Prop :=
  stop w' = stop w /\ (tick w <= tick w')%nat /\ exists evs, trace w' = trace w ++ evs.

Lemma later_refl w : later w w.
Proof. repeat split; auto. exists []. rewrite app_nil_r. reflexivity. Qed.

Lemma later_trans w1 w2 w3 : later w1 w2 -> later w2 w3 -> later w1 w3.
Proof.
  intros (S1 & T1 & e1 & E1) (S2 & T2 & e2 & E2). repeat split; try congruence; try lia.
  exists (e1 ++ e2). rewrite E2, E1, app_assoc. reflexivity.
Qed.

Lemma later_emit e w : later w (emit e w).
Proof. repeat split; auto. exists [e]. reflexivity. Qed.

Lemma later_set_rxq q w : later w (set_rxq q w).
Proof. repeat split; auto. exists []. simpl. rewrite app_nil_r. reflexivity. Qed.

Lemma later_suspend ms w : later w (suspend env ms w).
Proof.
  repeat split; autorewrite with world; auto.
  exists []. rewrite app_nil_r. reflexivity.
Qed.

Lemma later_sleep ms w : later w (sleep env ms w).
Proof.
  unfold sleep. eapply later_trans; [apply later_emit | apply later_suspend].
Qed.

Lemma later_rxq_get ms w r w' : rxq_get env ms w = (r, w') -> later w w'.
Proof.
  intros H. apply rxq_get_cases in H.
  destruct H as [(a & q & _ & _ & ->) | [(_ & a & q & _ & _ & ->) | (_ & _ & _ & ->)]].
  - eapply later_trans; [apply later_set_rxq | apply later_emit].
  - eapply later_trans; [apply later_suspend|].
    eapply later_trans; [apply later_set_rxq | apply later_emit].
  - eapply later_trans; [apply later_suspend | apply later_emit].
Qed.

Lemma later_rxq_get_nowait w : later w (snd (rxq_get_nowait w)).
Proof.
  unfold rxq_get_nowait. destruct (rxq w); simpl.
  - apply later_emit.
  - eapply later_trans; [apply later_set_rxq | apply later_emit].
Qed.

Lemma later_iter {St A} (proj : St -> World) cond (body : St -> option A * St) :
  (forall s r s', body s = (r, s') -> later (proj s) (proj s')) ->
  forall n s, later (proj s) (proj (snd (Loop.iter cond body n s))).
Proof.
  intros Hbody n s.
  destruct (Loop.iter cond body n s) as [r s'] eqn:E.
  eapply (Loop.iter_preserves cond body (fun a b => later (proj a) (proj b))); eauto.
  - intros. apply later_refl.
  - intros. eapply later_trans; eauto.
Qed.

Lemma later_wait_ack timeout_s w : later w (snd (wait_ack env timeout_s w)).
Proof.
  unfold wait_ack, Loop.while_.
  apply (later_iter (fun w => w)). intros s r s'. apply later_rxq_get.
Qed.

Lemma later_idle_body w : later w (snd (idle_body env w)).
Proof.
  unfold idle_body, request_status.
  destruct (is_idle w).
  - destruct (is_idle _); simpl;
      (eapply later_trans; [apply later_sleep|];
       eapply later_trans; [apply later_emit | apply later_sleep]).
  - simpl. eapply later_trans; [apply later_sleep | apply later_emit].
Qed.

Lemma later_idle_loop start timeout_s n w :
  later w (snd (Loop.iter (idle_cond start timeout_s) (idle_body env) n w)).
Proof.
  apply (later_iter (fun w => w)). intros s r s' E.
  pose proof (later_idle_body s) as H. rewrite E in H. exact H.
Qed.

Lemma later_wait_until_idle timeout_s w : later w (snd (wait_until_idle env timeout_s w)).
Proof.
  unfold wait_until_idle, Loop.while_, request_status.
  match goal with |- context [Loop.iter ?c ?b ?n ?x] =>
    pose proof (later_idle_loop (now w) timeout_s n x) as Hl;
    destruct (Loop.iter c b n x) as [[b0|] w1]
  end; simpl in *.
  - eapply later_trans; [apply later_emit|].
    eapply later_trans; [apply later_sleep | exact Hl].
  - eapply later_trans; [apply later_emit|].
    eapply later_trans; [apply later_sleep|].
    eapply later_trans; [exact Hl | apply later_emit].
Qed.

Lemma later_leave_idle_body w : later w (snd (leave_idle_body env w)).
Proof.
  unfold leave_idle_body, request_status.
  destruct (negb (is_idle w)); simpl.
  - apply later_refl.
  - eapply later_trans; [apply later_sleep | apply later_emit].
Qed.

Lemma later_wait_motion_complete t1 t2 w :
  later w (snd (wait_motion_complete env t1 t2 w)).
Proof.
  unfold wait_motion_complete, Loop.while_, request_status.
  eapply later_trans; [apply later_emit|].
  eapply later_trans; [|apply later_wait_until_idle].
  apply (later_iter (fun w => w)). intros s r s' E.
  pose proof (later_leave_idle_body s) as H. rewrite E in H. exact H.
Qed.

Lemma later_send_line s w : later w (send_line s w).
Proof. apply later_emit. Qed.

Lemma later_send_gcode_loop gcode retries t : forall n attempt ack w,
  later w (snd (send_gcode_loop env n attempt retries gcode t ack w)).
Proof.
  induction n as [|n IH]; intros attempt ack w; cbn [send_gcode_loop].
  - destruct ack; simpl; apply later_refl.
  - pose proof (later_wait_ack t
                  (send_line gcode (emit (Printed (MTry gcode attempt retries)) w))) as Hw.
    destruct (wait_ack env t _) as [[a|] w1]; simpl in Hw.
    + destruct (startswith a "ok"); simpl.
      * eapply later_trans; [apply later_emit|].
        eapply later_trans; [apply later_send_line | exact Hw].
      * eapply later_trans; [|apply IH].
        eapply later_trans; [apply later_emit|].
        eapply later_trans; [apply later_send_line|].
        eapply later_trans; [exact Hw|].
        eapply later_trans; [apply later_emit|].
        destruct (attempt <? retries); [apply later_sleep | apply later_refl].
    + eapply later_trans; [|apply IH].
      eapply later_trans; [apply later_emit|].
      eapply later_trans; [apply later_send_line|].
      eapply later_trans; [exact Hw | apply later_emit].
Qed.

Lemma later_send_gcode gcode retries t w :
  later w (snd (send_gcode env gcode retries t w)).
Proof. apply later_send_gcode_loop. Qed.

(** *** Emptying the queue *)

Lemma drain_iter_empties : forall n w,
  (List.length (rxq w) < n)%nat ->
  exists w', Loop.iter (fun _ => true) drain_body n w = (Some tt, w') /\
             rxq w' = [] /\ tick w' = tick w /\ now w' = now w /\
             last_state w' = last_state w /\ stop w' = stop w.
Proof.
  induction n as [|n IH]; intros w Hn; [lia|].
  cbn [Loop.iter]. destruct (drain_body w) as [r w1] eqn:Hb.
  unfold drain_body, rxq_get_nowait in Hb.
  destruct (rxq w) as [|a q] eqn:E; inversion Hb; subst; clear Hb.
  - exists (emit Empty w). autorewrite with world. repeat split; auto.
  - destruct (IH (emit (Got a) (set_rxq q w))) as (w' & H1 & H2 & H3 & H4 & H5 & H6).
    { autorewrite with world. simpl in Hn. lia. }
    exists w'. rewrite H1. autorewrite with world in *. repeat split; auto.
Qed.

Lemma unlock_after_alarm_rxq w :
  rxq (unlock_after_alarm env w) = [] /\
  tick (unlock_after_alarm env w) = S (tick w).
Proof.
  unfold unlock_after_alarm, Loop.while_.
  destruct (drain_iter_empties (S (List.length (rxq (sleep env 200 (send_line "$X" w)))))
              (sleep env 200 (send_line "$X" w))) as (w' & H1 & H2 & H3 & _); [lia|].
  rewrite H1. simpl. rewrite H2, H3. autorewrite with world. auto.
Qed.

Lemma later_unlock_after_alarm w : later w (unlock_after_alarm env w).
Proof.
  unfold unlock_after_alarm, Loop.while_.
  eapply later_trans; [apply later_send_line|].
  eapply later_trans; [apply later_sleep|].
  apply (later_iter (fun w => w)). intros s r s' E.
  unfold drain_body in E. pose proof (later_rxq_get_nowait s) as H.
  destruct (rxq_get_nowait s) as [[a|] w1]; inversion E; subst; exact H.
Qed.

(** *** Where a reply comes from *)

Lemma rx_iter_rxq_from raw w a :
  In a (rxq (rx_iter raw w)) -> In a (rxq w) \/ a = lower (strip raw).
Proof.
  unfold rx_iter, rxq_put, track_state.
  break_tests; simpl; auto; rewrite in_app_iff; simpl; intuition auto.
Qed.

Lemma rx_loop_rxq_from lines : forall w a,
  In a (rxq (_rx_loop lines w)) ->
  In a (rxq w) \/ exists raw, In raw lines /\ a = lower (strip raw).
Proof.
  induction lines as [|raw lines IH]; intros w a H; simpl in H; [auto|].
  apply IH in H. destruct H as [H | (r & Hr & Ha)].
  - apply rx_iter_rxq_from in H. destruct H as [H | H]; [auto|].
    right. exists raw. simpl. auto.
  - right. exists r. simpl. auto.
Qed.

(** A reply taken from an empty queue was read by the receiver during that
    very wait. *)
Lemma rxq_get_fresh ms w a w' :
  rxq w = [] -> rxq_get env ms w = (Some a, w') ->
  exists raw, In raw (env (tick w)) /\ a = lower (strip raw).
Proof.
  intros E H. apply rxq_get_cases in H.
  destruct H as [(b & q & E' & _) | [(_ & b & q & E' & H & _) | (_ & _ & H & _)]];
    try congruence.
  inversion H; subst b.
  assert (In a (rxq (suspend env ms w))) as Hin by (rewrite E'; left; reflexivity).
  unfold suspend, advance in Hin. cbn [rxq] in Hin.
  apply rx_loop_rxq_from in Hin. rewrite E in Hin.
  destruct Hin as [[] | Hin]. exact Hin.
Qed.

Lemma wait_ack_iter_fresh deadline : forall n w a w',
  rxq w = [] ->
  Loop.iter (ack_cond deadline) (rxq_get env 250) n w = (Some a, w') ->
  exists k raw, (tick w <= k)%nat /\ In raw (env k) /\ a = lower (strip raw).
Proof.
  induction n as [|n IH]; intros w a w' E H; simpl in H; [discriminate|].
  destruct (ack_cond deadline w); [|discriminate].
  destruct (rxq_get env 250 w) as [[b|] w1] eqn:Hg.
  - inversion H; subst. destruct (rxq_get_fresh _ _ _ _ E Hg) as (raw & Hr & Ha).
    exists (tick w), raw. auto.
  - apply rxq_get_none in Hg. destruct Hg as (_ & _ & _ & Ht & E1).
    destruct (IH _ _ _ E1 H) as (k & raw & Hk & Hr & Ha).
    exists k, raw. split; [lia | auto].
Qed.

Lemma wait_ack_fresh timeout_s w a w' :
  rxq w = [] -> wait_ack env timeout_s w = (Some a, w') ->
  exists k raw, (tick w <= k)%nat /\ In raw (env k) /\ a = lower (strip raw).
Proof. unfold wait_ack, Loop.while_. apply wait_ack_iter_fresh. Qed.

(** *** The confirmation cycle of [wait_until_idle] *)

(** What follows an observation of [Idle]: a poll interval, a status
    request, a 20 ms pause; the state is read again after it. *)
Definition confirm (w : World) : World :=
  sleep env 20 (request_status (sleep env POLL_INTERVAL_S w)).

Lemma idle_body_true w w' :
  idle_body env w = (Some true, w') ->
  is_idle w = true /\ w' = confirm w /\ is_idle w' = true.
Proof.
  unfold idle_body, confirm. destruct (is_idle w) eqn:E1; [|discriminate].
  destruct (is_idle (sleep env 20 _)) eqn:E2; [|discriminate].
  intros H; inversion H; subst. auto.
Qed.

Lemma idle_body_some w b w' : idle_body env w = (Some b, w') -> b = true.
Proof.
  unfold idle_body. destruct (is_idle w); [|discriminate].
  destruct (is_idle (sleep env 20 _)); [|discriminate].
  intros H; inversion H; reflexivity.
Qed.

(** *** A timeout is reported only once the time is up *)

Lemma wait_ack_none timeout_s w w' :
  wait_ack env timeout_s w = (None, w') -> now w + timeout_s <= now w'.
Proof.
  unfold wait_ack. intros H.
  apply (Loop.while_none_exits _ _ _ (ack_fuel_decreases (now w + timeout_s))) in H.
  unfold ack_cond in H. apply Z.ltb_ge in H. exact H.
Qed.

Lemma wait_until_idle_false timeout_s w w' :
  wait_until_idle env timeout_s w = (false, w') -> now w + timeout_s <= now w'.
Proof.
  unfold wait_until_idle.
  set (w0 := sleep env POLL_INTERVAL_S (request_status w)).
  destruct (Loop.while_ (idle_cond (now w) timeout_s) (idle_body env)
              (idle_fuel (now w) timeout_s) w0) as [[b|] w1] eqn:E; intros H.
  - inversion H; subst. unfold Loop.while_ in E.
    apply (Loop.iter_some _ _ (fun _ _ => True)) in E; auto.
    destruct E as (w2 & _ & _ & Hb). apply idle_body_some in Hb. discriminate.
  - inversion H; subst.
    apply (Loop.while_none_exits _ _ _
             (fun s s' Hc Hb => idle_fuel_step _ _ s s' Hc (idle_body_none s s' Hb))) in E.
    unfold idle_cond in E. apply Z.ltb_ge in E. cbn [now emit]. lia.
Qed.

Lemma wait_until_idle_true timeout_s w w' :
  wait_until_idle env timeout_s w = (true, w') ->
  exists w1, later (sleep env POLL_INTERVAL_S (request_status w)) w1 /\
             is_idle w1 = true /\ w' = confirm w1 /\ is_idle w' = true.
Proof.
  unfold wait_until_idle, Loop.while_.
  match goal with |- context [Loop.iter ?c ?b ?n ?x] =>
    destruct (Loop.iter c b n x) as [[b0|] w1] eqn:E
  end; [|discriminate].
  intros H; inversion H; subst; clear H.
  apply (Loop.iter_some _ _ later) in E.
  - destruct E as (s1 & Hl & _ & Hb). apply idle_body_true in Hb.
    exists s1. tauto.
  - apply later_refl.
  - intros; eapply later_trans; eauto.
  - intros s s' _ Hb. pose proof (later_idle_body s) as Hl. rewrite Hb in Hl. exact Hl.
Qed.

(** *** Commands in flight

    A command is in flight from the write of its line until a reply is taken
    from the queue or its wait runs out; the status query has no reply.  A
    write made while a command is in flight is a pipelined one. *)

Inductive Flight : Type := Clear | Awaiting | Piped.

Definition is_status_query (bytes : string) : bool := String.eqb bytes "?".

Definition flight_step (f : Flight) (e : Event) : Flight :=
  match f, e with
  | Piped, _ => Piped
  | Clear, Wrote b => if is_status_query b then Clear else Awaiting
  | Awaiting, Wrote b => if is_status_query b then Awaiting else Piped
  | Awaiting, Got _ => Clear
  | Awaiting, Printed (MNoReply _) => Clear
  | f, _ => f
  end.

Definition flights (from : Flight) (evs : list Event) : Flight :=
  fold_left flight_step evs from.

(** The commands written, status queries apart, and the replies taken. *)
Definition is_exchange (e : Event) : bool :=
  match e with
  | Wrote b => negb (is_status_query b)
  | Got _ => true
  | _ => false
  end.

Lemma flights_app from evs1 evs2 :
  flights from (evs1 ++ evs2) = flights (flights from evs1) evs2.
Proof. unfold flights. apply fold_left_app. Qed.

Lemma flights_piped evs : flights Piped evs = Piped.
Proof. induction evs as [|e evs IH]; simpl; auto. Qed.

(** No prefix of a run that ends clear has a pipelined write. *)
Lemma flights_never_piped evs :
  flights Clear evs = Clear ->
  forall pre post, evs = pre ++ post -> flights Clear pre <> Piped.
Proof.
  intros H pre post -> E. rewrite flights_app, E, flights_piped in H. discriminate.
Qed.

Lemma terminated_not_query s : is_status_query (terminated s) = false.
Proof.
  unfold is_status_query, terminated.
  destruct (endswith s NL) eqn:E.
  - apply String.eqb_neq. intros ->. vm_compute in E. discriminate.
  - apply String.eqb_neq. intros H.
    destruct s as [|c s]; [vm_compute in H; discriminate|].
    destruct s as [|c' s]; simpl in H; [|discriminate].
    inversion H.
Qed.

Lemma flights_awaiting_empty k : flights Awaiting (repeat Empty k) = Awaiting.
Proof. induction k; simpl; auto. Qed.

Lemma send_gcode_loop_flights gcode retries t : forall n attempt ack w,
  exists evs,
    trace (snd (send_gcode_loop env n attempt retries gcode t ack w)) = trace w ++ evs /\
    flights Clear evs = Clear.
Proof.
  induction n as [|n IH]; intros attempt ack w; cbn [send_gcode_loop].
  - exists []. destruct ack; simpl; rewrite app_nil_r; auto.
  - destruct (wait_ack env t
                (send_line gcode (emit (Printed (MTry gcode attempt retries)) w)))
      as [r w1] eqn:Hw.
    destruct (wait_ack_shape _ _ _ _ Hw) as (k0 & Hk0).
    autorewrite with world in Hk0.
    assert (Hpre : forall r0, flights Clear
              ([Printed (MTry gcode attempt retries); Wrote (terminated gcode)]
                 ++ repeat Empty k0 ++ r0) = flights Awaiting r0).
    { intros r0. rewrite flights_app. simpl. rewrite terminated_not_query.
      rewrite flights_app, flights_awaiting_empty. reflexivity. }
    destruct r as [a|].
    + destruct (startswith a "ok").
      * exists ([Printed (MTry gcode attempt retries); Wrote (terminated gcode)]
                  ++ repeat Empty k0 ++ [Got a]).
        split; [|rewrite Hpre; reflexivity].
        simpl. rewrite Hk0. unfold ack_events. rewrite <- !app_assoc. reflexivity.
      * match goal with |- context [send_gcode_loop env n ?i retries gcode t ?k ?x] =>
          destruct (IH i k x) as (evs & Htr & Hfl)
        end.
        exists (([Printed (MTry gcode attempt retries); Wrote (terminated gcode)]
                   ++ repeat Empty k0
                   ++ [Got a; Printed (MFw a gcode)]
                   ++ (if attempt <? retries then [Slept 200] else [])) ++ evs).
        split.
        { rewrite Htr. destruct (attempt <? retries); autorewrite with world;
            rewrite Hk0; unfold ack_events; rewrite <- !app_assoc; reflexivity. }
        { rewrite flights_app, Hpre.
          destruct (attempt <? retries); simpl; exact Hfl. }
    + match goal with |- context [send_gcode_loop env n ?i retries gcode t ?k ?x] =>
        destruct (IH i k x) as (evs & Htr & Hfl)
      end.
      exists (([Printed (MTry gcode attempt retries); Wrote (terminated gcode)]
                 ++ repeat Empty k0 ++ [Printed (MNoReply gcode)]) ++ evs).
      split.
      { rewrite Htr. autorewrite with world. rewrite Hk0. unfold ack_events.
        rewrite app_nil_r. rewrite <- !app_assoc. reflexivity. }
      { rewrite flights_app, Hpre. simpl. exact Hfl. }
Qed.

(** *** The commands of the macro in a trace

    A step command is a homing command ([$H...]) or a rapid move ([g0 ...]);
    status queries and unlocks are not. *)

Definition is_step_cmd (bytes : string) : bool :=
  startswith bytes "$H" || startswith (lower bytes) "g0 ".

Definition step_cmds (evs : list Event) : list string :=
  filter is_step_cmd (writes evs).

(** [w'] is [w] after events whose step commands are [k] writes of [c]. *)
Definition runs (c : string) (k : nat) (w w' : World) : Prop :=
  exists evs, trace w' = trace w ++ evs /\ step_cmds evs = repeat c k.

Lemma step_cmds_app evs1 evs2 : step_cmds (evs1 ++ evs2) = step_cmds evs1 ++ step_cmds evs2.
Proof. unfold step_cmds. rewrite writes_app, filter_app. reflexivity. Qed.

Lemma runs_refl c w : runs c 0 w w.
Proof. exists []. rewrite app_nil_r. auto. Qed.

Lemma runs_trans c k1 k2 w1 w2 w3 :
  runs c k1 w1 w2 -> runs c k2 w2 w3 -> runs c (k1 + k2) w1 w3.
Proof.
  intros (e1 & E1 & F1) (e2 & E2 & F2). exists (e1 ++ e2).
  rewrite E2, E1, app_assoc, step_cmds_app, F1, F2, repeat_app. auto.
Qed.

Lemma runs_quiet_then c k w1 w2 w3 : runs c 0 w1 w2 -> runs c k w2 w3 -> runs c k w1 w3.
Proof. intros H1 H2. apply (runs_trans _ _ _ _ _ _ H1 H2). Qed.

Lemma runs_then_quiet c k w1 w2 w3 : runs c k w1 w2 -> runs c 0 w2 w3 -> runs c k w1 w3.
Proof. intros H1 H2. rewrite <- (Nat.add_0_r k). apply (runs_trans _ _ _ _ _ _ H1 H2). Qed.

Lemma runs_any c c' w w' : runs c 0 w w' -> runs c' 0 w w'.
Proof. intros (evs & E & F). exists evs. auto. Qed.

Lemma quiet_emit c e w :
  match e with Wrote b => is_step_cmd b = false | _ => True end ->
  runs c 0 w (emit e w).
Proof.
  intros H. exists [e]. split; [reflexivity|].
  destruct e; try reflexivity. unfold step_cmds. simpl. rewrite H. reflexivity.
Qed.

Lemma quiet_same_trace c w w' : trace w' = trace w -> runs c 0 w w'.
Proof. intros H. exists []. rewrite app_nil_r. auto. Qed.

Lemma quiet_sleep c ms w : runs c 0 w (sleep env ms w).
Proof. exists [Slept ms]. rewrite trace_sleep. auto. Qed.

Lemma quiet_request_status c w : runs c 0 w (request_status w).
Proof. apply quiet_emit. reflexivity. Qed.

Lemma quiet_rxq_get c ms w r w' : rxq_get env ms w = (r, w') -> runs c 0 w w'.
Proof.
  intros H. apply rxq_get_cases in H.
  destruct H as [(a & q & _ & _ & ->) | [(_ & a & q & _ & _ & ->) | (_ & _ & _ & ->)]].
  - exists [Got a]. auto.
  - exists [Got a]. autorewrite with world. auto.
  - exists [Empty]. autorewrite with world. auto.
Qed.

Lemma quiet_iter {St A} c (proj : St -> World) cond (body : St -> option A * St) :
  (forall s r s', body s = (r, s') -> runs c 0 (proj s) (proj s')) ->
  forall n s, runs c 0 (proj s) (proj (snd (Loop.iter cond body n s))).
Proof.
  intros Hbody n s.
  destruct (Loop.iter cond body n s) as [r s'] eqn:E.
  eapply (Loop.iter_preserves cond body (fun a b => runs c 0 (proj a) (proj b))); eauto.
  - intros. apply runs_refl.
  - intros. eapply runs_quiet_then; eauto.
Qed.

Lemma quiet_wait_ack c t w : runs c 0 w (snd (wait_ack env t w)).
Proof.
  unfold wait_ack, Loop.while_. apply (quiet_iter c (fun w => w)).
  intros s r s'. apply quiet_rxq_get.
Qed.

Lemma quiet_idle_body c w : runs c 0 w (snd (idle_body env w)).
Proof.
  unfold idle_body. destruct (is_idle w).
  - destruct (is_idle (sleep env 20 _)); cbn [snd];
      (eapply runs_quiet_then; [apply quiet_sleep|];
       eapply runs_quiet_then; [apply quiet_request_status | apply quiet_sleep]).
  - cbn [snd]. eapply runs_quiet_then; [apply quiet_sleep | apply quiet_request_status].
Qed.

Lemma quiet_wait_until_idle c t w : runs c 0 w (snd (wait_until_idle env t w)).
Proof.
  unfold wait_until_idle, Loop.while_.
  match goal with |- context [Loop.iter ?cd ?b ?n ?x] =>
    assert (Hl : runs c 0 x (snd (Loop.iter cd b n x)))
  end.
  { apply (quiet_iter c (fun w => w)). intros s r s' E.
    pose proof (quiet_idle_body c s) as H. rewrite E in H. exact H. }
  match goal with |- context [Loop.iter ?cd ?b ?n ?x] =>
    destruct (Loop.iter cd b n x) as [[b0|] w1]
  end; cbn [snd] in *.
  - eapply runs_quiet_then; [apply quiet_request_status|].
    eapply runs_quiet_then; [apply quiet_sleep | exact Hl].
  - eapply runs_quiet_then; [apply quiet_request_status|].
    eapply runs_quiet_then; [apply quiet_sleep|].
    eapply runs_quiet_then; [exact Hl | apply quiet_emit; exact I].
Qed.

Lemma quiet_wait_motion_complete c t1 t2 w :
  runs c 0 w (snd (wait_motion_complete env t1 t2 w)).
Proof.
  unfold wait_motion_complete, Loop.while_.
  eapply runs_quiet_then; [apply quiet_request_status|].
  eapply runs_quiet_then; [|apply quiet_wait_until_idle].
  apply (quiet_iter c (fun w => w)). intros s r s' E.
  unfold leave_idle_body in E. destruct (negb (is_idle s)); inversion E; subst.
  - apply runs_refl.
  - eapply runs_quiet_then; [apply quiet_sleep | apply quiet_request_status].
Qed.

Lemma quiet_unlock_after_alarm c w : runs c 0 w (unlock_after_alarm env w).
Proof.
  unfold unlock_after_alarm, Loop.while_.
  eapply runs_quiet_then;
    [apply (quiet_emit c (Wrote (terminated "$X")) w); reflexivity|].
  change (emit (Wrote (terminated "$X")) w) with (send_line "$X" w).
  eapply runs_quiet_then; [apply quiet_sleep|].
  apply (quiet_iter c (fun w => w)). intros s r s' E.
  unfold drain_body, rxq_get_nowait in E.
  destruct (rxq s) as [|a q]; inversion E; subst.
  - apply quiet_emit. exact I.
  - exists [Got a]. auto.
Qed.

Lemma filter_repeat_true (f : string -> bool) c k :
  f c = true -> filter f (repeat c k) = repeat c k.
Proof. intros H. induction k; simpl; [reflexivity|]. rewrite H, IHk. reflexivity. Qed.

(** [send_gcode] with [retries = 1] writes its command exactly once. *)
Lemma send_gcode_once gcode t w :
  is_step_cmd (terminated gcode) = true ->
  exists ok last w',
    send_gcode env gcode 1 t w = (Ret (ok, last), w') /\
    runs (terminated gcode) 1 w w'.
Proof.
  intros Hc. unfold send_gcode.
  destruct (send_gcode_loop_spec gcode 1 t (Z.to_nat 1) 1 None w)
    as (ok & last & w' & evs & k & Hrun & Htr & Hwr & Hle & Hge & _);
    [reflexivity | intros E; discriminate |].
  exists ok, last, w'. split; [exact Hrun|].
  exists evs. split; [exact Htr|].
  unfold step_cmds. rewrite Hwr, filter_repeat_true by exact Hc.
  assert (k = 1%nat) as -> by (specialize (Hge ltac:(simpl; lia)); simpl in Hle; lia).
  reflexivity.
Qed.

End Sender.

#[export] Hint Rewrite trace_suspend now_suspend tick_suspend stop_suspend
  trace_sleep now_sleep tick_sleep stop_sleep
  trace_request_status now_request_status tick_request_status stop_request_status
  rxq_request_status last_state_request_status
  trace_send_line now_send_line tick_send_line stop_send_line rxq_send_line : world.

(** *** What the reply queue holds *)

Lemma lower_char_idem c : lower_char (lower_char c) = lower_char c.
Proof. destruct c as [[] [] [] [] [] [] [] []]; reflexivity. Qed.

Lemma lower_idem s : lower (lower s) = lower s.
Proof.
  induction s as [|c s IH]; cbn [lower]; [reflexivity|].
  rewrite lower_char_idem, IH. reflexivity.
Qed.

(** A classified reply: lowercase, and beginning with [ok], [error] or
    [alarm]. *)
Definition ack_line (a : string) : Prop := is_ack a = true /\ lower a = a.

Definition acks_only (w : World) : Prop := Forall ack_line (rxq w).

Lemma ack_line_truthy a : ack_line a -> truthy a = true.
Proof. intros [H _]. destruct a; [discriminate | reflexivity]. Qed.

Lemma acks_only_rx_iter raw w : acks_only w -> acks_only (rx_iter raw w).
Proof.
  unfold acks_only, rx_iter. intros H.
  destruct (stop w); [exact H|].
  destruct (negb (truthy raw)); [exact H|].
  destruct (is_ack (lower (strip raw))) eqn:E.
  - unfold rxq_put.
    destruct (Z.of_nat _ <? RXQ_MAXSIZE);
      cbn [rxq set_rxq rx_print]; rewrite rxq_track_state; cbn [rxq rx_print].
    + apply Forall_app. split; [exact H|].
      constructor; [|constructor]. split; [exact E | apply lower_idem].
    + exact H.
  - rewrite rxq_track_state. exact H.
Qed.

Lemma acks_only_rx_loop lines : forall w, acks_only w -> acks_only (_rx_loop lines w).
Proof.
  induction lines as [|raw lines IH]; intros w H; [exact H|].
  apply (IH (rx_iter raw w)). apply acks_only_rx_iter. exact H.
Qed.

Section Acks.

Variable env : nat -> list string.

Lemma acks_only_suspend ms w : acks_only w -> acks_only (suspend env ms w).
Proof. intros H. unfold suspend, acks_only, advance. cbn [rxq]. apply acks_only_rx_loop, H. Qed.

Lemma acks_only_sleep ms w : acks_only w -> acks_only (sleep env ms w).
Proof. intros H. unfold sleep. apply acks_only_suspend. exact H. Qed.

Lemma acks_only_rxq_get ms w r w' :
  acks_only w -> rxq_get env ms w = (r, w') ->
  acks_only w' /\ (forall a, r = Some a -> ack_line a).
Proof.
  intros H Hg. apply rxq_get_cases in Hg.
  destruct Hg as [(a & q & E & -> & ->) | [(E & a & q & E2 & -> & ->) | (E & E2 & -> & ->)]].
  - unfold acks_only in *. rewrite E in H. inversion H; subst.
    split; [exact H3|]. intros b Hb. inversion Hb; subst. exact H2.
  - pose proof (acks_only_suspend ms w H) as H2. unfold acks_only in *.
    rewrite E2 in H2. inversion H2; subst.
    split; [exact H4|]. intros b Hb. inversion Hb; subst. exact H3.
  - split; [|discriminate]. apply (acks_only_suspend ms w H).
Qed.

(** [wait_ack] hands over classified replies only, and leaves only such in
    the queue. *)
Lemma acks_only_wait_ack timeout_s w r w' :
  acks_only w -> wait_ack env timeout_s w = (r, w') ->
  acks_only w' /\ (forall a, r = Some a -> ack_line a).
Proof.
  unfold wait_ack, Loop.while_. intros H Hw. split.
  - revert H. eapply Loop.iter_none_preserves; [|exact Hw].
    intros s r0 s' _ Hb Hs. eapply acks_only_rxq_get; eauto.
  - intros a ->.
    apply (Loop.iter_some _ _ (fun s s' => acks_only s -> acks_only s')) in Hw; auto.
    + destruct Hw as (s1 & HR & _ & Hb).
      eapply (acks_only_rxq_get 250 s1); eauto.
    + intros s s' _ Hb Hs. eapply acks_only_rxq_get; eauto.
Qed.

(** The outcome of [send_gcode]: an ok reply on success; on failure the word
    ["timeout"] or a classified reply that is not an ok. *)
Lemma send_gcode_loop_reply gcode retries t : forall n attempt ack w ok last w',
  acks_only w ->
  (forall a, ack = Some (Some a) -> ack_line a /\ startswith a "ok" = false) ->
  send_gcode_loop env n attempt retries gcode t ack w = (Ret (ok, last), w') ->
  acks_only w' /\
  (ok = true -> ack_line last /\ startswith last "ok" = true) /\
  (ok = false -> last = "timeout" \/ (ack_line last /\ startswith last "ok" = false)).
Proof.
  induction n as [|n IH]; intros attempt ack w ok last w' H Hack Hrun;
    cbn [send_gcode_loop] in Hrun.
  - destruct ack as [[a|]|]; inversion Hrun; subst; clear Hrun.
    + destruct (Hack a eq_refl) as (Ha & Hno).
      cbn [ack_or_timeout]. rewrite (ack_line_truthy a Ha).
      split; [exact H|]. split; [discriminate | auto].
    + split; [exact H|]. split; [discriminate | auto].
  - destruct (wait_ack env t (send_line gcode (emit (Printed (MTry gcode attempt retries)) w)))
      as [r w1] eqn:Hw.
    apply acks_only_wait_ack in Hw; [|exact H]. destruct Hw as (H1 & Hr).
    destruct r as [a|].
    + specialize (Hr a eq_refl). destruct (startswith a "ok") eqn:Hok.
      * inversion Hrun; subst. split; [exact H1|]. split; [auto | discriminate].
      * eapply IH; [| |exact Hrun].
        -- destruct (attempt <? retries); [apply acks_only_sleep|]; exact H1.
        -- intros b Hb. inversion Hb; subst. auto.
    + eapply IH; [| |exact Hrun]; [exact H1 | intros b Hb; discriminate].
Qed.

End Acks.

End CommonFacts.

(** ** The sender loops *)

Module SenderLoopFacts.

Import Py Common CommonFacts.
Open Scope string_scope.
Open Scope Z_scope.
Open Scope list_scope.

(** The queue item of a plain line that the producer puts after [fst c]
    empty polls of the sender. *)
Definition gcode_item (c : nat * string) : nat * Item := (fst c, IGcode (snd c)).

(** What the sender loop adds to the trace for one line of the queue: the line
    written between one and [retries] times and nothing else written; an ok
    reply taken from the queue, or all [retries] attempts used; and every write
    made with no command in flight. *)
Definition served (retries : Z) (line : string) (block : list Event) : Prop :=
  exists n,
    writes block = repeat (terminated line) n /\
    (1 <= n)%nat /\ Z.of_nat n <= retries /\
    ((exists a, In (Got a) block /\ ok_reply a = true) \/ Z.of_nat n = retries) /\
    flights Clear block = Clear.

Section Sender.

Variable env : nat -> list string.

Lemma poll_empty_running : forall d w,
  stop w = false ->
  exists w1, poll_empty env d w = (false, w1) /\ trace w1 = trace w /\ stop w1 = false.
Proof.
  induction d as [|d IH]; intros w Hs; cbn [poll_empty].
  - exists w. auto.
  - rewrite stop_suspend, Hs.
    destruct (IH (suspend env 100 w)) as (w1 & H1 & H2 & H3).
    { rewrite stop_suspend. exact Hs. }
    exists w1. rewrite H1, H2, trace_suspend. auto.
Qed.

(** One line of the queue, as [_sender_loop] serves it. *)
Lemma gcode_served line retries ack_timeout w :
  1 <= retries ->
  exists ok ack w1 block,
    send_gcode env line retries ack_timeout w = (Ret (ok, ack), w1) /\
    trace (if ok then w1 else emit (Printed (MGiveUp line ack)) w1) = trace w ++ block /\
    stop w1 = stop w /\
    served retries line block.
Proof.
  intros Hr. unfold send_gcode.
  destruct (send_gcode_loop_spec env line retries ack_timeout (Z.to_nat retries) 1 None w)
    as (ok & last & w1 & evs & k & Hrun & Htr & Hwr & Hle & Hge & Hfail & Hok & Hno);
    [lia | intros E; lia |].
  destruct (send_gcode_loop_flights env line retries ack_timeout (Z.to_nat retries) 1 None w)
    as (evs' & Htr' & Hfl).
  rewrite Hrun in Htr'. simpl in Htr'.
  assert (evs' = evs) as -> by (apply app_inv_head with (l := trace w); congruence).
  pose proof (later_send_gcode_loop env line retries ack_timeout
                (Z.to_nat retries) 1 None w) as (Hstop & _).
  rewrite Hrun in Hstop. simpl in Hstop.
  exists ok, last, w1, (evs ++ if ok then [] else [Printed (MGiveUp line last)]).
  split; [exact Hrun|]. split.
  { destruct ok; autorewrite with world; rewrite Htr, <- ?app_assoc, ?app_nil_r;
      reflexivity. }
  split; [exact Hstop|].
  exists k. split.
  { rewrite writes_app, Hwr. destruct ok; simpl; rewrite app_nil_r; reflexivity. }
  split; [apply Hge; lia|]. split; [lia|]. split.
  - destruct ok.
    + left. destruct (Hok eq_refl) as (Hl & evs0 & -> & _).
      exists last. split; [|exact Hl].
      rewrite app_nil_r. apply in_or_app. right. left. reflexivity.
    + right. specialize (Hfail eq_refl). lia.
  - rewrite flights_app, Hfl. destruct ok; reflexivity.
Qed.

Lemma served_blocks_clear retries : forall lines blocks,
  Forall2 (served retries) lines blocks -> flights Clear (List.concat blocks) = Clear.
Proof.
  induction 1 as [|line block lines blocks Hs _ IH]; simpl; [reflexivity|].
  destruct Hs as (n & _ & _ & _ & _ & Hfl).
  rewrite flights_app, Hfl. exact IH.
Qed.

Lemma home_sender_loop_gcodes homing_retries ack_timeout line_retries d rest :
  1 <= line_retries ->
  forall cmds w,
  stop w = false ->
  exists w' blocks,
    Home._sender_loop env homing_retries ack_timeout line_retries
      (map gcode_item cmds ++ (d, IEof) :: rest) w = (ExitEof, rest, w') /\
    trace w' = trace w ++ List.concat blocks /\
    Forall2 (served line_retries) (map snd cmds) blocks.
Proof.
  intros Hr. induction cmds as [|[d0 line] cmds IH]; intros w Hs.
  - cbn [map app Home._sender_loop].
    destruct (poll_empty_running d w Hs) as (w1 & -> & Ht & _).
    exists w1, []. simpl. rewrite app_nil_r. auto.
  - cbn [map app gcode_item fst snd Home._sender_loop].
    destruct (poll_empty_running d0 w Hs) as (w1 & -> & Ht & Hs1).
    cbn beta iota.
    destruct (gcode_served line line_retries ack_timeout w1 Hr)
      as (ok & ack & w2 & block & Hrun & Htr & Hs2 & Hserved).
    rewrite Hrun.
    destruct (IH (if ok then w2 else emit (Printed (MGiveUp line ack)) w2))
      as (w' & blocks & Hloop & Htr' & Hall).
    { destruct ok; autorewrite with world; congruence. }
    exists w', (block :: blocks).
    split; [exact Hloop|]. split.
    + rewrite Htr', Htr, Ht. simpl. rewrite app_assoc. reflexivity.
    + constructor; assumption.
Qed.

(** The writes of the served blocks are the lines in queue order, each as
    many times as it was tried. *)
Lemma served_blocks_writes retries : forall lines blocks,
  Forall2 (served retries) lines blocks ->
  exists counts,
    List.length counts = List.length lines /\
    Forall (fun n => (1 <= n)%nat /\ Z.of_nat n <= retries) counts /\
    writes (List.concat blocks) =
    flat_map (fun p => repeat (terminated (fst p)) (snd p)) (combine lines counts).
Proof.
  induction 1 as [|line block lines blocks Hs _ IH].
  - exists []. simpl. auto.
  - destruct IH as (counts & Hlen & Hall & Hw).
    destruct Hs as (n & Hwn & H1 & H2 & _).
    exists (n :: counts). simpl. split; [lia|]. split; [constructor; auto|].
    rewrite writes_app, Hwn, Hw. reflexivity.
Qed.

(** After a [%%HOME] that fails, either loop sets the stop signal and
    returns with the rest of the queue untouched. *)
Lemma home_sender_loop_abort homing_retries ack_timeout line_retries d rest w w1 w2 :
  poll_empty env d w = (false, w1) ->
  Home._perform_home_sequence env homing_retries (emit (Printed MHomeBegin) w1)
    = (Ret false, w2) ->
  Home._sender_loop env homing_retries ack_timeout line_retries ((d, IHome) :: rest) w
    = (ExitAbort, rest, set_stop (emit (Printed MHomeFailed) w2)).
Proof. intros H1 H2. cbn [Home._sender_loop]. rewrite H1, H2. reflexivity. Qed.

Lemma sender_sender_loop_abort homing_retries ack_timeout line_retries d rest w w1 w2 :
  poll_empty env d w = (false, w1) ->
  Sender._perform_home_sequence env homing_retries (emit (Printed MHomeBegin) w1)
    = (Ret false, w2) ->
  Sender._sender_loop env homing_retries ack_timeout line_retries ((d, IHome) :: rest) w
    = (ExitAbort, rest, set_stop (emit (Printed MHomeFailed) w2)).
Proof. intros H1 H2. cbn [Sender._sender_loop]. rewrite H1, H2. reflexivity. Qed.

(** *** The sender loop of [sender.py] *)

(** What a wait for motion adds to the trace: status queries, pauses, and the
    timeout notice. *)
Definition poll_ev (e : Event) : Prop :=
  match e with
  | Wrote b => b = "?"
  | Slept _ => True
  | Printed (MNotIdle _ _) => True
  | _ => False
  end.

(** [w'] is [w] with events added to the trace, all of them in [P]. *)
Definition adds (P : Event -> Prop) (w w' : World) : Prop :=
  exists evs, trace w' = trace w ++ evs /\ Forall P evs.

Lemma adds_refl P w : adds P w w.
Proof. exists []. rewrite app_nil_r. auto. Qed.

Lemma adds_trans P w1 w2 w3 : adds P w1 w2 -> adds P w2 w3 -> adds P w1 w3.
Proof.
  intros (e1 & E1 & F1) (e2 & E2 & F2). exists (e1 ++ e2).
  rewrite E2, E1, app_assoc. split; [reflexivity|]. apply Forall_app. auto.
Qed.

Lemma adds_sleep ms w : adds poll_ev w (sleep env ms w).
Proof. exists [Slept ms]. rewrite trace_sleep. split; [reflexivity|]. repeat constructor. Qed.

Lemma adds_request_status w : adds poll_ev w (request_status w).
Proof. exists [Wrote "?"]. split; [reflexivity|]. repeat constructor. Qed.

Lemma adds_iter {A} cond (body : World -> option A * World) :
  (forall s r s', body s = (r, s') -> adds poll_ev s s') ->
  forall n s, adds poll_ev s (snd (Loop.iter cond body n s)).
Proof.
  intros Hbody n s.
  destruct (Loop.iter cond body n s) as [r s'] eqn:E.
  eapply (Loop.iter_preserves cond body (adds poll_ev)); eauto.
  - intros. apply adds_refl.
  - intros. eapply adds_trans; eauto.
Qed.

Lemma adds_wait_until_idle t w : adds poll_ev w (snd (wait_until_idle env t w)).
Proof.
  unfold wait_until_idle, Loop.while_.
  set (w0 := sleep env POLL_INTERVAL_S (request_status w)).
  assert (H0 : adds poll_ev w w0).
  { eapply adds_trans; [apply adds_request_status | apply adds_sleep]. }
  assert (Hl : forall n, adds poll_ev w0 (snd (Loop.iter (idle_cond (now w) t) (idle_body env) n w0))).
  { intros n. apply adds_iter. intros s r s' E. unfold idle_body in E.
    destruct (is_idle s).
    - assert (s' = sleep env 20 (request_status (sleep env POLL_INTERVAL_S s))) as ->
        by (destruct (is_idle _); inversion E; auto).
      eapply adds_trans; [apply adds_sleep|].
      eapply adds_trans; [apply adds_request_status | apply adds_sleep].
    - inversion E; subst.
      eapply adds_trans; [apply adds_sleep | apply adds_request_status]. }
  specialize (Hl (S (idle_fuel (now w) t w0))).
  destruct (Loop.iter _ _ _ w0) as [[b|] w1]; cbn [snd] in *.
  - eapply adds_trans; eauto.
  - eapply adds_trans; [exact H0|]. eapply adds_trans; [exact Hl|].
    exists [Printed (MNotIdle (last_state w1) t)]. split; [reflexivity|].
    repeat constructor.
Qed.

Lemma adds_wait_motion_complete t1 t2 w :
  adds poll_ev w (snd (wait_motion_complete env t1 t2 w)).
Proof.
  unfold wait_motion_complete, Loop.while_.
  eapply adds_trans; [apply adds_request_status|].
  eapply adds_trans; [|apply adds_wait_until_idle].
  apply adds_iter. intros s r s' E.
  unfold leave_idle_body in E. destruct (negb (is_idle s)); inversion E; subst.
  - apply adds_refl.
  - eapply adds_trans; [apply adds_sleep | apply adds_request_status].
Qed.

Lemma poll_evs_flights evs f : Forall poll_ev evs -> flights f evs = f.
Proof.
  intros H. revert f. induction H as [|e evs He _ IH]; intros f; [reflexivity|].
  cbn [flights fold_left]. fold (flights (flight_step f e) evs). rewrite IH.
  destruct e as [b| | | |m]; cbn in He; try contradiction.
  - subst. destruct f; reflexivity.
  - destruct f; reflexivity.
  - destruct m; try contradiction. destruct f; reflexivity.
Qed.

Lemma poll_evs_writes evs : Forall poll_ev evs -> exists k, writes evs = repeat "?" k.
Proof.
  induction 1 as [|e evs He _ (k & IH)]; [exists 0%nat; reflexivity|].
  change (e :: evs) with ([e] ++ evs). rewrite writes_app, IH.
  destruct e as [b| | | |m]; cbn in He; try contradiction.
  - subst. exists (S k). reflexivity.
  - exists k. reflexivity.
  - exists k. reflexivity.
Qed.

Lemma sender_sender_loop_gcodes homing_retries ack_timeout line_retries d rest :
  1 <= line_retries ->
  forall cmds w,
  stop w = false ->
  exists w1 blocks,
    Sender._sender_loop env homing_retries ack_timeout line_retries
      (map gcode_item cmds ++ (d, IEof) :: rest) w
    = (ExitEof, rest, snd (wait_motion_complete env 1000 600000 w1)) /\
    trace w1 = trace w ++ List.concat blocks /\
    Forall2 (served line_retries) (map snd cmds) blocks.
Proof.
  intros Hr. induction cmds as [|[d0 line] cmds IH]; intros w Hs.
  - cbn [map app Sender._sender_loop].
    destruct (poll_empty_running d w Hs) as (w1 & -> & Ht & _).
    exists w1, []. cbn beta iota.
    destruct (wait_motion_complete env 1000 600000 w1) as [ok w2]. cbn [snd].
    simpl. rewrite app_nil_r. auto.
  - cbn [map app gcode_item fst snd Sender._sender_loop].
    destruct (poll_empty_running d0 w Hs) as (w1 & -> & Ht & Hs1).
    cbn beta iota.
    destruct (gcode_served line line_retries ack_timeout w1 Hr)
      as (ok & ack & w2 & block & Hrun & Htr & Hs2 & Hserved).
    rewrite Hrun.
    destruct (IH (if ok then w2 else emit (Printed (MGiveUp line ack)) w2))
      as (w' & blocks & Hloop & Htr' & Hall).
    { destruct ok; autorewrite with world; congruence. }
    exists w', (block :: blocks).
    split; [exact Hloop|]. split.
    + rewrite Htr', Htr, Ht. simpl. rewrite app_assoc. reflexivity.
    + constructor; assumption.
Qed.

End Sender.

End SenderLoopFacts.

(** ** Homing steps of [home.py] and [sender.py] *)

Module HomingFacts.

Import Py Common CommonFacts.
Open Scope string_scope.
Open Scope Z_scope.
Open Scope list_scope.

Lemma recoverable_iff alarm :
  recoverable alarm = true <-> alarm = Some 8 \/ alarm = Some 9.
Proof.
  unfold recoverable. destruct alarm as [c|].
  - rewrite orb_true_iff, !Z.eqb_eq. split.
    + intros [-> | ->]; auto.
    + intros [H | H]; inversion H; auto.
  - split; [discriminate | intros [H | H]; discriminate].
Qed.

(** A reply that is not an alarm line has no alarm code. *)
Lemma parse_alarm_code_error a :
  startswith a "error" = true -> parse_alarm_code a = None.
Proof.
  intros H. unfold startswith in H.
  destruct a as [|c a]; [discriminate|]. cbn [String.prefix] in H.
  destruct (ascii_dec "e" c) as [<-|]; [|discriminate].
  reflexivity.
Qed.

Section Sender.

Variable env : nat -> list string.

(** What follows a recoverable alarm: the notice, the unlock, a pause. *)
Definition unlocked (alarm : option Z) (i max_tries : Z) (w : World) : World :=
  sleep env 500
    (unlock_after_alarm env (emit (Printed (MHomingAlarm (code_of alarm) i max_tries)) w)).

Lemma sender_homing_try n i max_tries cmd t w ack w1 :
  send_gcode env cmd 1 t w = (Ret (false, ack), w1) ->
  Sender.homing_loop env (S n) i max_tries cmd t w =
  if recoverable (parse_alarm_code ack)
  then Sender.homing_loop env n (i + 1) max_tries cmd t
         (unlocked (parse_alarm_code ack) i max_tries w1)
  else (Ret false, emit (Printed (MNonRecoverable ack)) w1).
Proof. intros H. cbn [Sender.homing_loop]. rewrite H. reflexivity. Qed.

Lemma home_homing_try n i max_tries cmd t w a w1 :
  Home.homing_start env cmd i max_tries w = (false, Some a, w1) ->
  truthy a && (startswith a "alarm" || startswith a "error") = true ->
  Home.homing_loop env (S n) i max_tries cmd t w =
  if recoverable (parse_alarm_code a)
  then Home.homing_loop env n (i + 1) max_tries cmd t
         (unlocked (parse_alarm_code a) i max_tries w1)
  else (false, emit (Printed (MNonRecoverable a)) w1).
Proof.
  intros H Hf. cbn [Home.homing_loop]. rewrite H.
  unfold Home.is_fault. rewrite Hf. reflexivity.
Qed.

(** The macro stops at the first step that fails. *)
Lemma run_steps_abort homing homing_retries st todo w w1 :
  run_step env homing homing_retries st w = (Ret false, w1) ->
  run_steps env homing homing_retries (st :: todo) w
  = (Ret false, emit (Printed MSeqAborted) w1).
Proof. intros H. cbn [run_steps]. rewrite H. reflexivity. Qed.

Lemma run_steps_next homing homing_retries st todo w w1 :
  run_step env homing homing_retries st w = (Ret true, w1) ->
  run_steps env homing homing_retries (st :: todo) w
  = run_steps env homing homing_retries todo w1.
Proof. intros H. cbn [run_steps]. rewrite H. reflexivity. Qed.

(** *** The watch loop of [home.py] satisfies its own equation *)

Lemma rxq_suspend_length ms w :
  (List.length (rxq (suspend env ms w))
   <= List.length (rxq w) + List.length (env (tick w)))%nat.
Proof. unfold suspend, advance. cbn [rxq]. apply rx_loop_rxq_length. Qed.

(** A [get] leaves the queue, the clock and the count of suspensions in one
    of two ways: an entry taken at once, or a suspension of [ms]. *)
Lemma rxq_get_budget ms w r w' :
  rxq_get env ms w = (r, w') ->
  (now w' = now w /\ tick w' = tick w /\ S (List.length (rxq w')) = List.length (rxq w)) \/
  (now w' = now w + ms /\ tick w' = S (tick w) /\ rxq w = [] /\
   (List.length (rxq w') <= List.length (env (tick w)))%nat).
Proof.
  intros H. apply rxq_get_cases in H.
  destruct H as [(a & q & E & _ & ->) | [(E & a & q & E2 & _ & ->) | (E & E2 & _ & ->)]].
  - left. rewrite E. cbn. auto.
  - right. pose proof (rxq_suspend_length ms w) as L. rewrite E, E2 in L.
    cbn [now tick rxq emit set_rxq List.length] in *.
    rewrite now_suspend, tick_suspend. repeat split; auto. lia.
  - right. pose proof (rxq_suspend_length ms w) as L. rewrite E in L.
    cbn [now tick rxq emit] in *. rewrite now_suspend, tick_suspend, E2.
    repeat split; auto. cbn. lia.
Qed.

Lemma watch_body_budget s r s' :
  Home.watch_body env s = (r, s') ->
  (now (snd s') = now (snd s) /\ tick (snd s') = tick (snd s) /\
   S (List.length (rxq (snd s'))) = List.length (rxq (snd s))) \/
  (now (snd s') = now (snd s) + 200 /\ tick (snd s') = S (tick (snd s)) /\
   rxq (snd s) = [] /\
   (List.length (rxq (snd s')) <= List.length (env (tick (snd s))))%nat).
Proof.
  destruct s as [ack w]. unfold Home.watch_body, Home.watch_poll. cbn [snd].
  pose proof (rxq_get_budget 200 w) as Hg.
  destruct (rxq_get env 200 w) as [[a|] w1]; specialize (Hg _ _ eq_refl).
  - destruct (startswith a "ok"); [intros H; inversion H; subst; exact Hg|].
    destruct (startswith a "alarm" || startswith a "error");
      [intros H; inversion H; subst; exact Hg|].
    destruct (negb (is_idle (request_status w1))); intros H; inversion H; subst;
      exact Hg.
  - destruct (negb (is_idle (request_status w1))); intros H; inversion H; subst;
      exact Hg.
Qed.

Lemma watch_fuel_decreases start s s' :
  Home.watch_cond start s = true -> Home.watch_body env s = (None, s') ->
  (Home.watch_fuel env start s' < Home.watch_fuel env start s)%nat.
Proof.
  unfold Home.watch_cond, Home.watch_fuel. intros Hc Hb.
  apply Z.ltb_lt in Hc. unfold Home.LEAVE_IDLE_TIMEOUT in *.
  apply watch_body_budget in Hb.
  destruct Hb as [(Hn & Ht & Hq) | (Hn & Ht & Hq & Hl)]; rewrite Hn, Ht.
  - lia.
  - rewrite Hq. cbn [List.length].
    set (d := start + 3000 - now (snd s)) in *.
    assert (Hd : 0 < d) by (unfold d; lia).
    replace (start + 3000 - (now (snd s) + 200) + 199) with (d + 199 + (-1) * 200)
      by (unfold d; lia).
    rewrite Z.div_add by lia.
    assert (1 <= (d + 199) / 200).
    { apply Z.div_le_lower_bound; lia. }
    set (t := (d + 199) / 200) in *.
    replace (Z.to_nat t) with (S (Z.to_nat (t + -1))) by lia.
    cbn [Home.lines_in]. lia.
Qed.

Lemma watch_loop_unfold start s :
  Loop.while_ (Home.watch_cond start) (Home.watch_body env) (Home.watch_fuel env start) s =
  if Home.watch_cond start s then
    match Home.watch_body env s with
    | (Some b, s') => (Some b, s')
    | (None, s') =>
        Loop.while_ (Home.watch_cond start) (Home.watch_body env)
                    (Home.watch_fuel env start) s'
    end
  else (None, s).
Proof.
  apply Loop.while_unfold. intros a b. apply watch_fuel_decreases.
Qed.

(** *** The commands a homing step writes *)

Lemma quiet_watch_body c s : runs c 0 (snd s) (snd (snd (Home.watch_body env s))).
Proof.
  destruct s as [ack w]. unfold Home.watch_body, Home.watch_poll.
  pose proof (quiet_rxq_get env c 200 w) as Hg.
  destruct (rxq_get env 200 w) as [[a|] w1]; specialize (Hg _ _ eq_refl); cbn [snd].
  - destruct (startswith a "ok"); [exact Hg|].
    destruct (startswith a "alarm" || startswith a "error"); [exact Hg|].
    destruct (negb (is_idle (request_status w1))); cbn [snd];
      (eapply runs_then_quiet; [exact Hg | apply quiet_request_status]).
  - destruct (negb (is_idle (request_status w1))); cbn [snd];
      (eapply runs_then_quiet; [exact Hg | apply quiet_request_status]).
Qed.

Lemma home_homing_start_runs cmd i max_tries w :
  is_step_cmd (terminated cmd) = true ->
  runs (terminated cmd) 1 w (snd (Home.homing_start env cmd i max_tries w)).
Proof.
  intros Hc. unfold Home.homing_start, Loop.while_.
  set (w0 := send_line cmd (emit (Printed (MHomingTry cmd i max_tries)) w)).
  assert (H0 : runs (terminated cmd) 1 w w0).
  { exists [Printed (MHomingTry cmd i max_tries); Wrote (terminated cmd)].
    unfold w0. autorewrite with world. rewrite <- app_assoc.
    split; [reflexivity|]. unfold step_cmds. simpl. rewrite Hc. reflexivity. }
  match goal with |- context [Loop.iter ?cd ?b ?n ?x] =>
    pose proof (quiet_iter (terminated cmd) (fun s => snd s) cd b
                  (fun s r s' E => eq_ind _ (fun p => runs (terminated cmd) 0 (snd s) (snd (snd p)))
                                     (quiet_watch_body (terminated cmd) s) _ E) n x) as Hq;
    destruct (Loop.iter cd b n x) as [r [ack w1]]
  end.
  cbn [snd] in *. eapply runs_then_quiet; eauto.
Qed.






(** *** The commands of the macro, in order *)













(** *** How often a homing step writes its command *)

Lemma home_homing_loop_tries cmd max_tries t :
  is_step_cmd (terminated cmd) = true ->
  forall n i w,
  exists k,
    runs (terminated cmd) k w (snd (Home.homing_loop env n i max_tries cmd t w)) /\
    (k <= n)%nat /\
    (fst (Home.homing_loop env n i max_tries cmd t w) = true -> (1 <= k)%nat).
Proof.
  intros Hc. induction n as [|n IH]; intros i w; cbn [Home.homing_loop].
  - exists 0%nat. cbn [fst snd].
    split; [apply quiet_emit; exact I|]. split; [lia | discriminate].
  - pose proof (home_homing_start_runs cmd i max_tries w Hc) as Hs.
    destruct (Home.homing_start env cmd i max_tries w) as [[started ack] w1].
    cbn [snd] in Hs.
    assert (Hretry : forall w2, runs (terminated cmd) 0 w1 w2 -> exists k,
              runs (terminated cmd) k w
                (snd (Home.homing_loop env n (i + 1) max_tries cmd t w2))
              /\ (k <= S n)%nat
              /\ (fst (Home.homing_loop env n (i + 1) max_tries cmd t w2)
                  = true -> (1 <= k)%nat)).
    { intros w2 Hq. destruct (IH (i + 1) w2) as (k & Hk & Hb & _).
      exists (1 + k)%nat. split; [|split; [lia | intros _; lia]].
      eapply runs_trans; [|exact Hk]. eapply runs_then_quiet; eauto. }
    assert (Hunlock : forall m, runs (terminated cmd) 0 w1
              (sleep env 500 (unlock_after_alarm env (emit (Printed m) w1)))).
    { intros m. eapply runs_then_quiet; [|apply quiet_sleep].
      eapply runs_then_quiet; [|apply quiet_unlock_after_alarm].
      apply quiet_emit; exact I. }
    destruct (Home.is_fault ack && negb started).
    + destruct (recoverable _).
      * apply Hretry, Hunlock.
      * exists 1%nat. cbn [fst snd]. split; [|split; [lia | discriminate]].
        eapply runs_then_quiet; [exact Hs | apply quiet_emit; exact I].
    + destruct (negb started).
      * apply Hretry, Hunlock.
      * pose proof (quiet_wait_motion_complete env (terminated cmd) 2000
                      (Z.max t 300000) w1) as Hm.
        destruct (wait_motion_complete env 2000 (Z.max t 300000) w1) as [ok w2].
        cbn [snd] in Hm. destruct ok.
        -- exists 1%nat. cbn [fst snd]. split; [|split; [lia | intros _; lia]].
           eapply runs_then_quiet; eauto.
        -- apply Hretry. eapply runs_quiet_then; [exact Hm | apply quiet_emit; exact I].
Qed.

Lemma sender_homing_loop_tries cmd max_tries t :
  is_step_cmd (terminated cmd) = true ->
  forall n i w,
  exists k,
    runs (terminated cmd) k w (snd (Sender.homing_loop env n i max_tries cmd t w)) /\
    (k <= n)%nat /\
    (fst (Sender.homing_loop env n i max_tries cmd t w) = Ret true -> (1 <= k)%nat).
Proof.
  intros Hc. induction n as [|n IH]; intros i w; cbn [Sender.homing_loop].
  - exists 0%nat. cbn [fst snd].
    split; [apply quiet_emit; exact I|]. split; [lia | discriminate].
  - destruct (send_gcode_once env cmd t w Hc) as (ok & last & w1 & Hrun & Hs).
    rewrite Hrun. destruct ok.
    + exists 1%nat. cbn [fst snd]. split; [exact Hs|]. split; lia.
    + destruct (recoverable (parse_alarm_code last)).
      * match goal with |- context [Sender.homing_loop env n ?j max_tries cmd t ?x] =>
          destruct (IH j x) as (k & Hk & Hb & _)
        end.
        exists (1 + k)%nat. split; [|split; [lia | intros _; lia]].
        eapply runs_trans; [|exact Hk].
        eapply runs_then_quiet; [|apply quiet_sleep].
        eapply runs_then_quiet; [|apply quiet_unlock_after_alarm].
        eapply runs_then_quiet; [exact Hs | apply quiet_emit; exact I].
      * exists 1%nat. cbn [fst snd]. split; [|split; [lia | discriminate]].
        eapply runs_then_quiet; [exact Hs | apply quiet_emit; exact I].
Qed.

(** *** How long the waits take at most *)

Lemma wait_ack_within timeout_s w :
  0 <= timeout_s -> now (snd (wait_ack env timeout_s w)) < now w + timeout_s + 250.
Proof.
  intros Ht. unfold wait_ack, Loop.while_.
  destruct (Loop.iter _ _ _ w) as [r w'] eqn:E. cbn [snd].
  apply Loop.iter_exit in E. destruct E as [-> | (s1 & r1 & Hc & Hb)]; [lia|].
  unfold ack_cond in Hc. apply Z.ltb_lt in Hc.
  apply rxq_get_budget in Hb. destruct Hb as [(Hn & _) | (Hn & _)]; lia.
Qed.

Lemma idle_body_within w r w' :
  idle_body env w = (r, w') -> now w' <= now w + 270.
Proof.
  unfold idle_body, POLL_INTERVAL_S. destruct (is_idle w).
  - destruct (is_idle _); intros H; inversion H; subst; autorewrite with world; lia.
  - intros H; inversion H; subst; autorewrite with world; lia.
Qed.

Lemma wait_until_idle_within timeout_s w :
  0 <= timeout_s -> now (snd (wait_until_idle env timeout_s w)) < now w + timeout_s + 270.
Proof.
  intros Ht. unfold wait_until_idle, Loop.while_.
  set (w0 := sleep env POLL_INTERVAL_S (request_status w)).
  assert (H0 : now w0 = now w + 250) by (unfold w0; autorewrite with world; reflexivity).
  destruct (Loop.iter _ _ _ w0) as [r w'] eqn:E.
  apply Loop.iter_exit in E.
  assert (Hw' : now w' < now w + timeout_s + 270).
  { destruct E as [-> | (s1 & r1 & Hc & Hb)]; [lia|].
    unfold idle_cond in Hc. apply Z.ltb_lt in Hc.
    apply idle_body_within in Hb. lia. }
  destruct r as [b|]; cbn [snd now emit]; exact Hw'.
Qed.

Lemma wait_motion_complete_within t1 t2 w :
  0 <= t1 -> 0 <= t2 ->
  now (snd (wait_motion_complete env t1 t2 w)) < now w + t1 + t2 + 520.
Proof.
  intros H1 H2. unfold wait_motion_complete, Loop.while_.
  destruct (Loop.iter _ _ _ (request_status w)) as [r w1] eqn:E. cbn [snd].
  apply Loop.iter_exit in E.
  assert (Hw1 : now w1 < now w + t1 + 250).
  { destruct E as [-> | (s1 & r1 & Hc & Hb)]; [autorewrite with world; lia|].
    unfold idle_cond in Hc. apply Z.ltb_lt in Hc.
    unfold leave_idle_body, POLL_INTERVAL_S in Hb.
    destruct (negb (is_idle s1)); inversion Hb; subst; autorewrite with world; lia. }
  pose proof (wait_until_idle_within t2 w1 H2). lia.
Qed.

Lemma send_gcode_loop_within gcode retries t : forall n attempt ack w,
  0 <= t ->
  now (snd (send_gcode_loop env n attempt retries gcode t ack w))
  <= now w + Z.of_nat n * (t + 450).
Proof.
  induction n as [|n IH]; intros attempt ack w Ht; cbn [send_gcode_loop].
  - destruct ack; cbn [snd]; lia.
  - pose proof (wait_ack_within t
                  (send_line gcode (emit (Printed (MTry gcode attempt retries)) w)) Ht) as Hw.
    destruct (wait_ack env t _) as [[a|] w1]; cbn [snd] in Hw;
      autorewrite with world in Hw; cbn [now emit] in Hw.
    + destruct (startswith a "ok"); cbn [snd]; [nia|].
      match goal with |- context [send_gcode_loop env n ?j retries gcode t ?k ?x] =>
        pose proof (IH j k x Ht) as Hi;
        assert (Hx : now x <= now w1 + 200)
          by (destruct (attempt <? retries); autorewrite with world; cbn [now emit]; lia)
      end.
      nia.
    + match goal with |- context [send_gcode_loop env n ?j retries gcode t ?k ?x] =>
        pose proof (IH j k x Ht) as Hi
      end.
      cbn [now emit] in Hi. nia.
Qed.

(** *** Success leaves the controller [Idle] *)

Lemma wait_motion_complete_idle t1 t2 w w' :
  wait_motion_complete env t1 t2 w = (true, w') -> last_state w' = "Idle".
Proof.
  unfold wait_motion_complete. intros H. apply wait_until_idle_true in H.
  destruct H as (w1 & _ & _ & _ & H). apply String.eqb_eq. exact H.
Qed.

Lemma home_homing_loop_idle cmd max_tries t w' : forall n i w,
  Home.homing_loop env n i max_tries cmd t w = (true, w') -> last_state w' = "Idle".
Proof.
  induction n as [|n IH]; intros i w H; cbn [Home.homing_loop] in H; [discriminate|].
  destruct (Home.homing_start env cmd i max_tries w) as [[started ack] w1].
  destruct (Home.is_fault ack && negb started).
  - destruct (recoverable _); [eauto | discriminate].
  - destruct (negb started); [eauto|].
    destruct (wait_motion_complete env 2000 (Z.max t 300000) w1) as [[|] w2] eqn:E.
    + inversion H; subst. eapply wait_motion_complete_idle; eauto.
    + eauto.
Qed.

Lemma run_steps_true_app homing homing_retries before : forall rest w w',
  run_steps env homing homing_retries (before ++ rest) w = (Ret true, w') ->
  exists w1,
    run_steps env homing homing_retries before w = (Ret true, w1) /\
    run_steps env homing homing_retries rest w1 = (Ret true, w').
Proof.
  induction before as [|st before IH]; intros rest w w' H.
  - exists w. auto.
  - cbn [run_steps app] in *.
    destruct (run_step env homing homing_retries st w) as [[[|]|e] w2];
      [eauto | discriminate | discriminate].
Qed.

Lemma run_steps_idle homing homing_retries w w' :
  run_steps env homing homing_retries steps w = (Ret true, w') -> last_state w' = "Idle".
Proof.
  change steps with (removelast steps ++ [StepWait]).
  intros H. apply run_steps_true_app in H. destruct H as (w1 & _ & H).
  cbn [run_steps run_step] in H.
  destruct (wait_motion_complete env 2000 300000 w1) as [[|] w2] eqn:E;
    [|discriminate].
  inversion H; subst. eapply wait_motion_complete_idle; eauto.
Qed.

End Sender.

End HomingFacts.

(** ** [sending.py] *)

Module SendingFacts.

Import Py Sending.
Open Scope string_scope.
Open Scope Z_scope.
Open Scope list_scope.

(** The bytes written, in order. *)
Definition writes (evs : list Event) : list string :=
  flat_map (fun e => match e with Wrote b => [b] | _ => [] end) evs.

(** [w'] is [w] with events added to the trace, all of them in [P]. *)
Definition appends (P : Event -> Prop) (w w' : World) : Prop :=
  exists evs, trace w' = trace w ++ evs /\ Forall P evs.

Lemma appends_refl P w : appends P w w.
Proof. exists []. rewrite app_nil_r. auto. Qed.

Lemma appends_trans P w1 w2 w3 : appends P w1 w2 -> appends P w2 w3 -> appends P w1 w3.
Proof.
  intros (e1 & E1 & F1) (e2 & E2 & F2). exists (e1 ++ e2).
  rewrite E2, E1, app_assoc. split; [reflexivity|]. apply Forall_app. auto.
Qed.

Lemma appends_emit (P : Event -> Prop) e w : P e -> appends P w (emit e w).
Proof. intros H. exists [e]. split; [reflexivity|]. constructor; auto. Qed.

Lemma appends_same_trace P w w' : trace w' = trace w -> appends P w w'.
Proof. intros H. exists []. rewrite app_nil_r. auto. Qed.

Lemma appends_weaken (P Q : Event -> Prop) w w' :
  (forall e, P e -> Q e) -> appends P w w' -> appends Q w w'.
Proof.
  intros H (evs & E & F). exists evs. split; [exact E|].
  eapply Forall_impl; eauto.
Qed.

(** The events of the wait and recovery machinery: the status query, the
    soft reset, the unlock, the soft-limit and positioning-mode commands,
    pauses, queue reads, the input-buffer reset and the alarm notice. *)
Definition inner (e : Event) : Prop :=
  match e with
  | Wrote b => b = ("?" ++ CRLF)%string \/ b = CTRL_X \/ b = ("$X" ++ CRLF)%string \/
               b = ("$20=0" ++ CRLF)%string \/ b = ("G90" ++ CRLF)%string
  | Slept _ | Got _ | Empty | ResetInput => True
  | Printed MAlarmDetected => True
  | _ => False
  end.

(** *** What the receiver leaves alone *)

Lemma rx_iter_trace raw w : trace (rx_iter raw w) = trace w.
Proof.
  unfold rx_iter, rxq_put, track_state. CommonFacts.break_tests; reflexivity.
Qed.

Lemma rx_resume_trace w : trace (rx_resume w) = trace w.
Proof. unfold rx_resume. CommonFacts.break_tests; reflexivity. Qed.

Lemma rx_read_trace lines : forall w, trace (rx_read lines w) = trace w.
Proof.
  induction lines as [|raw lines IH]; intros w; simpl; [reflexivity|].
  destruct (rx_held w); [reflexivity|]. rewrite IH. apply rx_iter_trace.
Qed.

Lemma rx_loop_trace w : trace (_rx_loop w) = trace w.
Proof.
  unfold _rx_loop. destruct (rx_on w); [|reflexivity].
  rewrite rx_read_trace. apply rx_resume_trace.
Qed.

Lemma rx_iter_now raw w : now (rx_iter raw w) = now w.
Proof.
  unfold rx_iter, rxq_put, track_state. CommonFacts.break_tests; reflexivity.
Qed.

Lemma rx_resume_now w : now (rx_resume w) = now w.
Proof. unfold rx_resume. CommonFacts.break_tests; reflexivity. Qed.

Lemma rx_read_now lines : forall w, now (rx_read lines w) = now w.
Proof.
  induction lines as [|raw lines IH]; intros w; simpl; [reflexivity|].
  destruct (rx_held w); [reflexivity|]. rewrite IH. apply rx_iter_now.
Qed.

Lemma rx_loop_now w : now (_rx_loop w) = now w.
Proof.
  unfold _rx_loop. destruct (rx_on w); [|reflexivity].
  rewrite rx_read_now. apply rx_resume_now.
Qed.

Lemma rx_iter_tick raw w : tick (rx_iter raw w) = tick w.
Proof.
  unfold rx_iter, rxq_put, track_state. CommonFacts.break_tests; reflexivity.
Qed.

Lemma rx_resume_tick w : tick (rx_resume w) = tick w.
Proof. unfold rx_resume. CommonFacts.break_tests; reflexivity. Qed.

Lemma rx_read_tick lines : forall w, tick (rx_read lines w) = tick w.
Proof.
  induction lines as [|raw lines IH]; intros w; simpl; [reflexivity|].
  destruct (rx_held w); [reflexivity|]. rewrite IH. apply rx_iter_tick.
Qed.

Lemma rx_loop_tick w : tick (_rx_loop w) = tick w.
Proof.
  unfold _rx_loop. destruct (rx_on w); [|reflexivity].
  rewrite rx_read_tick. apply rx_resume_tick.
Qed.

(** *** Comment lines *)

Lemma strip_keeps_first c r :
  isspace c = false -> exists r', strip (String c r) = String c r'.
Proof.
  intros H. unfold strip. cbn [lstrip]. rewrite H. cbn [rstrip].
  destruct (rstrip r) as [|c' r'].
  - rewrite H. exists EmptyString. reflexivity.
  - exists (String c' r'). reflexivity.
Qed.

Lemma startswith_char s c :
  startswith s (String c EmptyString) = true -> exists r, s = String c r.
Proof.
  unfold startswith. destruct s as [|c0 r]; simpl; [discriminate|].
  destruct (ascii_dec c c0) as [->|]; [|discriminate].
  intros _. exists r. reflexivity.
Qed.

Lemma startswith_char_strip s c :
  isspace c = false ->
  startswith s (String c EmptyString) = true ->
  startswith (strip s) (String c EmptyString) = true.
Proof.
  intros Hc H. apply startswith_char in H. destruct H as (r & ->).
  destruct (strip_keeps_first c r Hc) as (r' & ->).
  unfold startswith. simpl. destruct (ascii_dec c c); [|congruence].
  destruct r'; reflexivity.
Qed.

(** A line that is blank, or begins with ["("] or [";"], is a comment for
    [stream_file]. *)
Lemma comment_line raw :
  strip raw = "" \/ startswith raw "(" = true \/ startswith raw ";" = true ->
  is_comment (strip raw) = true.
Proof.
  unfold is_comment. intros [H | [H | H]].
  - rewrite H. reflexivity.
  - apply startswith_char_strip in H; [|reflexivity]. rewrite H.
    apply orb_true_iff. left. apply orb_true_r.
  - apply startswith_char_strip in H; [|reflexivity]. rewrite H. apply orb_true_r.
Qed.

(** *** A full queue *)

Lemma rx_read_held lines w line :
  rx_held w = Some line -> rx_read lines w = set_inbuf lines w.
Proof. intros H. destruct lines; cbn [rx_read]; [reflexivity|]. rewrite H. reflexivity. Qed.

Lemma rx_iter_full raw w :
  truthy (strip raw) = true -> has_room w = false ->
  rx_iter raw w
  = set_rx_held (Some (strip raw)) (track_state (strip raw) (rx_print (strip raw) w)).
Proof.
  intros Ht Hr. unfold rx_iter, rxq_put. rewrite Ht. cbn [negb].
  assert (has_room (track_state (strip raw) (rx_print (strip raw) w)) = false) as ->.
  { unfold has_room, track_state in *. CommonFacts.break_tests; exact Hr. }
  reflexivity.
Qed.

Lemma sending_rxq_track_state line w : rxq (track_state line w) = rxq w.
Proof. unfold track_state. CommonFacts.break_tests; reflexivity. Qed.

Lemma sending_rx_out_track_state line w : rx_out (track_state line w) = rx_out w.
Proof. unfold track_state. CommonFacts.break_tests; reflexivity. Qed.

Section Main.

Variable env : nat -> list string.

Lemma sending_trace_suspend ms w : trace (suspend env ms w) = trace w.
Proof. unfold suspend, advance. cbn [trace]. rewrite rx_loop_trace. reflexivity. Qed.

Lemma sending_now_suspend ms w : now (suspend env ms w) = now w + ms.
Proof. unfold suspend, advance. cbn [now]. rewrite rx_loop_now. reflexivity. Qed.

Lemma sending_tick_suspend ms w : tick (suspend env ms w) = S (tick w).
Proof. unfold suspend, advance. cbn [tick]. rewrite rx_loop_tick. reflexivity. Qed.

Lemma sending_trace_sleep ms w : trace (sleep env ms w) = trace w ++ [Slept ms].
Proof. unfold sleep. rewrite sending_trace_suspend. reflexivity. Qed.

Lemma sending_now_sleep ms w : now (sleep env ms w) = now w + ms.
Proof. unfold sleep. rewrite sending_now_suspend. reflexivity. Qed.

Lemma appends_sleep (P : Event -> Prop) ms w : P (Slept ms) -> appends P w (sleep env ms w).
Proof. intros H. exists [Slept ms]. rewrite sending_trace_sleep. auto. Qed.

Lemma sending_rxq_get_cases ms w r w' :
  rxq_get env ms w = (r, w') ->
  (exists a q, rxq w = a :: q /\ r = Some a /\ w' = emit (Got a) (set_rxq q w)) \/
  (rxq w = [] /\ exists a q, rxq (suspend env ms w) = a :: q /\ r = Some a /\
     w' = emit (Got a) (set_rxq q (suspend env ms w))) \/
  (rxq w = [] /\ rxq (suspend env ms w) = [] /\ r = None /\
     w' = emit Empty (suspend env ms w)).
Proof.
  unfold rxq_get. destruct (rxq w) as [|a q] eqn:E.
  - destruct (rxq (suspend env ms w)) as [|a q] eqn:E2; intros H; inversion H; subst.
    + right. right. auto.
    + right. left. split; [reflexivity|]. exists a, q. auto.
  - intros H; inversion H; subst. left. exists a, q. auto.
Qed.

Lemma appends_rxq_get (P : Event -> Prop) ms w r w' :
  (forall a, P (Got a)) -> P Empty ->
  rxq_get env ms w = (r, w') -> appends P w w'.
Proof.
  intros Hg He H. apply sending_rxq_get_cases in H.
  destruct H as [(a & q & _ & _ & ->) | [(_ & a & q & _ & _ & ->) | (_ & _ & _ & ->)]].
  - exists [Got a]. split; [reflexivity | auto].
  - exists [Got a]. cbn [trace emit set_rxq]. rewrite sending_trace_suspend. auto.
  - exists [Empty]. cbn [trace emit]. rewrite sending_trace_suspend. auto.
Qed.

Lemma appends_iter {A} (P : Event -> Prop) cond (body : World -> option A * World) :
  (forall s r s', body s = (r, s') -> appends P s s') ->
  forall n s, appends P s (snd (Loop.iter cond body n s)).
Proof.
  intros Hbody n s.
  destruct (Loop.iter cond body n s) as [r s'] eqn:E.
  eapply (Loop.iter_preserves cond body (appends P)); eauto.
  - intros. apply appends_refl.
  - intros. eapply appends_trans; eauto.
Qed.

Lemma appends_wait_ack (P : Event -> Prop) timeout_s w :
  (forall a, P (Got a)) -> P Empty ->
  appends P w (snd (wait_ack env timeout_s w)).
Proof.
  intros Hg He. unfold wait_ack, Loop.while_.
  apply appends_iter. intros s r s' H. unfold ack_body in H.
  destruct (rxq_get env 200 s) as [[line|] w1] eqn:E.
  - assert (s' = w1) as -> by (destruct (is_ack (lower line)); inversion H; auto).
    eapply appends_rxq_get; eauto.
  - inversion H; subst. eapply appends_rxq_get; eauto.
Qed.

Lemma appends_send (P : Event -> Prop) s w : P (Wrote (s ++ CRLF)%string) -> appends P w (send s w).
Proof. apply appends_emit. Qed.

Lemma appends_wait_state (P : Event -> Prop) targets timeout_s w :
  P (Wrote ("?" ++ CRLF)%string) -> (forall ms, P (Slept ms)) ->
  appends P w (snd (wait_state env targets timeout_s w)).
Proof.
  intros Hq Hs. unfold wait_state, Loop.while_.
  match goal with |- context [Loop.iter ?c ?b ?n ?x] =>
    pose proof (appends_iter P c b) as Hi; specialize (Hi) ;
    assert (Hl : appends P x (snd (Loop.iter c b n x)))
  end.
  { apply Hi. intros s r s' H. unfold state_body in H.
    assert (s' = sleep env POLL_PERIOD (send "?" s)) as ->
      by (destruct (in_targets _ _); inversion H; auto).
    eapply appends_trans; [apply appends_send; exact Hq | apply appends_sleep; apply Hs]. }
  destruct (Loop.iter _ _ _ w) as [[b|] w1]; exact Hl.
Qed.

Lemma inner_appends_wait_ack timeout_s w : appends inner w (snd (wait_ack env timeout_s w)).
Proof. apply appends_wait_ack; simpl; auto. Qed.

Lemma inner_appends_wait_state targets timeout_s w :
  appends inner w (snd (wait_state env targets timeout_s w)).
Proof. apply appends_wait_state; simpl; auto. Qed.

Lemma appends_set_inbuf (P : Event -> Prop) b w w' :
  appends P w w' -> appends P w (set_inbuf b w').
Proof. intros (evs & E & F). exists evs. auto. Qed.

Lemma inner_appends_hard_clear w : appends inner w (hard_clear env w).
Proof.
  unfold hard_clear.
  eapply appends_trans; [|apply inner_appends_wait_state].
  eapply appends_trans; [|apply inner_appends_wait_ack].
  eapply appends_trans; [|apply appends_send; simpl; tauto].
  eapply appends_trans; [|apply inner_appends_wait_ack].
  eapply appends_trans; [|apply appends_send; simpl; tauto].
  eapply appends_trans; [|apply inner_appends_wait_ack].
  eapply appends_trans; [|apply appends_send; simpl; tauto].
  eapply appends_trans; [|apply appends_emit; exact I].
  apply appends_set_inbuf.
  eapply appends_trans; [|apply appends_sleep; exact I].
  apply appends_emit. simpl. tauto.
Qed.

Lemma inner_appends_clear_alarm w : appends inner w (clear_alarm_if_needed env w).
Proof.
  unfold clear_alarm_if_needed. destruct (String.eqb _ _); [|apply appends_refl].
  eapply appends_trans; [|apply inner_appends_wait_state].
  eapply appends_trans; [|apply inner_appends_hard_clear].
  apply appends_emit. exact I.
Qed.

(** *** The loops satisfy their own equations *)

Lemma pending_rx_iter raw w :
  rx_held w = None ->
  (List.length (rxq (rx_iter raw w))
   + match rx_held (rx_iter raw w) with Some _ => 1 | None => 0 end
   <= S (List.length (rxq w)))%nat.
Proof.
  intros H. unfold rx_iter, rxq_put, track_state, has_room.
  CommonFacts.break_tests;
    cbn [rxq rx_held set_rxq set_rx_held rx_print set_last_state] in *;
    rewrite ?length_app; cbn [List.length]; try rewrite H; try congruence; lia.
Qed.

Lemma pending_rx_read lines : forall w,
  (pending (rx_read lines w)
   <= List.length (rxq w) + List.length lines
      + match rx_held w with Some _ => 1 | None => 0 end)%nat.
Proof.
  unfold pending. induction lines as [|raw lines IH]; intros w; cbn [rx_read].
  - cbn [rxq inbuf rx_held set_inbuf List.length]. lia.
  - destruct (rx_held w) eqn:E.
    + cbn [rxq inbuf rx_held set_inbuf]. rewrite E. cbn [List.length]. lia.
    + pose proof (IH (rx_iter raw w)). pose proof (pending_rx_iter raw w E).
      cbn [List.length]. lia.
Qed.

Lemma pending_rx_loop w : (pending (_rx_loop w) <= pending w)%nat.
Proof.
  unfold _rx_loop. destruct (rx_on w); [|lia].
  pose proof (pending_rx_read (inbuf w) (rx_resume w)) as H.
  assert (L : (List.length (rxq (rx_resume w))
               + match rx_held (rx_resume w) with Some _ => 1 | None => 0 end
               <= List.length (rxq w)
                  + match rx_held w with Some _ => 1 | None => 0 end)%nat).
  { unfold rx_resume. destruct (rx_held w) eqn:Eh; [|rewrite Eh; lia].
    destruct (has_room w); [|rewrite Eh; lia].
    cbn [rxq rx_held set_rxq set_rx_held]. rewrite length_app. cbn [List.length]. lia. }
  unfold pending at 2. lia.
Qed.

Lemma pending_suspend ms w :
  (pending (suspend env ms w) <= pending w + List.length (env (tick w)))%nat.
Proof.
  unfold suspend.
  pose proof (pending_rx_loop (set_inbuf (inbuf w ++ env (tick w)) w)) as H.
  unfold pending in *. cbn [rxq inbuf rx_held advance set_inbuf] in *.
  rewrite length_app in H. lia.
Qed.

(** A [get] takes an entry at once, or suspends the main thread for [ms]. *)
Lemma sending_rxq_get_budget ms w r w' :
  rxq_get env ms w = (r, w') ->
  (now w' = now w /\ tick w' = tick w /\ S (pending w') = pending w) \/
  (now w' = now w + ms /\ tick w' = S (tick w) /\
   (pending w' <= pending w + List.length (env (tick w)))%nat).
Proof.
  intros H. apply sending_rxq_get_cases in H.
  destruct H as [(a & q & E & _ & ->) | [(E & a & q & E2 & _ & ->) | (E & E2 & _ & ->)]].
  - left. unfold pending. cbn [now tick rxq inbuf rx_held emit set_rxq].
    rewrite E. cbn [List.length]. auto.
  - right. pose proof (pending_suspend ms w) as L.
    unfold pending in *. cbn [now tick rxq inbuf rx_held emit set_rxq] in *.
    rewrite E2 in L. cbn [List.length] in L.
    rewrite sending_now_suspend, sending_tick_suspend. repeat split; auto. lia.
  - right. pose proof (pending_suspend ms w) as L.
    unfold pending in *. cbn [now tick rxq inbuf rx_held emit] in *.
    rewrite sending_now_suspend, sending_tick_suspend. repeat split; auto.
Qed.

Lemma sending_ack_fuel_decreases deadline w w' :
  ack_cond deadline w = true -> ack_body env w = (None, w') ->
  (ack_fuel env deadline w' < ack_fuel env deadline w)%nat.
Proof.
  unfold ack_cond, ack_fuel, ack_body. intros Hc Hb. apply Z.ltb_lt in Hc.
  pose proof (sending_rxq_get_budget 200 w) as Hg.
  destruct (rxq_get env 200 w) as [r w1]. specialize (Hg _ _ eq_refl).
  assert (w' = w1) as ->.
  { destruct r as [line|]; [destruct (is_ack (lower line))|]; inversion Hb; auto. }
  destruct Hg as [(Hn & Ht & Hp) | (Hn & Ht & Hp)]; rewrite Hn, Ht.
  - lia.
  - set (d := deadline - now w) in *.
    assert (Hd : 0 < d) by (unfold d; lia).
    replace (deadline - (now w + 200) + 199) with (d + 199 + (-1) * 200)
      by (unfold d; lia).
    rewrite Z.div_add by lia.
    assert (1 <= (d + 199) / 200).
    { apply Z.div_le_lower_bound; lia. }
    set (t := (d + 199) / 200) in *.
    replace (Z.to_nat t) with (S (Z.to_nat (t + -1))) by lia.
    cbn [lines_in]. lia.
Qed.

Lemma sending_wait_ack_unfold deadline w :
  Loop.while_ (ack_cond deadline) (ack_body env) (ack_fuel env deadline) w =
  if ack_cond deadline w then
    match ack_body env w with
    | (Some line, w') => (Some line, w')
    | (None, w') =>
        Loop.while_ (ack_cond deadline) (ack_body env) (ack_fuel env deadline) w'
    end
  else (None, w).
Proof.
  apply Loop.while_unfold. intros a b. apply sending_ack_fuel_decreases.
Qed.

Lemma state_fuel_decreases targets deadline w w' :
  ack_cond deadline w = true -> state_body env targets w = (None, w') ->
  (state_fuel deadline w' < state_fuel deadline w)%nat.
Proof.
  unfold ack_cond, state_fuel, state_body, POLL_PERIOD. intros Hc Hb.
  apply Z.ltb_lt in Hc.
  assert (w' = sleep env 250 (send "?" w)) as ->
    by (destruct (in_targets _ _); inversion Hb; auto).
  rewrite sending_now_sleep. unfold send. cbn [now emit].
  assert (0 <= (deadline - now w) / 250) by (apply Z.div_pos; lia).
  replace (deadline - (now w + 250)) with ((deadline - now w) + (-1) * 250) by lia.
  rewrite Z.div_add by lia. lia.
Qed.

Lemma sending_wait_state_unfold targets deadline w :
  Loop.while_ (ack_cond deadline) (state_body env targets) (state_fuel deadline) w =
  if ack_cond deadline w then
    match state_body env targets w with
    | (Some b, w') => (Some b, w')
    | (None, w') =>
        Loop.while_ (ack_cond deadline) (state_body env targets) (state_fuel deadline) w'
    end
  else (None, w).
Proof.
  apply Loop.while_unfold. intros a b. apply state_fuel_decreases.
Qed.

(** *** What [wait_state] takes for success *)

(** One poll is enough: when the state read after the first status query and
    poll period is a target, [wait_state] answers [True] there. *)
Lemma wait_state_first_poll targets timeout_s w :
  0 < timeout_s ->
  in_targets targets (sleep env POLL_PERIOD (send "?" w)) = true ->
  wait_state env targets timeout_s w = (true, sleep env POLL_PERIOD (send "?" w)).
Proof.
  intros Ht Hin. unfold wait_state. rewrite sending_wait_state_unfold.
  assert (ack_cond (now w + timeout_s) w = true) as ->
    by (unfold ack_cond; apply Z.ltb_lt; lia).
  unfold state_body. rewrite Hin. reflexivity.
Qed.

(** And a [True] is always the answer of one poll: the state read at the end
    of the poll that ended the loop. *)
Lemma wait_state_true targets timeout_s w w' :
  wait_state env targets timeout_s w = (true, w') ->
  exists w1, w' = sleep env POLL_PERIOD (send "?" w1) /\ in_targets targets w' = true.
Proof.
  unfold wait_state, Loop.while_.
  match goal with |- context [Loop.iter ?c ?b ?n ?x] =>
    destruct (Loop.iter c b n x) as [[r|] w2] eqn:E
  end; [|discriminate].
  intros H. inversion H; subst.
  apply (Loop.iter_some _ _ (fun _ _ => True)) in E; auto.
  destruct E as (w1 & _ & _ & Hb). exists w1. unfold state_body in Hb.
  destruct (in_targets targets (sleep env POLL_PERIOD (send "?" w1))) eqn:Hin;
    inversion Hb; subst. auto.
Qed.

(** *** Recovery in [homing_step] *)

(** [hard_clear] opens with the soft reset and the unlock. *)
Lemma hard_clear_opens w :
  exists rest,
    trace (hard_clear env w)
    = trace w ++ [Wrote CTRL_X; Slept 300; ResetInput; Wrote ("$X" ++ CRLF)%string] ++ rest.
Proof.
  unfold hard_clear.
  set (w4 := send "$X" (emit ResetInput (set_inbuf [] (sleep env 300 (emit (Wrote CTRL_X) w))))).
  assert (H4 : trace w4
               = trace w ++ [Wrote CTRL_X; Slept 300; ResetInput; Wrote ("$X" ++ CRLF)%string]).
  { unfold w4, send. cbn [trace emit set_inbuf]. rewrite sending_trace_sleep.
    cbn [trace emit]. rewrite <- !app_assoc. reflexivity. }
  assert (Hr : appends inner w4
            (snd (wait_state env ["Idle"; "Run"; "Hold"; "Jog"; "Check"] 3000
               (snd (wait_ack env 3000 (send "G90"
                  (snd (wait_ack env 6000 (send "$20=0"
                     (snd (wait_ack env 6000 w4))))))))))).
  { eapply appends_trans; [|apply inner_appends_wait_state].
    eapply appends_trans; [|apply inner_appends_wait_ack].
    eapply appends_trans; [|apply appends_send; simpl; tauto].
    eapply appends_trans; [|apply inner_appends_wait_ack].
    eapply appends_trans; [|apply appends_send; simpl; tauto].
    apply inner_appends_wait_ack. }
  destruct Hr as (rest & E & _). exists rest. rewrite E, H4, <- app_assoc. reflexivity.
Qed.

(** *** A timeout is reported only once the time is up *)

Lemma sending_wait_ack_none timeout_s w w' :
  wait_ack env timeout_s w = (None, w') -> now w + timeout_s <= now w'.
Proof.
  unfold wait_ack. intros H.
  apply (Loop.while_none_exits _ _ _ (sending_ack_fuel_decreases (now w + timeout_s))) in H.
  unfold ack_cond in H. apply Z.ltb_ge in H. exact H.
Qed.

Lemma wait_state_false targets timeout_s w w' :
  wait_state env targets timeout_s w = (false, w') -> now w + timeout_s <= now w'.
Proof.
  unfold wait_state.
  destruct (Loop.while_ (ack_cond (now w + timeout_s)) (state_body env targets)
              (state_fuel (now w + timeout_s)) w) as [[b|] w1] eqn:E; intros H.
  - inversion H; subst. unfold Loop.while_ in E.
    apply (Loop.iter_some _ _ (fun _ _ => True)) in E; auto.
    destruct E as (w2 & _ & _ & Hb). unfold state_body in Hb.
    destruct (in_targets targets _); inversion Hb.
  - inversion H; subst.
    apply (Loop.while_none_exits _ _ _
             (state_fuel_decreases targets (now w + timeout_s))) in E.
    unfold ack_cond in E. apply Z.ltb_ge in E. exact E.
Qed.

(** *** What [send_blocking] takes for success, and what it does on failure *)

(** The world in which an attempt of [send_blocking] writes its command. *)
Definition attempt_start (force_g90 : bool) (cmd : string) (attempt retries : Z)
    (w : World) : World :=
  let w := clear_alarm_if_needed env w in
  let w := if force_g90 then snd (wait_ack env 5000 (send "G90" w)) else w in
  emit (Printed (MAttempt cmd attempt retries)) w.

Lemma send_blocking_loop_attempt n attempt retries cmd ack_timeout idle_timeout force_g90 w :
  send_blocking_loop env (S n) attempt retries cmd ack_timeout idle_timeout force_g90 w
  = let (ack, w3) :=
      wait_ack env ack_timeout (send cmd (attempt_start force_g90 cmd attempt retries w)) in
    let (ok_idle, w4) := wait_state env ["Idle"] idle_timeout w3 in
    if String.eqb (last_state w4) "Alarm" || ack_is ack "alarm" || negb ok_idle
    then send_blocking_loop env n (attempt + 1) retries cmd ack_timeout idle_timeout
           force_g90 (hard_clear env (emit (Printed MNotClean) w4))
    else (true, w4).
Proof. reflexivity. Qed.





Variable repr_delta : Z -> string.

(** What [homing_step] does after an attempt that did not end with an ok and
    [Idle]: on an alarm reply a hard clear, after it a nudge when the reply
    names alarm 8 or 9 and the command an axis; on anything else a hard
    clear. *)
Definition recovery (ack : option string) (ax : option string) (attempt nudge_feed : Z)
    (w : World) : World :=
  if ack_is ack "alarm" then
    let a := match ack with Some a => a | None => "" end in
    let w := emit (Printed (MHomingReported a)) w in
    if nudge_applies a ax then
      let axis := match ax with Some x => x | None => "" end in
      let sign := nudge_sign axis attempt in
      nudge_axis env repr_delta axis sign nudge_feed
        (hard_clear env (emit (Printed (MNudge axis sign)) w))
    else hard_clear env w
  else hard_clear env (emit (Printed MNoIdle) w).

Lemma homing_loop_retry n attempt retries cmd ax nudge_feed w ack ok_idle w1 :
  homing_attempt env cmd attempt retries w = (ack, ok_idle, w1) ->
  ack_is ack "ok" && ok_idle = false ->
  homing_loop env repr_delta (S n) attempt retries cmd ax nudge_feed w
  = homing_loop env repr_delta n (attempt + 1) retries cmd ax nudge_feed
      (recovery ack ax attempt nudge_feed w1).
Proof.
  intros H Hok. cbn [homing_loop]. rewrite H, Hok. unfold recovery.
  destruct (ack_is ack "alarm"); [|reflexivity].
  destruct (nudge_applies _ ax); reflexivity.
Qed.

(** A reply that begins with [alarm] does not begin with [ok]. *)
Lemma alarm_is_no_ok ack : ack_is ack "alarm" = true -> ack_is ack "ok" = false.
Proof.
  destruct ack as [a|]; [|reflexivity]. unfold ack_is, startswith.
  destruct a as [|c a]; [reflexivity|]. cbn [truthy andb String.prefix].
  destruct (ascii_dec "a" c) as [<-|Hc]; [reflexivity|]. discriminate.
Qed.

Lemma appends_any_nudge_axis axis sign feed w :
  appends (fun _ => True) w (nudge_axis env repr_delta axis sign feed w).
Proof.
  unfold nudge_axis.
  eapply appends_trans; [|apply appends_wait_ack; auto].
  eapply appends_trans; [|apply appends_send; auto].
  eapply appends_trans; [|apply appends_wait_state; auto].
  eapply appends_trans; [|apply appends_wait_ack; auto].
  eapply appends_trans; [|apply appends_send; auto].
  eapply appends_trans; [|apply appends_wait_ack; auto].
  apply appends_send; auto.
Qed.

(** Every recovery resets the controller and unlocks it. *)
Lemma recovery_unlocks ack ax attempt nudge_feed w :
  exists evs,
    trace (recovery ack ax attempt nudge_feed w) = trace w ++ evs /\
    In (Wrote CTRL_X) evs /\ In (Wrote ("$X" ++ CRLF)%string) evs.
Proof.
  unfold recovery.
  destruct (ack_is ack "alarm").
  - destruct (nudge_applies _ ax).
    + set (axis := match ax with Some x0 => x0 | None => "" end).
      set (w1 := emit (Printed (MNudge axis (nudge_sign axis attempt)))
                   (emit (Printed (MHomingReported
                      match ack with Some a => a | None => "" end)) w)).
      destruct (hard_clear_opens w1) as (rest & E).
      destruct (appends_any_nudge_axis axis (nudge_sign axis attempt) nudge_feed
                  (hard_clear env w1)) as (more & E2 & _).
      eexists. rewrite E2, E. unfold w1. cbn [trace emit]. rewrite <- !app_assoc.
      split; [reflexivity|]. cbn [app].
      split; (do 2 right); [left; reflexivity | do 3 right; left; reflexivity].
    + set (w1 := emit (Printed (MHomingReported
                      match ack with Some a => a | None => "" end)) w).
      destruct (hard_clear_opens w1) as (rest & E).
      eexists. rewrite E. unfold w1. cbn [trace emit]. rewrite <- !app_assoc.
      split; [reflexivity|]. cbn [app].
      split; right; [left; reflexivity | do 3 right; left; reflexivity].
  - destruct (hard_clear_opens (emit (Printed MNoIdle) w)) as (rest & E).
    eexists. rewrite E. cbn [trace emit]. rewrite <- !app_assoc.
    split; [reflexivity|]. cbn [app].
    split; right; [left; reflexivity | do 3 right; left; reflexivity].
Qed.

(** *** Streaming a file *)

Definition is_start (e : Event) : bool :=
  match e with Printed (MStart _ _) => true | _ => false end.

Definition is_end (e : Event) : bool :=
  match e with Printed MEnd => true | _ => false end.

(** How many events of [evs] satisfy [f]. *)
Definition count (f : Event -> bool) (evs : list Event) : nat :=
  List.length (filter f evs).

(** Neither marker. *)
Definition unmarked (e : Event) : Prop := is_start e = false /\ is_end e = false.

Lemma count_app f evs1 evs2 : count f (evs1 ++ evs2) = (count f evs1 + count f evs2)%nat.
Proof. unfold count. rewrite filter_app, length_app. reflexivity. Qed.

Lemma count_unmarked evs :
  Forall unmarked evs -> count is_start evs = 0%nat /\ count is_end evs = 0%nat.
Proof.
  unfold count. induction 1 as [|e evs [H1 H2] _ [IH1 IH2]]; simpl; [auto|].
  rewrite H1, H2. auto.
Qed.

Lemma inner_unmarked e : inner e -> unmarked e.
Proof.
  destruct e as [| | | | | |m]; try (split; reflexivity).
  destruct m; simpl; intros H; try contradiction; split; reflexivity.
Qed.

Lemma unmarked_clear_alarm w : appends unmarked w (clear_alarm_if_needed env w).
Proof. eapply appends_weaken; [apply inner_unmarked | apply inner_appends_clear_alarm]. Qed.

Lemma unmarked_hard_clear w : appends unmarked w (hard_clear env w).
Proof. eapply appends_weaken; [apply inner_unmarked | apply inner_appends_hard_clear]. Qed.

Lemma unmarked_wait_ack t w : appends unmarked w (snd (wait_ack env t w)).
Proof. eapply appends_weaken; [apply inner_unmarked | apply inner_appends_wait_ack]. Qed.

Lemma unmarked_wait_state targets t w : appends unmarked w (snd (wait_state env targets t w)).
Proof. eapply appends_weaken; [apply inner_unmarked | apply inner_appends_wait_state]. Qed.

Lemma unmarked_line_loop line_retries lineno line : forall n attempt w,
  appends unmarked w (snd (line_loop env n attempt line_retries lineno line w)).
Proof.
  induction n as [|n IH]; intros attempt w; cbn [line_loop].
  - apply appends_refl.
  - pose proof (unmarked_wait_ack 20000
       (send line (clear_alarm_if_needed env
          (emit (Printed (MLine lineno line attempt (line_retries + 1))) w)))) as Hw.
    assert (Hpre : appends unmarked w
              (send line (clear_alarm_if_needed env
                 (emit (Printed (MLine lineno line attempt (line_retries + 1))) w)))).
    { eapply appends_trans; [|apply appends_send; split; reflexivity].
      eapply appends_trans; [|apply unmarked_clear_alarm].
      apply appends_emit. split; reflexivity. }
    destruct (wait_ack env 20000 _) as [[a|] w1]; cbn [snd] in Hw.
    + destruct (startswith a "ok"); cbn [snd].
      * eapply appends_trans; eauto.
      * destruct (startswith a "alarm").
        -- assert (Hrec : appends unmarked w
                    (snd (wait_ack env 5000
                       (send "G90" (hard_clear env (emit (Printed MAlarmStreaming) w1)))))).
           { eapply appends_trans; [|apply unmarked_wait_ack].
             eapply appends_trans; [|apply appends_send; split; reflexivity].
             eapply appends_trans; [|apply unmarked_hard_clear].
             eapply appends_trans; [|apply appends_emit; split; reflexivity].
             eapply appends_trans; eauto. }
           destruct (attempt <=? line_retries); cbn [snd].
           ++ eapply appends_trans; [exact Hrec | apply IH].
           ++ eapply appends_trans; [exact Hrec | apply appends_emit; split; reflexivity].
        -- cbn [snd]. eapply appends_trans; [|apply unmarked_clear_alarm].
           eapply appends_trans; eauto.
    + cbn [snd]. eapply appends_trans; [|apply unmarked_clear_alarm].
      eapply appends_trans; eauto.
Qed.

Lemma unmarked_stream_lines line_retries : forall lines lineno w,
  appends unmarked w (snd (stream_lines env lines lineno line_retries w)).
Proof.
  induction lines as [|raw lines IH]; intros lineno w; cbn [stream_lines].
  - apply appends_refl.
  - destruct (is_comment (strip raw)); [apply IH|].
    pose proof (unmarked_line_loop line_retries (S lineno) (strip raw)
                  (Z.to_nat (line_retries + 1)) 1 w) as Hl.
    destruct (line_loop env _ 1 line_retries (S lineno) (strip raw) w) as [[|] w1];
      cbn [snd] in *.
    + eapply appends_trans; [exact Hl | apply IH].
    + exact Hl.
Qed.

Lemma unmarked_preview : forall lines w, appends unmarked w (preview lines w).
Proof.
  induction lines as [|raw lines IH]; intros w; cbn [preview].
  - apply appends_refl.
  - destruct (is_comment (strip raw)); [apply IH|].
    apply appends_emit. split; reflexivity.
Qed.

(** A line of comments or blanks is passed over: nothing is sent for it. *)
Lemma stream_lines_skip raw rest lineno line_retries w :
  is_comment (strip raw) = true ->
  stream_lines env (raw :: rest) lineno line_retries w
  = stream_lines env rest (S lineno) line_retries w.
Proof. intros H. cbn [stream_lines]. rewrite H. reflexivity. Qed.

Lemma stream_lines_comments line_retries : forall lines lineno w,
  Forall (fun raw => is_comment (strip raw) = true) lines ->
  stream_lines env lines lineno line_retries w = (true, w).
Proof.
  induction lines as [|raw lines IH]; intros lineno w H; [reflexivity|].
  inversion H; subst. rewrite stream_lines_skip by assumption. apply IH. assumption.
Qed.

Lemma preview_comments : forall lines w,
  Forall (fun raw => is_comment (strip raw) = true) lines -> preview lines w = w.
Proof.
  induction lines as [|raw lines IH]; intros w H; [reflexivity|].
  inversion H; subst. cbn [preview].
  match goal with E : is_comment _ = true |- _ => rewrite E end. apply IH. assumption.
Qed.

(** What [stream_file] does before it opens the file. *)
Definition preamble (path : string) (size : option Z) (w : World) : World :=
  snd (wait_state env ["Idle"] 10000
         (clear_alarm_if_needed env (emit (Printed (MStart path size)) w))).

Lemma stream_file_markers path size file line_retries w :
  exists evs,
    trace (snd (stream_file env path size file line_retries w)) = trace w ++ evs /\
    count is_start evs = 1%nat /\
    count is_end evs =
      if fst (stream_file env path size file line_retries w) then 1%nat else 0%nat.
Proof.
  unfold stream_file. fold (preamble path size w).
  assert (Hpre : appends unmarked (emit (Printed (MStart path size)) w)
                   (preamble path size w)).
  { unfold preamble.
    eapply appends_trans; [apply unmarked_clear_alarm | apply unmarked_wait_state]. }
  destruct file as [lines|].
  - pose proof (unmarked_preview lines (preamble path size w)) as Hp.
    pose proof (unmarked_stream_lines line_retries lines 0
                  (preview lines (preamble path size w))) as Hs.
    destruct (appends_trans _ _ _ _ Hpre (appends_trans _ _ _ _ Hp Hs)) as (evs & E & F).
    destruct (count_unmarked _ F) as (C1 & C2).
    destruct (stream_lines env lines 0 line_retries _) as [[|] w1]; cbn [fst snd] in *.
    + exists ([Printed (MStart path size)] ++ evs ++ [Printed MEnd]).
      cbn [trace emit] in *. rewrite E, <- !app_assoc.
      split; [reflexivity|]. rewrite !count_app, C1, C2. split; reflexivity.
    + exists ([Printed (MStart path size)] ++ evs).
      cbn [trace emit] in *. rewrite E, <- !app_assoc.
      split; [reflexivity|]. rewrite !count_app, C1, C2. split; reflexivity.
  - destruct Hpre as (evs & E & F). destruct (count_unmarked _ F) as (C1 & C2).
    exists ([Printed (MStart path size)] ++ evs ++ [Printed MCannotOpen]).
    cbn [fst snd trace emit] in *. rewrite E, <- !app_assoc.
    split; [reflexivity|]. rewrite !count_app, C1, C2. split; reflexivity.
Qed.

(** *** The steps of [main] *)

(** A write that is the command of a step of [main]: a homing command or a
    rapid move. *)
Definition is_macro_cmd (bytes : string) : bool :=
  startswith bytes "$H" || startswith bytes "G0 ".

Definition macro_cmds (evs : list Event) : list string :=
  filter is_macro_cmd (writes evs).

(** An event that is not the write of a step's command. *)
Definition plain (e : Event) : Prop :=
  match e with
  | Wrote b => is_macro_cmd b = false
  | _ => True
  end.

Lemma macro_cmds_app e1 e2 : macro_cmds (e1 ++ e2) = macro_cmds e1 ++ macro_cmds e2.
Proof. unfold macro_cmds, writes. rewrite flat_map_app, filter_app. reflexivity. Qed.

Lemma macro_cmds_plain evs : Forall plain evs -> macro_cmds evs = [].
Proof.
  induction 1 as [|e evs He _ IH]; [reflexivity|].
  change (e :: evs) with ([e] ++ evs). rewrite macro_cmds_app, IH, app_nil_r.
  destruct e; try reflexivity.
  unfold macro_cmds. cbn in *. rewrite He. reflexivity.
Qed.

Lemma inner_plain e : inner e -> plain e.
Proof.
  destruct e; cbn; auto.
  intros [-> | [-> | [-> | [-> | ->]]]]; reflexivity.
Qed.

(** [w'] is [w] after [k] writes of the step command [c], and no write of
    another step command. *)
Definition sends (c : string) (k : nat) (w w' : World) : Prop :=
  exists evs, trace w' = trace w ++ evs /\ macro_cmds evs = repeat c k.

Lemma sends_plain c w w' : appends plain w w' -> sends c 0 w w'.
Proof. intros (evs & E & F). exists evs. split; [exact E | apply macro_cmds_plain, F]. Qed.

Lemma sends_trans c k1 k2 w1 w2 w3 :
  sends c k1 w1 w2 -> sends c k2 w2 w3 -> sends c (k1 + k2) w1 w3.
Proof.
  intros (e1 & E1 & F1) (e2 & E2 & F2). exists (e1 ++ e2).
  rewrite E2, E1, app_assoc, macro_cmds_app, F1, F2, repeat_app. auto.
Qed.

Lemma sends_then_plain c k w1 w2 w3 : sends c k w1 w2 -> appends plain w2 w3 -> sends c k w1 w3.
Proof.
  intros H1 H2. apply (sends_plain c) in H2.
  rewrite <- (Nat.add_0_r k). eapply sends_trans; eauto.
Qed.

Lemma plain_then_sends c k w1 w2 w3 : appends plain w1 w2 -> sends c k w2 w3 -> sends c k w1 w3.
Proof.
  intros H1 H2. apply (sends_plain c) in H1.
  change k with (0 + k)%nat. eapply sends_trans; eauto.
Qed.

Lemma sends_send c w : is_macro_cmd (c ++ CRLF) = true -> sends (c ++ CRLF) 1 w (send c w).
Proof.
  intros H. exists [Wrote (c ++ CRLF)%string]. split; [reflexivity|].
  unfold macro_cmds. cbn. rewrite H. reflexivity.
Qed.

Lemma plain_wait_ack timeout_s w : appends plain w (snd (wait_ack env timeout_s w)).
Proof. apply appends_wait_ack; cbn; auto. Qed.

Lemma plain_wait_state targets timeout_s w :
  appends plain w (snd (wait_state env targets timeout_s w)).
Proof. apply appends_wait_state; cbn; auto. Qed.

Lemma plain_hard_clear w : appends plain w (hard_clear env w).
Proof. eapply appends_weaken; [apply inner_plain | apply inner_appends_hard_clear]. Qed.

Lemma plain_clear_alarm w : appends plain w (clear_alarm_if_needed env w).
Proof. eapply appends_weaken; [apply inner_plain | apply inner_appends_clear_alarm]. Qed.

Lemma plain_nudge_axis axis sign feed w :
  appends plain w (nudge_axis env repr_delta axis sign feed w).
Proof.
  unfold nudge_axis.
  eapply appends_trans; [|apply plain_wait_ack].
  eapply appends_trans; [|apply appends_send; reflexivity].
  eapply appends_trans; [|apply plain_wait_state].
  eapply appends_trans; [|apply plain_wait_ack].
  eapply appends_trans; [|apply appends_send; reflexivity].
  eapply appends_trans; [|apply plain_wait_ack].
  apply appends_send; reflexivity.
Qed.

Lemma plain_recovery ack ax attempt nudge_feed w :
  appends plain w (recovery ack ax attempt nudge_feed w).
Proof.
  unfold recovery. destruct (ack_is ack "alarm").
  - destruct (nudge_applies _ ax).
    + eapply appends_trans; [|apply plain_nudge_axis].
      eapply appends_trans; [|apply plain_hard_clear].
      eapply appends_trans; [|apply appends_emit; exact I].
      apply appends_emit; exact I.
    + eapply appends_trans; [|apply plain_hard_clear].
      apply appends_emit; exact I.
  - eapply appends_trans; [|apply plain_hard_clear].
    apply appends_emit; exact I.
Qed.

(** An attempt of [homing_step] writes the command once; its [ok_idle] is the
    answer of the wait for [Idle] that ends it. *)
Lemma homing_attempt_sends cmd attempt retries w :
  is_macro_cmd (cmd ++ CRLF) = true ->
  sends (cmd ++ CRLF) 1 w (snd (homing_attempt env cmd attempt retries w)).
Proof.
  intros Hc. unfold homing_attempt.
  set (w1 := clear_alarm_if_needed env (emit (Printed (MHoming cmd attempt retries)) w)).
  assert (H1 : appends plain w w1).
  { eapply appends_trans; [|apply plain_clear_alarm]. apply appends_emit; exact I. }
  pose proof (plain_wait_ack 40000 (send cmd w1)) as H2.
  destruct (wait_ack env 40000 (send cmd w1)) as [ack w2]. cbn [snd] in H2.
  pose proof (plain_wait_state ["Idle"] 120000 w2) as H3.
  destruct (wait_state env ["Idle"] 120000 w2) as [ok w3]. cbn [snd] in *.
  eapply plain_then_sends; [exact H1|].
  eapply sends_then_plain; [|exact H3].
  eapply sends_then_plain; [|exact H2].
  apply sends_send. exact Hc.
Qed.

Lemma homing_attempt_waits cmd attempt retries w ack w' :
  homing_attempt env cmd attempt retries w = (ack, true, w') ->
  exists w0, wait_state env ["Idle"] 120000 w0 = (true, w').
Proof.
  unfold homing_attempt.
  destruct (wait_ack env 40000 _) as [a w2].
  destruct (wait_state env ["Idle"] 120000 w2) as [ok w3] eqn:E.
  intros H. inversion H; subst. exists w2. exact E.
Qed.


(** [homing_step] answers [True] only from a wait for [Idle] that answered
    [True]: the step returns in the state that wait left. *)
Lemma homing_loop_waits cmd retries ax nudge_feed w' :
  forall n attempt w,
  homing_loop env repr_delta n attempt retries cmd ax nudge_feed w = (true, w') ->
  exists w0, wait_state env ["Idle"] 120000 w0 = (true, w').
Proof.
  induction n as [|n IH]; intros attempt w H.
  - discriminate.
  - destruct (homing_attempt env cmd attempt retries w) as [[ack ok_idle] w1] eqn:E.
    destruct (ack_is ack "ok" && ok_idle) eqn:Hok.
    + cbn [homing_loop] in H. rewrite E, Hok in H. inversion H; subst.
      apply andb_true_iff in Hok. destruct Hok as [_ ->].
      eapply homing_attempt_waits; eauto.
    + rewrite (homing_loop_retry _ _ _ _ _ _ _ _ _ _ E Hok) in H. eauto.
Qed.


(** [send_blocking] answers [True] only from a wait for [Idle] that answered
    [True]. *)
Lemma send_blocking_loop_waits cmd retries ack_timeout idle_timeout force_g90 w' :
  forall n attempt w,
  send_blocking_loop env n attempt retries cmd ack_timeout idle_timeout force_g90 w
  = (true, w') ->
  exists w0, wait_state env ["Idle"] idle_timeout w0 = (true, w').
Proof.
  induction n as [|n IH]; intros attempt w H.
  - discriminate.
  - cbn [send_blocking_loop] in H.
    destruct (wait_ack env ack_timeout _) as [ack w3].
    destruct (wait_state env ["Idle"] idle_timeout w3) as [ok w4] eqn:E.
    destruct (String.eqb (last_state w4) "Alarm" || ack_is ack "alarm" || negb ok) eqn:C.
    + eauto.
    + inversion H; subst. apply orb_false_iff in C. destruct C as [_ C].
      apply negb_false_iff in C. subst ok. eauto.
Qed.

(** The eight [if not ...: print(...); ser.close(); sys.exit(3)] statements of
    [main], as a list: the call, and the words of its failure message. *)
Inductive MacroStep : Type :=
| HomeStep (cmd what : string)
| MoveStep (cmd what : string) (ack_timeout idle_timeout : Z).

Definition macro_steps : list MacroStep :=
  [ HomeStep "$HZ" "home Z";
    MoveStep "G0 Z180" "move Z180" 30000 60000;
    HomeStep "$HA" "home A";
    HomeStep "$HY" "home Y";
    MoveStep "G0 Y45" "move Y45" 30000 45000;
    HomeStep "$HZ" "home Z (second pass)";
    HomeStep "$HX" "home X";
    MoveStep "G0 X45 Y45 Z45 A45" "final pose move" 45000 90000 ].


Definition macro_what (st : MacroStep) : string :=
  match st with
  | HomeStep _ what => what
  | MoveStep _ what _ _ => what
  end.

Definition run_macro_step (home_retries : Z) (st : MacroStep) (w : World)
    : bool * World :=
  match st with
  | HomeStep cmd _ => homing_step env repr_delta cmd home_retries 1000 w
  | MoveStep cmd _ ack_timeout idle_timeout =>
      send_blocking env cmd ack_timeout idle_timeout 3 true w
  end.

Fixpoint run_macro (home_retries : Z) (todo : list MacroStep) (w : World)
    : option MainExit * World :=
  match todo with
  | [] => (None, w)
  | st :: rest =>
      let (ok, w) := run_macro_step home_retries st w in
      if negb ok then let (e, w) := fail_step (macro_what st) w in (Some e, w)
      else run_macro home_retries rest w
  end.

Lemma homing_macro_steps home_retries w :
  homing_macro env repr_delta home_retries w = run_macro home_retries macro_steps w.
Proof.
  unfold homing_macro, macro_steps. cbn [run_macro run_macro_step macro_what].
  repeat match goal with
  | |- context [homing_step env repr_delta ?c ?r ?f ?x] =>
      destruct (homing_step env repr_delta c r f x) as [[|] ?]; cbn [negb];
      [|reflexivity]
  | |- context [send_blocking env ?c ?a ?i ?r ?g ?x] =>
      destruct (send_blocking env c a i r g x) as [[|] ?]; cbn [negb];
      [|reflexivity]
  end.
  reflexivity.
Qed.


(** A step of [main] that succeeds returns from a wait for [Idle] that
    answered [True]. *)
Lemma run_macro_step_waits home_retries st w w' :
  run_macro_step home_retries st w = (true, w') ->
  exists timeout_s w0, wait_state env ["Idle"] timeout_s w0 = (true, w').
Proof.
  destruct st as [cmd what|cmd what a i]; cbn [run_macro_step]; intros H.
  - exists 120000. eapply homing_loop_waits. exact H.
  - exists i. eapply send_blocking_loop_waits. exact H.
Qed.




(** The next step of [main] begins in the state the wait for [Idle] of the
    step before it left. *)
Lemma run_macro_app home_retries before :
  forall rest w w1,
  run_macro home_retries before w = (None, w1) ->
  run_macro home_retries (before ++ rest) w = run_macro home_retries rest w1.
Proof.
  induction before as [|st before IH]; intros rest w w1 H.
  - cbn in H. inversion H. reflexivity.
  - cbn [run_macro app] in *.
    destruct (run_macro_step home_retries st w) as [[|] w2]; cbn [negb] in *.
    + apply IH. exact H.
    + unfold fail_step in H. discriminate.
Qed.

(** *** How often a step writes its command *)

Lemma homing_loop_tries cmd retries ax nudge_feed :
  is_macro_cmd (cmd ++ CRLF) = true ->
  forall n attempt w,
  exists k,
    sends (cmd ++ CRLF) k w
      (snd (homing_loop env repr_delta n attempt retries cmd ax nudge_feed w)) /\
    (k <= n)%nat /\
    (fst (homing_loop env repr_delta n attempt retries cmd ax nudge_feed w) = true ->
     (1 <= k)%nat) /\
    (fst (homing_loop env repr_delta n attempt retries cmd ax nudge_feed w) = false ->
     k = n).
Proof.
  intros Hc. induction n as [|n IH]; intros attempt w.
  - exists 0%nat. cbn. split; [apply sends_plain, appends_refl|].
    split; [lia|]. split; [discriminate | reflexivity].
  - pose proof (homing_attempt_sends cmd attempt retries w Hc) as Ha.
    destruct (homing_attempt env cmd attempt retries w) as [[ack ok_idle] w1] eqn:E.
    cbn [snd] in Ha.
    destruct (ack_is ack "ok" && ok_idle) eqn:Hok.
    + exists 1%nat. cbn [homing_loop]. rewrite E, Hok. cbn [fst snd].
      split; [exact Ha|]. split; [lia|]. split; [lia | discriminate].
    + rewrite (homing_loop_retry _ _ _ _ _ _ _ _ _ _ E Hok).
      destruct (IH (attempt + 1) (recovery ack ax attempt nudge_feed w1))
        as (k & Hk & Hb & _ & Hf).
      exists (1 + k)%nat. split; [|split; [lia|split; [intros _; lia|]]].
      * eapply sends_trans; [|exact Hk].
        eapply sends_then_plain; [exact Ha | apply plain_recovery].
      * intros F. rewrite (Hf F). reflexivity.
Qed.

Lemma send_blocking_loop_tries cmd retries ack_timeout idle_timeout force_g90 :
  is_macro_cmd (cmd ++ CRLF) = true ->
  forall n attempt w,
  exists k,
    sends (cmd ++ CRLF) k w
      (snd (send_blocking_loop env n attempt retries cmd ack_timeout idle_timeout
              force_g90 w)) /\
    (k <= n)%nat /\
    (fst (send_blocking_loop env n attempt retries cmd ack_timeout idle_timeout
            force_g90 w) = true -> (1 <= k)%nat) /\
    (fst (send_blocking_loop env n attempt retries cmd ack_timeout idle_timeout
            force_g90 w) = false -> k = n).
Proof.
  intros Hc. induction n as [|n IH]; intros attempt w.
  - exists 0%nat. cbn. split; [apply sends_plain, appends_refl|].
    split; [lia|]. split; [discriminate | reflexivity].
  - rewrite send_blocking_loop_attempt.
    set (w1 := attempt_start force_g90 cmd attempt retries w).
    assert (H1 : appends plain w w1).
    { unfold w1, attempt_start.
      eapply appends_trans; [|apply appends_emit; exact I].
      destruct force_g90; [|apply plain_clear_alarm].
      eapply appends_trans; [|apply plain_wait_ack].
      eapply appends_trans; [|apply appends_send; reflexivity].
      apply plain_clear_alarm. }
    pose proof (plain_wait_ack ack_timeout (send cmd w1)) as H2.
    destruct (wait_ack env ack_timeout (send cmd w1)) as [ack w3]. cbn [snd] in H2.
    pose proof (plain_wait_state ["Idle"] idle_timeout w3) as H3.
    destruct (wait_state env ["Idle"] idle_timeout w3) as [ok w4]. cbn [snd] in H3.
    assert (H4 : sends (cmd ++ CRLF) 1 w w4).
    { eapply plain_then_sends; [exact H1|].
      eapply sends_then_plain; [|exact H3].
      eapply sends_then_plain; [|exact H2].
      apply sends_send. exact Hc. }
    destruct (String.eqb (last_state w4) "Alarm" || ack_is ack "alarm" || negb ok).
    + destruct (IH (attempt + 1) (hard_clear env (emit (Printed MNotClean) w4)))
        as (k & Hk & Hb & _ & Hf).
      exists (1 + k)%nat. split; [|split; [lia|split; [intros _; lia|]]].
      * eapply sends_trans; [|exact Hk].
        eapply sends_then_plain; [exact H4|].
        eapply appends_trans; [|apply plain_hard_clear]. apply appends_emit; exact I.
      * intros F. rewrite (Hf F). reflexivity.
    + exists 1%nat. cbn [fst snd].
      split; [exact H4|]. split; [lia|]. split; [lia | discriminate].
Qed.

(** *** How long the waits take at most *)

Lemma sending_wait_ack_within timeout_s w :
  0 <= timeout_s -> now (snd (wait_ack env timeout_s w)) < now w + timeout_s + 200.
Proof.
  intros Ht. unfold wait_ack, Loop.while_.
  destruct (Loop.iter _ _ _ w) as [r w'] eqn:E. cbn [snd].
  apply Loop.iter_exit in E. destruct E as [-> | (s1 & r1 & Hc & Hb)]; [lia|].
  unfold ack_cond in Hc. apply Z.ltb_lt in Hc. unfold ack_body in Hb.
  pose proof (sending_rxq_get_budget 200 s1) as Hg.
  destruct (rxq_get env 200 s1) as [q w2]. specialize (Hg _ _ eq_refl).
  assert (w' = w2) as ->.
  { destruct q as [line|]; [destruct (is_ack (lower line))|]; inversion Hb; auto. }
  destruct Hg as [(Hn & _) | (Hn & _)]; lia.
Qed.

Lemma wait_state_within targets timeout_s w :
  0 <= timeout_s ->
  now (snd (wait_state env targets timeout_s w)) < now w + timeout_s + 250.
Proof.
  intros Ht. unfold wait_state, Loop.while_.
  destruct (Loop.iter _ _ _ w) as [r w'] eqn:E.
  apply Loop.iter_exit in E.
  assert (Hw' : now w' < now w + timeout_s + 250).
  { destruct E as [-> | (s1 & r1 & Hc & Hb)]; [lia|].
    unfold ack_cond in Hc. apply Z.ltb_lt in Hc. unfold state_body, POLL_PERIOD in Hb.
    assert (w' = sleep env 250 (send "?" s1)) as ->
      by (destruct (in_targets _ _); inversion Hb; auto).
    rewrite sending_now_sleep. unfold send. cbn [now emit]. lia. }
  destruct r as [b|]; cbn [snd]; exact Hw'.
Qed.

Lemma hard_clear_within w : now (hard_clear env w) < now w + 19150.
Proof.
  unfold hard_clear.
  set (w1 := send "$X" (emit ResetInput (set_inbuf [] (sleep env 300 (emit (Wrote CTRL_X) w))))).
  assert (H1 : now w1 = now w + 300).
  { unfold w1, send. cbn [now emit set_inbuf]. rewrite sending_now_sleep. reflexivity. }
  pose proof (sending_wait_ack_within 6000 w1 ltac:(lia)) as H2.
  set (w2 := snd (wait_ack env 6000 w1)) in *.
  pose proof (sending_wait_ack_within 6000 (send "$20=0" w2) ltac:(lia)) as H3.
  set (w3 := snd (wait_ack env 6000 (send "$20=0" w2))) in *.
  pose proof (sending_wait_ack_within 3000 (send "G90" w3) ltac:(lia)) as H4.
  set (w4 := snd (wait_ack env 3000 (send "G90" w3))) in *.
  pose proof (wait_state_within ["Idle"; "Run"; "Hold"; "Jog"; "Check"] 3000 w4
                ltac:(lia)) as H5.
  unfold send in *. cbn [now emit] in *. lia.
Qed.

(** *** Success leaves the controller [Idle] *)

Lemma wait_state_idle timeout_s w w' :
  wait_state env ["Idle"] timeout_s w = (true, w') -> last_state w' = "Idle".
Proof.
  intros H. apply wait_state_true in H. destruct H as (w1 & _ & H).
  unfold in_targets in H. cbn [existsb] in H. rewrite orb_false_r in H.
  apply String.eqb_eq. exact H.
Qed.

Lemma run_macro_idle home_retries : forall todo w w',
  todo <> [] ->
  run_macro home_retries todo w = (None, w') -> last_state w' = "Idle".
Proof.
  induction todo as [|st todo IH]; intros w w' Hne H; [congruence|].
  cbn [run_macro] in H.
  destruct (run_macro_step home_retries st w) as [[|] w1] eqn:E; cbn [negb] in H.
  - destruct todo as [|st2 todo].
    + cbn in H. inversion H; subst.
      apply run_macro_step_waits in E. destruct E as (t & w0 & E).
      eapply wait_state_idle; eauto.
    + eapply IH; [discriminate | exact H].
  - unfold fail_step in H. discriminate.
Qed.

(** *** The replies [wait_ack] hands over *)

Lemma sending_wait_ack_reply timeout_s w a w' :
  wait_ack env timeout_s w = (Some a, w') ->
  is_ack a = true /\ CommonFacts.ack_line a.
Proof.
  unfold wait_ack, Loop.while_. intros H.
  apply (Loop.iter_some _ _ (fun _ _ => True)) in H; auto.
  destruct H as (w1 & _ & _ & Hb). unfold ack_body in Hb.
  destruct (rxq_get env 200 w1) as [[line|] w2]; [|discriminate].
  destruct (is_ack (lower line)) eqn:E; inversion Hb; subst.
  split; [exact E|]. split; [exact E | apply CommonFacts.lower_idem].
Qed.

(** *** What the recovery writes *)

(** Not a write. *)
Definition silent_ev (e : Event) : Prop :=
  match e with Wrote _ => False | _ => True end.

(** A status query, or not a write. *)
Definition polling_ev (e : Event) : Prop :=
  match e with Wrote b => b = ("?" ++ CRLF)%string | _ => True end.

Lemma sending_writes_app evs1 evs2 : writes (evs1 ++ evs2) = writes evs1 ++ writes evs2.
Proof. unfold writes. apply flat_map_app. Qed.

Lemma writes_silent evs : Forall silent_ev evs -> writes evs = [].
Proof.
  induction 1 as [|e evs He _ IH]; [reflexivity|].
  change (e :: evs) with ([e] ++ evs). rewrite sending_writes_app, IH.
  destruct e; cbn in *; try reflexivity. contradiction.
Qed.

Lemma writes_polling evs :
  Forall polling_ev evs -> exists k, writes evs = repeat ("?" ++ CRLF)%string k.
Proof.
  induction 1 as [|e evs He _ (k & IH)]; [exists 0%nat; reflexivity|].
  change (e :: evs) with ([e] ++ evs). rewrite sending_writes_app, IH.
  destruct e; cbn in He; try (exists k; reflexivity).
  subst. exists (S k). reflexivity.
Qed.

Lemma silent_wait_ack timeout_s w : appends silent_ev w (snd (wait_ack env timeout_s w)).
Proof. apply appends_wait_ack; cbn; auto. Qed.

Lemma polling_wait_state targets timeout_s w :
  appends polling_ev w (snd (wait_state env targets timeout_s w)).
Proof. apply appends_wait_state; cbn; auto. Qed.

(** [hard_clear] writes the soft reset, the unlock, the soft-limit setting
    and the absolute-mode command, in this order, and after them status
    queries only. *)
Lemma hard_clear_writes w :
  exists evs k,
    trace (hard_clear env w) = trace w ++ evs /\
    writes evs = [CTRL_X; ("$X" ++ CRLF); ("$20=0" ++ CRLF); ("G90" ++ CRLF)]%string
                 ++ repeat ("?" ++ CRLF)%string k.
Proof.
  unfold hard_clear.
  set (w1 := send "$X" (emit ResetInput (set_inbuf [] (sleep env 300 (emit (Wrote CTRL_X) w))))).
  assert (H1 : trace w1
               = trace w ++ [Wrote CTRL_X; Slept 300; ResetInput; Wrote ("$X" ++ CRLF)%string]).
  { unfold w1, send. cbn [trace emit set_inbuf]. rewrite sending_trace_sleep.
    cbn [trace emit]. rewrite <- !app_assoc. reflexivity. }
  destruct (silent_wait_ack 6000 w1) as (e2 & E2 & F2).
  set (w2 := snd (wait_ack env 6000 w1)) in *.
  destruct (silent_wait_ack 6000 (send "$20=0" w2)) as (e3 & E3 & F3).
  set (w3 := snd (wait_ack env 6000 (send "$20=0" w2))) in *.
  destruct (silent_wait_ack 3000 (send "G90" w3)) as (e4 & E4 & F4).
  set (w4 := snd (wait_ack env 3000 (send "G90" w3))) in *.
  destruct (polling_wait_state ["Idle"; "Run"; "Hold"; "Jog"; "Check"] 3000 w4)
    as (e5 & E5 & F5).
  destruct (writes_polling e5 F5) as (k & Hk).
  exists ([Wrote CTRL_X; Slept 300; ResetInput; Wrote ("$X" ++ CRLF)%string] ++ e2
          ++ [Wrote ("$20=0" ++ CRLF)%string] ++ e3
          ++ [Wrote ("G90" ++ CRLF)%string] ++ e4 ++ e5), k.
  split.
  - unfold send in *. cbn [trace emit] in *.
    rewrite E5, E4, E3, E2, H1, <- !app_assoc. reflexivity.
  - rewrite !sending_writes_app, (writes_silent e2 F2), (writes_silent e3 F3),
      (writes_silent e4 F4), Hk. reflexivity.
Qed.

(** [nudge_axis] switches to relative mode, writes its one move, and ends by
    switching back to absolute mode; between the move and the switch back it
    writes status queries only. *)
Lemma nudge_axis_writes axis sign feed w :
  exists evs k,
    trace (nudge_axis env repr_delta axis sign feed w) = trace w ++ evs /\
    writes evs
    = [("G91" ++ CRLF); (("G1 " ++ axis ++ repr_delta sign ++ " F" ++ str_int feed) ++ CRLF)]%string
      ++ repeat ("?" ++ CRLF)%string k ++ [("G90" ++ CRLF)%string].
Proof.
  unfold nudge_axis.
  set (move := ("G1 " ++ axis ++ repr_delta sign ++ " F" ++ str_int feed)%string).
  destruct (silent_wait_ack 3000 (send "G91" w)) as (e1 & E1 & F1).
  set (w1 := snd (wait_ack env 3000 (send "G91" w))) in *.
  destruct (silent_wait_ack 15000 (send move w1)) as (e2 & E2 & F2).
  set (w2 := snd (wait_ack env 15000 (send move w1))) in *.
  destruct (polling_wait_state ["Idle"] 20000 w2) as (e3 & E3 & F3).
  set (w3 := snd (wait_state env ["Idle"] 20000 w2)) in *.
  destruct (silent_wait_ack 3000 (send "G90" w3)) as (e4 & E4 & F4).
  destruct (writes_polling e3 F3) as (k & Hk).
  exists ([Wrote ("G91" ++ CRLF)%string] ++ e1 ++ [Wrote (move ++ CRLF)%string] ++ e2
          ++ e3 ++ [Wrote ("G90" ++ CRLF)%string] ++ e4), k.
  split.
  - unfold send in *. cbn [trace emit] in *.
    rewrite E4, E3, E2, E1, <- !app_assoc. reflexivity.
  - rewrite !sending_writes_app, (writes_silent e1 F1), (writes_silent e2 F2),
      (writes_silent e4 F4), Hk. cbn [writes flat_map app]. rewrite ?app_nil_r.
    reflexivity.
Qed.

(** *** The lines [stream_file] dispatches *)










End Main.

End SendingFacts.

(** ** Reading the controller's lines *)

Module ParsingFacts.

Import Py Common.
Open Scope string_scope.
Open Scope Z_scope.
Open Scope list_scope.

(** *** Strings *)

Lemma substring_0_app s t : String.substring 0 (String.length s) (s ++ t) = s.
Proof.
  induction s as [|c s IH]; cbn [String.length append String.substring].
  - destruct t; reflexivity.
  - rewrite IH. reflexivity.
Qed.

Lemma substring_skip s t n :
  String.substring (String.length s) n (s ++ t) = String.substring 0 n t.
Proof. induction s as [|c s IH]; cbn [String.length append String.substring]; auto. Qed.

Lemma substring_0_all t : String.substring 0 (String.length t) t = t.
Proof.
  induction t as [|c t IH]; cbn [String.length String.substring]; [reflexivity|].
  rewrite IH. reflexivity.
Qed.

Lemma length_app s t :
  String.length (s ++ t) = (String.length s + String.length t)%nat.
Proof. induction s as [|c s IH]; cbn [String.length append]; [reflexivity|]. rewrite IH. reflexivity. Qed.

Lemma length_lower s : String.length (lower s) = String.length s.
Proof. induction s as [|c s IH]; cbn [String.length lower]; [reflexivity|]. rewrite IH. reflexivity. Qed.

Lemma lower_app s t : lower (s ++ t) = (lower s ++ lower t)%string.
Proof. induction s as [|c s IH]; cbn [lower append]; [reflexivity|]. rewrite IH. reflexivity. Qed.

Lemma prefix_empty s : String.prefix "" s = true.
Proof. destruct s; reflexivity. Qed.

(** Where the first ["|"] is, when the text before it has none. *)
Lemma index_bar state rest :
  String.index 0 "|" state = None ->
  String.index 0 "|" (state ++ "|" ++ rest) = Some (String.length state).
Proof.
  induction state as [|c state IH]; intros H.
  - cbn [append String.index String.prefix].
    destruct (ascii_dec "|" "|"); [rewrite prefix_empty; reflexivity | congruence].
  - cbn [append String.index String.prefix String.length] in *.
    destruct (ascii_dec "|" c); [rewrite prefix_empty in H; discriminate|].
    destruct (String.index 0 "|" state) eqn:E; [discriminate|].
    rewrite (IH eq_refl). reflexivity.
Qed.

Lemma index_bar_none state :
  String.index 0 "|" state = None -> String.index 0 "|" (state ++ ">") = None.
Proof.
  induction state as [|c state IH]; intros H.
  - reflexivity.
  - cbn [append String.index String.prefix] in *.
    destruct (ascii_dec "|" c); [rewrite prefix_empty in H; discriminate|].
    destruct (String.index 0 "|" state) eqn:E; [discriminate|].
    rewrite (IH eq_refl). reflexivity.
Qed.

(** *** Status reports *)

Lemma startswith_lt r : startswith (String "<" r) "<" = true.
Proof.
  unfold startswith. cbn [String.prefix].
  destruct (ascii_dec "<" "<"); [apply prefix_empty | congruence].
Qed.

Lemma find_bar_report state rest :
  find state "|" = None ->
  find ("<" ++ state ++ "|" ++ rest) "|" = Some (S (String.length state)).
Proof.
  unfold find. intros H. cbn [append]. cbn [String.index String.prefix].
  destruct (ascii_dec "|" "<"); [discriminate|].
  pose proof (index_bar state rest H) as E. cbn [append] in E.
  rewrite E. reflexivity.
Qed.

Lemma slice_report state t :
  slice_1_to (String "<" (state ++ t)) (S (String.length state)) = state.
Proof.
  unfold slice_1_to.
  replace (S (String.length state) - 1)%nat with (String.length state) by lia.
  cbn [String.substring]. apply substring_0_app.
Qed.

(** [home.py], [sender.py]: a report [<State|...] sets the tracked state to
    [State]. *)
Lemma track_state_report state rest w :
  find state "|" = None ->
  track_state ("<" ++ state ++ "|" ++ rest) w = set_last_state state w.
Proof.
  intros H. unfold track_state.
  rewrite (find_bar_report state rest H). cbn [append].
  rewrite startswith_lt. cbn [Nat.ltb Nat.leb]. rewrite slice_report. reflexivity.
Qed.

(** A report [<State>], without a bar, does the same. *)
Lemma track_state_bare state w :
  find state "|" = None ->
  track_state ("<" ++ state ++ ">") w = set_last_state state w.
Proof.
  intros H. unfold track_state. cbn [append]. rewrite startswith_lt.
  assert (Hf : find (String "<" (state ++ ">")) "|" = None).
  { unfold find in *. cbn [String.index String.prefix].
    destruct (ascii_dec "|" "<"); [discriminate|].
    rewrite (index_bar_none state H). reflexivity. }
  rewrite Hf.
  assert (Hend : endswith (String "<" (state ++ ">")) ">" = true).
  { unfold endswith. cbn [String.length]. rewrite length_app. cbn [String.length].
    replace (S (String.length state + 1) - 1)%nat with (S (String.length state)) by lia.
    cbn [Nat.leb String.substring].
    rewrite substring_skip. reflexivity. }
  rewrite Hend. unfold slice_1_m1. cbn [String.length]. rewrite length_app.
  cbn [String.length].
  replace (S (String.length state + 1) - 2)%nat with (String.length state) by lia.
  cbn [String.substring]. rewrite substring_0_app. reflexivity.
Qed.

(** [sending.py]: the same report counts only when the line holds a [">"]. *)
Lemma sending_track_state_report state rest m :
  find state "|" = None ->
  Sending.track_state ("<" ++ state ++ "|" ++ rest) m
  = if contains ("<" ++ state ++ "|" ++ rest) ">"
    then Sending.set_last_state state m else m.
Proof.
  intros H. unfold Sending.track_state.
  rewrite (find_bar_report state rest H).
  destruct (contains ("<" ++ state ++ "|" ++ rest) ">"); [|rewrite andb_false_r; reflexivity].
  cbn [append]. rewrite startswith_lt. cbn [andb]. rewrite slice_report. reflexivity.
Qed.

(** The receiver of [home.py] and [sender.py] on a status report: the state
    is set and nothing is queued. *)
Lemma rx_iter_report raw state rest w :
  find state "|" = None ->
  stop w = false ->
  strip raw = ("<" ++ state ++ "|" ++ rest)%string ->
  last_state (rx_iter raw w) = state /\ rxq (rx_iter raw w) = rxq w.
Proof.
  intros H Hs E. unfold rx_iter. rewrite Hs.
  assert (truthy raw = true) as -> by (destruct raw; [discriminate | reflexivity]).
  cbn [negb]. rewrite E.
  assert (is_ack (lower ("<" ++ state ++ "|" ++ rest)) = false) as -> by reflexivity.
  rewrite (track_state_report state rest _ H). split; reflexivity.
Qed.

(** *** Alarm codes *)

(** A run of digits. *)
Fixpoint digits_only (s : string) : bool :=
  match s with
  | EmptyString => true
  | String c r => isdigit c && digits_only r
  end.

(** Blank characters only. *)
Fixpoint blanks_only (s : string) : bool :=
  match s with
  | EmptyString => true
  | String c r => isspace c && blanks_only r
  end.

Definition starts_with_digit (s : string) : bool :=
  match s with
  | EmptyString => false
  | String c _ => isdigit c
  end.

Lemma span_digits_app ds rest :
  digits_only ds = true -> starts_with_digit rest = false ->
  span_digits (ds ++ rest) = (ds, rest).
Proof.
  induction ds as [|c ds IH]; intros Hd Hr; cbn [append].
  - destruct rest as [|c r]; [reflexivity|].
    cbn [span_digits]. cbn in Hr. rewrite Hr. reflexivity.
  - cbn [digits_only] in Hd. apply andb_true_iff in Hd. destruct Hd as [Hc Hd].
    cbn [span_digits]. rewrite Hc, (IH Hd Hr). reflexivity.
Qed.

Lemma isdigit_not_space c : isdigit c = true -> isspace c = false.
Proof. destruct c as [[] [] [] [] [] [] [] []]; vm_compute; congruence. Qed.

Lemma lstrip_blanks ws s :
  blanks_only ws = true ->
  match s with EmptyString => True | String c _ => isspace c = false end ->
  lstrip (ws ++ s) = s.
Proof.
  induction ws as [|c ws IH]; intros Hw Hs; cbn [append].
  - destruct s as [|c r]; [reflexivity|]. cbn [lstrip]. rewrite Hs. reflexivity.
  - cbn [blanks_only] in Hw. apply andb_true_iff in Hw. destruct Hw as [Hc Hw].
    cbn [lstrip]. rewrite Hc. apply IH; assumption.
Qed.

Lemma drop_prefix_none p s : String.prefix p s = false -> drop_prefix p s = None.
Proof.
  revert s. induction p as [|a p IH]; intros s H;
    [rewrite prefix_empty in H; discriminate|].
  destruct s as [|b s]; [reflexivity|]. cbn [drop_prefix String.prefix] in *.
  destruct (ascii_dec a b) as [->|Hn].
  - rewrite Ascii.eqb_refl. apply IH. exact H.
  - apply Ascii.eqb_neq in Hn. rewrite Hn. reflexivity.
Qed.

Lemma prefix_substring p : forall s,
  String.prefix p (String.substring 0 (String.length p) s) = String.prefix p s.
Proof.
  induction p as [|a p IH]; intros s; [rewrite !prefix_empty; reflexivity|].
  destruct s as [|b s]; [reflexivity|].
  cbn [String.length String.substring String.prefix].
  destruct (ascii_dec a b); [apply IH | reflexivity].
Qed.

Lemma lower_substring n : forall m s,
  lower (String.substring n m s) = String.substring n m (lower s).
Proof.
  induction n as [|n IH]; intros m s.
  - revert s. induction m as [|m IHm]; intros s.
    + destruct s; reflexivity.
    + destruct s as [|c s]; [reflexivity|].
      cbn [String.substring lower]. rewrite IHm. reflexivity.
  - destruct s as [|c s]; [reflexivity|]. cbn [String.substring lower]. apply IH.
Qed.

(** The lines [parse_alarm_code] reads a code from: the word [alarm] in any
    case, an optional colon, optional blanks, and a run of digits, whatever
    follows the digits.  The code is what [int] makes of the digits. *)
Lemma parse_alarm_code_reads word colon ws ds rest :
  lower word = "alarm" ->
  blanks_only ws = true ->
  truthy ds = true -> digits_only ds = true -> starts_with_digit rest = false ->
  parse_alarm_code (word ++ (if colon : bool then ":" else "") ++ ws ++ ds ++ rest)
  = int_of_str ds.
Proof.
  intros Hw Hb Ht Hd Hr. unfold parse_alarm_code.
  assert (Hlen : String.length word = 5%nat).
  { rewrite <- (length_lower word), Hw. reflexivity. }
  set (tail := ((if colon then ":" else "") ++ ws ++ ds ++ rest)%string).
  rewrite <- Hlen at 1. rewrite substring_0_app, Hw.
  change (drop_prefix "alarm" "alarm") with (Some "").
  rewrite length_app, Hlen.
  replace (5 + String.length tail - 5)%nat with (String.length tail) by lia.
  rewrite <- Hlen, substring_skip, substring_0_all.
  assert (Hds : match (ds ++ rest)%string with
                | EmptyString => True
                | String c _ => isspace c = false
                end).
  { destruct ds as [|c ds]; [discriminate|]. cbn [append].
    cbn [digits_only] in Hd. apply andb_true_iff in Hd.
    apply isdigit_not_space. apply Hd. }
  assert (Hstrip : lstrip (match drop_prefix ":" tail with Some r => r | None => tail end)
                   = (ds ++ rest)%string).
  { unfold tail. destruct colon.
    - cbn [append drop_prefix Ascii.eqb Bool.eqb]. apply lstrip_blanks; assumption.
    - cbn [append].
      destruct (drop_prefix ":" (ws ++ ds ++ rest)) as [r|] eqn:E;
        [|apply lstrip_blanks; assumption].
      (* a colon found without one written: the blanks begin with it *)
      destruct ws as [|c ws].
      + destruct ds as [|d ds]; [discriminate|]. cbn [append drop_prefix] in E.
        cbn [digits_only] in Hd. apply andb_true_iff in Hd. destruct Hd as [Hc _].
        destruct (Ascii.eqb ":" d) eqn:Ec; [|discriminate].
        apply Ascii.eqb_eq in Ec. subst d. discriminate.
      + cbn [append drop_prefix] in E. cbn [blanks_only] in Hb.
        apply andb_true_iff in Hb. destruct Hb as [Hc _].
        destruct (Ascii.eqb ":" c) eqn:Ec; [|discriminate].
        apply Ascii.eqb_eq in Ec. subst c. discriminate. }
  rewrite Hstrip, (span_digits_app ds rest Hd Hr), Ht.
  destruct (int_of_str ds); reflexivity.
Qed.

Lemma int_of_str_short ds :
  Z.of_nat (String.length ds) <= INT_MAX_STR_DIGITS ->
  int_of_str ds = Some (int_of_digits 0 ds).
Proof. intros H. unfold int_of_str. apply Z.leb_le in H. rewrite H. reflexivity. Qed.

Lemma int_of_str_long ds :
  INT_MAX_STR_DIGITS < Z.of_nat (String.length ds) -> int_of_str ds = None.
Proof. intros H. unfold int_of_str. apply Z.leb_gt in H. rewrite H. reflexivity. Qed.

(** A line that does not begin with the word [alarm], in any case, has no
    code. *)
Lemma parse_alarm_code_other a :
  startswith (lower a) "alarm" = false -> parse_alarm_code a = None.
Proof.
  intros H. unfold parse_alarm_code, startswith in *.
  rewrite drop_prefix_none; [reflexivity|].
  rewrite lower_substring.
  change 5%nat with (String.length "alarm"). rewrite prefix_substring. exact H.
Qed.

(** *** The direction of a nudge *)

Lemma nudge_sign_parity axis attempt :
  Sending.nudge_sign axis attempt = if Z.odd attempt then -1 else 1.
Proof.
  unfold Sending.nudge_sign, Sending.initial_toward_sign.
  destruct (attempt =? 1) eqn:E1.
  - apply Z.eqb_eq in E1. subst. reflexivity.
  - rewrite Zmod_odd. destruct (Z.odd attempt); reflexivity.
Qed.

End ParsingFacts.

(** ** Concrete sessions *)

Module Scenarios.

Import Py.
Open Scope string_scope.
Open Scope Z_scope.

(** A fresh session of [home.py]/[sender.py]: nothing queued, state
    ["Unknown"], clock at 0. *)
Definition fresh : Common.World :=
  Common.mkWorld [] "Unknown" false 0 0 [] [].

(** A device that answers [ok] during every suspension of the sender. *)
Definition always_ok (k : nat) : list string := ["ok"].

(** A device that stays silent. *)
Definition silent (k : nat) : list string := [].

(** A session of [home.py]/[sender.py] whose last status report was [Idle]. *)
Definition idle_session : Common.World :=
  Common.mkWorld [] "Idle" false 0 0 [] [].

(** A device that answers [ALARM:3] during the first suspension and reports
    [Idle] from then on. *)
Definition alarm_3_first (k : nat) : list string :=
  match k with
  | O => ["ALARM:3"]
  | S _ => ["<Idle|MPos:0.000,0.000,0.000>"]
  end.

(** A device that reports [Idle] during every suspension. *)
Definition always_idle (k : nat) : list string := ["<Idle|MPos:0.000,0.000,0.000>"].

(** A device that reports [Idle] once, during the first suspension, and [Run]
    from then on. *)
Definition idle_once_then_run (k : nat) : list string :=
  match k with
  | O => ["<Idle|MPos:0.000,0.000,0.000>"]
  | S _ => ["<Run|MPos:0.000,0.000,0.000>"]
  end.

(** A queue of [home.py]/[sender.py] at its capacity of 8192: an alarm the
    sender has not taken yet, then 8191 oks. *)
Definition full_queue : list string := "alarm:1" :: repeat "ok" (Z.to_nat 8191).

Definition flooded : Common.World :=
  Common.mkWorld full_queue "Idle" false 0 0 [] [].

(** The overflow policy in the words of the specification: the oldest
    pending reply is dropped and the new one queued. *)
Definition spec_drop_oldest (q : list string) (reply : string) : list string :=
  tl q ++ [reply].

(** A session of [sending.py] with the receiver running and the machine
    [Idle]. *)
Definition idle_machine : Sending.World :=
  Sending.mkWorld [] "Idle" 0 0 [] [] [] true None.

(** A session of [sending.py] with the receiver running and no status report
    read yet. *)
Definition fresh_machine : Sending.World :=
  Sending.mkWorld [] "Unknown" 0 0 [] [] [] true None.

(** A device that answers [error:20] during every suspension. *)
Definition error_20 (k : nat) : list string := ["error:20"].

(** A device that answers [ok] and reports [Idle] during every suspension. *)
Definition ok_and_idle (k : nat) : list string :=
  ["ok"; "<Idle|MPos:0.000,0.000,0.000>"].

(** The same session with 8192 lines queued. *)
Definition flooded_machine : Sending.World :=
  Sending.mkWorld (repeat "ok" (Z.to_nat 8192)) "Idle" 0 0 [] [] [] true None.

(** A device that answers [ALARM:1] during the second suspension and is
    silent otherwise. *)
Definition alarm_on_second (k : nat) : list string :=
  match k with
  | 1%nat => ["ALARM:1"]
  | _ => []
  end.

(** A device that answers [ALARM:9] during the first suspension and reports
    [Idle] from then on. *)
Definition alarm_9_first (k : nat) : list string :=
  match k with
  | O => ["ALARM:9"]
  | S _ => ["<Idle|MPos:0.000,0.000,0.000>"]
  end.

(** A device that homes as GRBL does: it reports [Home] during the first
    suspension, and answers [ok] and reports [Idle] during every later one. *)
Definition home_then_ok (k : nat) : list string :=
  match k with
  | O => ["<Home|MPos:0.000,0.000,0.000>"]
  | S _ => ["ok"; "<Idle|MPos:0.000,0.000,0.000>"]
  end.

(** A work queue: [%%HOME], a line, the end of input. *)
Definition home_and_line : Common.WorkQueue :=
  [(0%nat, Common.IHome); (0%nat, Common.IGcode "G0 X1"); (0%nat, Common.IEof)].

(** A run of 4301 digits, one more than [int] converts. *)
Definition digits_4301 : string := string_of_list_ascii (repeat "1"%char 4301).

(** How Python prints [sign * nudge_dist] for the default [nudge_dist] of
    1.0. *)
Definition repr_unit (sign : Z) : string := if sign <? 0 then "-1.0" else "1.0".

End Scenarios.

(** * The claims *)

Module Claims.

Import Py Common CommonFacts.
Open Scope string_scope.
Open Scope Z_scope.
Open Scope list_scope.




(** C10.  [send_gcode] returns an outcome only when [retries >= 1].  With
    [retries <= 0] the [for] loop runs no attempt, [ack] is never assigned, and
    the [return] raises [UnboundLocalError] with nothing written. *)
Theorem send_gcode_needs_an_attempt :
  forall env gcode retries ack_timeout w,
  (retries <= 0 ->
     send_gcode env gcode retries ack_timeout w = (Raise UnboundLocalError, w)) /\
  (1 <= retries ->
     exists ok last w',
       send_gcode env gcode retries ack_timeout w = (Ret (ok, last), w')).
Proof.
  intros env gcode retries ack_timeout w. split.
  - intros Hr. unfold send_gcode.
    replace (Z.to_nat retries) with 0%nat by lia. reflexivity.
  - intros Hr. unfold send_gcode.
    destruct (send_gcode_loop_spec env gcode retries ack_timeout
                (Z.to_nat retries) 1 None w)
      as (ok & last & w' & _ & _ & Hrun & _); [lia | intros E; lia |].
    exists ok, last, w'. exact Hrun.
Qed.

(** C2, as the code has it.  In [home.py] and [sender.py], [wait_until_idle]
    answers [True] only after two reads of [Idle]: the first at a world [w1]
    reached after the status request and the poll interval that open the
    call, the second after a further poll interval, a fresh status request
    and a 20 ms pause.  And when the state has left [Idle] by the second read,
    that turn of the loop declares nothing: the loop goes on from there.  In
    [sending.py], [wait_state] answers [True] on one read: as soon as the
    state read after a status query and a poll period is one of its targets,
    and only then. *)
Theorem wait_until_idle_double_check :
  forall env timeout_s w,
  (forall w',
     wait_until_idle env timeout_s w = (true, w') ->
     exists w1,
       later (sleep env POLL_INTERVAL_S (request_status w)) w1 /\
       last_state w1 = "Idle" /\
       w' = sleep env 20 (request_status (sleep env POLL_INTERVAL_S w1)) /\
       last_state w' = "Idle") /\
  (forall w1,
     last_state w1 = "Idle" ->
     last_state (confirm env w1) <> "Idle" ->
     idle_body env w1 = (None, confirm env w1)) /\
  (forall targets m,
     0 < timeout_s ->
     Sending.in_targets targets
       (Sending.sleep env Sending.POLL_PERIOD (Sending.send "?" m)) = true ->
     Sending.wait_state env targets timeout_s m
     = (true, Sending.sleep env Sending.POLL_PERIOD (Sending.send "?" m))) /\
  (forall targets m m',
     Sending.wait_state env targets timeout_s m = (true, m') ->
     exists m1,
       m' = Sending.sleep env Sending.POLL_PERIOD (Sending.send "?" m1) /\
       Sending.in_targets targets m' = true).
Proof.
  intros env timeout_s w. split; [|split; [|split]].
  - intros w' H. apply wait_until_idle_true in H.
    destruct H as (w1 & Hl & H1 & Hw' & H2).
    exists w1. unfold is_idle in *.
    apply String.eqb_eq in H1. apply String.eqb_eq in H2. auto.
  - intros w1 H1 H2. unfold idle_body, confirm, is_idle in *.
    apply String.eqb_eq in H1. rewrite H1.
    apply String.eqb_neq in H2. rewrite H2. reflexivity.
  - intros targets m Ht Hin. apply SendingFacts.wait_state_first_poll; assumption.
  - intros targets m m' H. eapply SendingFacts.wait_state_true. exact H.
Qed.

Lemma wait_until_idle_double_check_witness :
  (exists w1,
     later (sleep Scenarios.always_idle POLL_INTERVAL_S (request_status Scenarios.fresh)) w1 /\
     last_state w1 = "Idle" /\
     last_state (snd (wait_until_idle Scenarios.always_idle 180000 Scenarios.fresh)) = "Idle") /\
  fst (Sending.wait_state Scenarios.always_idle ["Idle"] 180000 Scenarios.fresh_machine)
  = true.
Proof.
  split.
  - destruct (proj1 (wait_until_idle_double_check Scenarios.always_idle 180000
                       Scenarios.fresh)
                (snd (wait_until_idle Scenarios.always_idle 180000 Scenarios.fresh)))
      as (w1 & Hl & H1 & _ & H2).
    + vm_compute. reflexivity.
    + exists w1. auto.
  - destruct (wait_until_idle_double_check Scenarios.always_idle 180000 Scenarios.fresh)
      as (_ & _ & Hfirst & _).
    rewrite (Hfirst ["Idle"] Scenarios.fresh_machine);
      [reflexivity | reflexivity | vm_compute; reflexivity].
Defined.

(** C2 as stated fails on [sending.py].  With a device that reports [Idle]
    once and [Run] from then on, [wait_state] answers [True] on that one report,
    after a single status query and no confirmation; [wait_until_idle] of
    [home.py], with the same device, does not. *)
Lemma wait_state_accepts_one_idle_report :
  Scenarios.idle_once_then_run 1%nat = ["<Run|MPos:0.000,0.000,0.000>"] /\
  fst (Sending.wait_state Scenarios.idle_once_then_run ["Idle"] 30000
         Scenarios.fresh_machine) = true /\
  Sending.trace (snd (Sending.wait_state Scenarios.idle_once_then_run ["Idle"] 30000
                        Scenarios.fresh_machine))
  = [Sending.Wrote ("?" ++ CRLF)%string; Sending.Slept 250] /\
  fst (wait_until_idle Scenarios.idle_once_then_run 30000 Scenarios.fresh) = false.
Proof. vm_compute. repeat split; reflexivity. Qed.

(** C9.  When [unlock_after_alarm] returns, [_rxq] is empty, whatever it held
    at the call.  So the reply that [wait_ack] hands to a command sent after
    the unlock is a line the receiver read from the port during a suspension
    that began after the unlock had returned. *)
Theorem unlock_after_alarm_drains :
  forall env w,
  rxq (unlock_after_alarm env w) = [] /\
  (forall cmd timeout_s a w',
     wait_ack env timeout_s (send_line cmd (unlock_after_alarm env w)) = (Some a, w') ->
     exists k raw,
       (tick (unlock_after_alarm env w) <= k)%nat /\ In raw (env k) /\
       a = lower (strip raw)).
Proof.
  intros env w. destruct (unlock_after_alarm_rxq env w) as (E & _).
  split; [exact E|].
  intros cmd timeout_s a w' H.
  apply wait_ack_fresh in H; [|autorewrite with world; exact E].
  autorewrite with world in H. exact H.
Qed.

(** C1, as the code has it.  On a queue of plain lines closed by the
    end-of-input sentinel, with [line_retries >= 1], [_sender_loop] of [home.py]
    adds to the trace one block per line, in queue order.  The writes, over
    the whole run, are the lines in that order, each between one and
    [line_retries] times.  In the block of a line an ok reply was taken from
    the queue, or the line was tried [line_retries] times, before the next line
    is written.  And no prefix of the run has a write made while another
    command awaits its reply.  With [line_retries <= 0] the first line makes
    [send_gcode] raise: the loop ends there, with nothing written and the rest
    of the queue not taken.  A [%%HOME] item is served in its place: the
    macro runs when the item is taken and the loop goes on to the next item
    when the macro has answered [True].  Within the macro a homing step can
    answer [True] with no reply taken: the step counts as started once the
    state is not [Idle], and then only the wait for motion decides. *)
Theorem sender_loop_in_order_one_in_flight :
  forall env homing_retries ack_timeout line_retries,
  (forall cmds d rest w,
     1 <= line_retries ->
     stop w = false ->
     exists w' blocks counts,
       Home._sender_loop env homing_retries ack_timeout line_retries
         (map SenderLoopFacts.gcode_item cmds ++ (d, IEof) :: rest) w = (ExitEof, rest, w') /\
       trace w' = trace w ++ List.concat blocks /\
       Forall2 (SenderLoopFacts.served line_retries) (map snd cmds) blocks /\
       List.length counts = List.length cmds /\
       Forall (fun n => (1 <= n)%nat /\ Z.of_nat n <= line_retries) counts /\
       writes (List.concat blocks) =
         flat_map (fun p => repeat (terminated (fst p)) (snd p))
                  (combine (map snd cmds) counts) /\
       (forall pre post, List.concat blocks = pre ++ post -> flights Clear pre <> Piped)) /\
  (forall d line rest w,
     line_retries <= 0 ->
     stop w = false ->
     exists w',
       Home._sender_loop env homing_retries ack_timeout line_retries
         ((d, IGcode line) :: rest) w = (ExitCrash UnboundLocalError, rest, w') /\
       trace w' = trace w) /\
  (forall d rest w w1 w2,
     poll_empty env d w = (false, w1) ->
     Home._perform_home_sequence env homing_retries (emit (Printed MHomeBegin) w1)
       = (Ret true, w2) ->
     Home._sender_loop env homing_retries ack_timeout line_retries ((d, IHome) :: rest) w
     = Home._sender_loop env homing_retries ack_timeout line_retries rest
         (emit (Printed MHomeDone) w2)) /\
  (forall n i max_tries cmd t w w1 w2,
     Home.homing_start env cmd i max_tries w = (true, None, w1) ->
     wait_motion_complete env 2000 (Z.max t 300000) w1 = (true, w2) ->
     Home.homing_loop env (S n) i max_tries cmd t w = (true, w2)).
Proof.
  intros env homing_retries ack_timeout line_retries.
  split; [|split; [|split]].
  - intros cmds d rest w Hr Hs.
    destruct (SenderLoopFacts.home_sender_loop_gcodes env homing_retries ack_timeout
                line_retries d rest Hr cmds w Hs) as (w' & blocks & Hrun & Htr & Hall).
    destruct (SenderLoopFacts.served_blocks_writes _ _ _ Hall) as (counts & Hlen & Hc & Hw).
    exists w', blocks, counts.
    rewrite length_map in Hlen.
    repeat split; auto.
    apply flights_never_piped.
    eapply SenderLoopFacts.served_blocks_clear; eauto.
  - intros d line rest w Hr Hs.
    destruct (SenderLoopFacts.poll_empty_running env d w Hs) as (w1 & Hp & Ht & _).
    exists w1. split; [|exact Ht].
    cbn [Home._sender_loop]. rewrite Hp. cbn beta iota.
    unfold send_gcode. replace (Z.to_nat line_retries) with 0%nat by lia.
    reflexivity.
  - intros d rest w w1 w2 Hp Hm.
    cbn [Home._sender_loop]. rewrite Hp. cbn beta iota. rewrite Hm. reflexivity.
  - intros n i max_tries cmd t w w1 w2 Hs Hw.
    cbn [Home.homing_loop]. rewrite Hs. cbn [Home.is_fault andb negb]. rewrite Hw.
    reflexivity.
Qed.

Lemma sender_loop_in_order_one_in_flight_witness :
  1 <= 1 /\ stop Scenarios.fresh = false /\
  (exists w',
     Home._sender_loop Scenarios.always_ok 5 12000 1
       [(0%nat, IGcode "G0 X1"); (2%nat, IGcode "G0 X2"); (0%nat, IEof)]
       Scenarios.fresh = (ExitEof, [], w')) /\
  0 <= 0 /\
  (exists w',
     Home._sender_loop Scenarios.always_ok 5 12000 0
       [(0%nat, IGcode "G0 X1"); (0%nat, IEof)] Scenarios.fresh
     = (ExitCrash UnboundLocalError, [(0%nat, IEof)], w') /\
     trace w' = trace Scenarios.fresh) /\
  Home._sender_loop Scenarios.home_then_ok 5 12000 1 Scenarios.home_and_line
    Scenarios.idle_session
  = Home._sender_loop Scenarios.home_then_ok 5 12000 1 (tl Scenarios.home_and_line)
      (emit (Printed MHomeDone)
         (snd (Home._perform_home_sequence Scenarios.home_then_ok 5
                 (emit (Printed MHomeBegin) Scenarios.idle_session)))) /\
  Home.homing_start Scenarios.home_then_ok "$HZ" 1 5 Scenarios.idle_session
  = (true, None,
     snd (Home.homing_start Scenarios.home_then_ok "$HZ" 1 5 Scenarios.idle_session)) /\
  Home.homing_loop Scenarios.home_then_ok 5 1 5 "$HZ" 20000 Scenarios.idle_session
  = (true,
     snd (wait_motion_complete Scenarios.home_then_ok 2000 300000
            (snd (Home.homing_start Scenarios.home_then_ok "$HZ" 1 5
                    Scenarios.idle_session)))).
Proof.
  assert (Hs : Home.homing_start Scenarios.home_then_ok "$HZ" 1 5 Scenarios.idle_session
               = (true, None,
                  snd (Home.homing_start Scenarios.home_then_ok "$HZ" 1 5
                         Scenarios.idle_session)))
    by (vm_compute; reflexivity).
  split; [lia|]. split; [reflexivity|].
  split; [|split; [lia|split; [|split; [|split; [exact Hs|]]]]].
  - destruct (proj1 (sender_loop_in_order_one_in_flight Scenarios.always_ok 5 12000 1)
                [(0%nat, "G0 X1"); (2%nat, "G0 X2")] 0%nat [] Scenarios.fresh)
      as (w' & _ & _ & H & _); [lia | reflexivity |].
    exists w'. exact H.
  - destruct (sender_loop_in_order_one_in_flight Scenarios.always_ok 5 12000 0)
      as (_ & H0 & _).
    apply (H0 0%nat "G0 X1" [(0%nat, IEof)] Scenarios.fresh); [lia | reflexivity].
  - destruct (sender_loop_in_order_one_in_flight Scenarios.home_then_ok 5 12000 1)
      as (_ & _ & Hh & _).
    apply (Hh 0%nat (tl Scenarios.home_and_line) Scenarios.idle_session
              Scenarios.idle_session); [reflexivity | vm_compute; reflexivity].
  - destruct (sender_loop_in_order_one_in_flight Scenarios.home_then_ok 5 12000 1)
      as (_ & _ & _ & Hm).
    apply (Hm 4%nat 1 5 "$HZ" 20000 Scenarios.idle_session _ _ Hs).
    vm_compute. reflexivity.
Defined.

(** C1 as stated fails on the [%%HOME] branch of [_sender_loop].  The device
    reports [Home] after the homing command and sends its [ok] later: the step
    counts as started with no reply taken, the waits see [Idle], and the macro
    writes its move while the homing command still awaits its reply.  The
    first reply taken comes after both writes, and the run ends normally. *)
Lemma home_macro_writes_before_the_reply :
  fst (Home._sender_loop Scenarios.home_then_ok 5 12000 1 Scenarios.home_and_line
         Scenarios.idle_session)
  = (ExitEof, []) /\
  firstn 3 (filter is_exchange (trace (snd
    (Home._sender_loop Scenarios.home_then_ok 5 12000 1 Scenarios.home_and_line
       Scenarios.idle_session))))
  = [Wrote (terminated "$HZ"); Wrote (terminated "g0 z180"); Got "ok"] /\
  flights Clear (trace (snd
    (Home._sender_loop Scenarios.home_then_ok 5 12000 1 Scenarios.home_and_line
       Scenarios.idle_session)))
  = Piped.
Proof. vm_compute. repeat split. Qed.

(** C8.  When the sender takes a [%%HOME] item from the queue and the homing
    macro fails, [_sender_loop] (of [home.py] and of [sender.py]) prints the
    failure, sets [_stop] and returns: the items still queued are left in the
    queue, and nothing is written after the macro's last action. *)
Theorem failed_home_discards_the_queue :
  forall env homing_retries ack_timeout line_retries d rest w w1,
  poll_empty env d w = (false, w1) ->
  (forall w2,
     Home._perform_home_sequence env homing_retries (emit (Printed MHomeBegin) w1)
       = (Ret false, w2) ->
     exists w',
       Home._sender_loop env homing_retries ack_timeout line_retries
         ((d, IHome) :: rest) w = (ExitAbort, rest, w') /\
       stop w' = true /\ trace w' = trace w2 ++ [Printed MHomeFailed]) /\
  (forall w2,
     Sender._perform_home_sequence env homing_retries (emit (Printed MHomeBegin) w1)
       = (Ret false, w2) ->
     exists w',
       Sender._sender_loop env homing_retries ack_timeout line_retries
         ((d, IHome) :: rest) w = (ExitAbort, rest, w') /\
       stop w' = true /\ trace w' = trace w2 ++ [Printed MHomeFailed]).
Proof.
  intros env homing_retries ack_timeout line_retries d rest w w1 Hp. split; intros w2 H.
  - exists (set_stop (emit (Printed MHomeFailed) w2)).
    split; [|split; reflexivity].
    eapply SenderLoopFacts.home_sender_loop_abort; eauto.
  - exists (set_stop (emit (Printed MHomeFailed) w2)).
    split; [|split; reflexivity].
    eapply SenderLoopFacts.sender_sender_loop_abort; eauto.
Qed.

Lemma failed_home_discards_the_queue_witness :
  (exists w',
     Home._sender_loop Scenarios.alarm_3_first 5 12000 1
       [(0%nat, IHome); (0%nat, IGcode "G0 X1"); (0%nat, IEof)] Scenarios.idle_session
     = (ExitAbort, [(0%nat, IGcode "G0 X1"); (0%nat, IEof)], w') /\ stop w' = true) /\
  (exists w',
     Sender._sender_loop Scenarios.alarm_3_first 5 12000 1
       [(0%nat, IHome); (0%nat, IGcode "G0 X1"); (0%nat, IEof)] Scenarios.idle_session
     = (ExitAbort, [(0%nat, IGcode "G0 X1"); (0%nat, IEof)], w') /\ stop w' = true).
Proof.
  pose proof (failed_home_discards_the_queue Scenarios.alarm_3_first 5 12000 1 0%nat
                [(0%nat, IGcode "G0 X1"); (0%nat, IEof)]
                Scenarios.idle_session Scenarios.idle_session eq_refl) as [Hh Hs].
  split.
  - destruct (Hh (snd (Home._perform_home_sequence Scenarios.alarm_3_first 5
                         (emit (Printed MHomeBegin) Scenarios.idle_session))))
      as (w' & H1 & H2 & _); [vm_compute; reflexivity|].
    exists w'. auto.
  - destruct (Hs (snd (Sender._perform_home_sequence Scenarios.alarm_3_first 5
                         (emit (Printed MHomeBegin) Scenarios.idle_session))))
      as (w' & H1 & H2 & _); [vm_compute; reflexivity|].
    exists w'. auto.
Defined.

(** C6, as the code has it.  In [home.py] and [sender.py] the receiver offers
    each reply with a [put] that waits at most 0.1 s.  With room in the queue
    the reply is queued last.  On a full queue the incoming reply is the one
    dropped: the pending replies stay as they were, oldest first, and the
    warning is printed.  Either way the receiver goes on: it reads every line
    it is handed, whatever the queue holds.  In [sending.py] the [put] has no
    timeout: on a full queue the receiver stays in the call with the line in
    hand, the queue unchanged and the following lines unread. *)
Theorem receiver_overflow_drops_incoming :
  forall raw w,
  stop w = false -> truthy raw = true -> is_ack (lower (strip raw)) = true ->
  (Z.of_nat (List.length (rxq w)) < RXQ_MAXSIZE ->
     rxq (rx_iter raw w) = rxq w ++ [lower (strip raw)] /\
     rx_out (rx_iter raw w) = rx_out w ++ [REcho (strip raw)]) /\
  (RXQ_MAXSIZE <= Z.of_nat (List.length (rxq w)) ->
     rxq (rx_iter raw w) = rxq w /\
     rx_out (rx_iter raw w) = rx_out w ++ [REcho (strip raw); RQueueFull]) /\
  (forall lines r,
     In r lines -> truthy r = true ->
     In (REcho (strip r)) (rx_out (_rx_loop lines (rx_iter raw w)))) /\
  (forall rest m,
     Sending.rx_held m = None -> truthy (strip raw) = true ->
     Sending.has_room m = false ->
     Sending.rxq (Sending.rx_read (raw :: rest) m) = Sending.rxq m /\
     Sending.rx_held (Sending.rx_read (raw :: rest) m) = Some (strip raw) /\
     Sending.inbuf (Sending.rx_read (raw :: rest) m) = rest).
Proof.
  intros raw w Hs Ht Ha. rewrite (rx_iter_ack raw w Hs Ht Ha). unfold rxq_put.
  rewrite rxq_track_state. cbn [rxq rx_print].
  split; [|split; [|split]].
  - intros Hroom. apply Z.ltb_lt in Hroom. rewrite Hroom.
    cbn [rxq rx_out set_rxq]. rewrite rx_out_track_state. auto.
  - intros Hfull. apply Z.ltb_ge in Hfull. rewrite Hfull.
    cbn [rxq rx_out rx_print]. rewrite rxq_track_state, rx_out_track_state.
    cbn [rxq rx_out rx_print]. rewrite <- app_assoc. auto.
  - intros lines r Hin Hr. apply rx_loop_reads_all; auto.
    destruct (Z.of_nat (List.length (rxq w)) <? RXQ_MAXSIZE);
      cbn [stop set_rxq rx_print]; rewrite stop_track_state; exact Hs.
  - intros rest m Hh Htr Hroom. cbn [Sending.rx_read]. rewrite Hh.
    rewrite (SendingFacts.rx_iter_full raw m Htr Hroom).
    erewrite SendingFacts.rx_read_held by reflexivity.
    cbn [Sending.rxq Sending.rx_held Sending.inbuf Sending.set_inbuf Sending.set_rx_held].
    rewrite SendingFacts.sending_rxq_track_state. auto.
Qed.

Lemma receiver_overflow_drops_incoming_witness :
  rxq (rx_iter "ok" Scenarios.fresh) = ["ok"] /\
  rxq (rx_iter "error:5" Scenarios.flooded) = Scenarios.full_queue.
Proof.
  split.
  - apply (receiver_overflow_drops_incoming "ok" Scenarios.fresh);
      [reflexivity | reflexivity | reflexivity | vm_compute; reflexivity].
  - apply (receiver_overflow_drops_incoming "error:5" Scenarios.flooded);
      [reflexivity | reflexivity | reflexivity | vm_compute; discriminate].
Defined.

(** C6 as stated fails.  On a queue at capacity the receiver of [home.py]
    keeps the oldest reply and drops the incoming one, where the claim has
    the oldest dropped and the new one queued; and the receiver of
    [sending.py] blocks in its [put], the next line left unread. *)
Lemma receiver_overflow_keeps_oldest :
  hd "" (rxq (rx_iter "error:5" Scenarios.flooded)) = "alarm:1" /\
  last (rxq (rx_iter "error:5" Scenarios.flooded)) "" = "ok" /\
  hd "" (Scenarios.spec_drop_oldest Scenarios.full_queue "error:5") = "ok" /\
  last (Scenarios.spec_drop_oldest Scenarios.full_queue "error:5") "" = "error:5" /\
  rx_out (rx_iter "error:5" Scenarios.flooded) = [REcho "error:5"; RQueueFull] /\
  Sending.rx_held (Sending.rx_read ["error:5"; "ok"] Scenarios.flooded_machine)
    = Some "error:5" /\
  Sending.inbuf (Sending.rx_read ["error:5"; "ok"] Scenarios.flooded_machine) = ["ok"].
Proof. vm_compute. repeat split; reflexivity. Qed.

(** C7, as the code has it.  [stream_file] prints the start marker exactly
    once in every run, and the end marker exactly once when it returns [True]
    and not at all when it returns [False].  A line that is blank or begins
    with ["("] or [";"] is passed over with nothing sent.  A file of such lines
    only streams with nothing dispatched, between the start and the end marker,
    and reports success. *)
Theorem stream_file_markers_and_comments :
  forall env path size file line_retries w,
  (exists evs,
     Sending.trace (snd (Sending.stream_file env path size file line_retries w))
       = Sending.trace w ++ evs /\
     SendingFacts.count SendingFacts.is_start evs = 1%nat /\
     SendingFacts.count SendingFacts.is_end evs =
       if fst (Sending.stream_file env path size file line_retries w)
       then 1%nat else 0%nat) /\
  (forall raw rest lineno w0,
     strip raw = "" \/ startswith raw "(" = true \/ startswith raw ";" = true ->
     Sending.stream_lines env (raw :: rest) lineno line_retries w0
     = Sending.stream_lines env rest (S lineno) line_retries w0) /\
  (forall lines,
     Forall (fun raw => strip raw = "" \/ startswith raw "(" = true \/
                        startswith raw ";" = true) lines ->
     Sending.stream_file env path size (Some lines) line_retries w
     = (true, Sending.emit (Sending.Printed Sending.MEnd)
                (SendingFacts.preamble env path size w))).
Proof.
  intros env path size file line_retries w. split; [|split].
  - apply SendingFacts.stream_file_markers.
  - intros raw rest lineno w0 H. apply SendingFacts.stream_lines_skip.
    apply SendingFacts.comment_line. exact H.
  - intros lines H.
    assert (Hc : Forall (fun raw => Sending.is_comment (strip raw) = true) lines).
    { eapply Forall_impl; [|exact H]. intros raw. apply SendingFacts.comment_line. }
    unfold Sending.stream_file. fold (SendingFacts.preamble env path size w).
    rewrite SendingFacts.preview_comments by exact Hc.
    rewrite SendingFacts.stream_lines_comments by exact Hc. reflexivity.
Qed.

(** C7 as stated fails.  With [line_retries = 0], a file of one command and a
    device that answers it with an alarm, [stream_file] returns [False] having
    printed the start marker once and the end marker never. *)
Lemma stream_file_abort_has_no_end_marker :
  fst (Sending.stream_file Scenarios.alarm_on_second "job.nc" None (Some ["G0 X1"]) 0
         Scenarios.idle_machine) = false /\
  SendingFacts.count SendingFacts.is_start
    (Sending.trace (snd (Sending.stream_file Scenarios.alarm_on_second "job.nc" None
                           (Some ["G0 X1"]) 0 Scenarios.idle_machine))) = 1%nat /\
  SendingFacts.count SendingFacts.is_end
    (Sending.trace (snd (Sending.stream_file Scenarios.alarm_on_second "job.nc" None
                           (Some ["G0 X1"]) 0 Scenarios.idle_machine))) = 0%nat.
Proof. vm_compute. repeat split; reflexivity. Qed.

(** C3, as the code has it.  In [home.py] and [sender.py] the alarm codes 8
    and 9, and no others, are recoverable during a homing step: the step
    unlocks with [$X], pauses and tries the same command again.  A reply with
    any other alarm code, or an Error reply, ends the step with [False] at once
    with nothing written after the reply, and the macro then prints its abort
    and returns [False] without running a later step.  The reply in question
    is, in [sender.py], the one [send_gcode] returns for the homing command,
    and in [home.py] the one the watch loop of the try has taken without
    having seen the controller start.  In [sending.py] an
    attempt of [homing_step] that did not end with an ok and [Idle], whatever
    the alarm code of the reply, is followed by a recovery that resets and
    unlocks the controller (and nudges the axis when the reply names alarm 8
    or 9) and by another attempt of the same step. *)
Theorem homing_alarm_policy :
  forall env repr_delta,
  (forall a,
     recoverable (parse_alarm_code a) = true <->
     parse_alarm_code a = Some 8 \/ parse_alarm_code a = Some 9) /\
  (forall a, startswith a "error" = true -> recoverable (parse_alarm_code a) = false) /\
  (forall n i max_tries cmd t w ack w1,
     send_gcode env cmd 1 t w = (Ret (false, ack), w1) ->
     Sender.homing_loop env (S n) i max_tries cmd t w =
     if recoverable (parse_alarm_code ack)
     then Sender.homing_loop env n (i + 1) max_tries cmd t
            (HomingFacts.unlocked env (parse_alarm_code ack) i max_tries w1)
     else (Ret false, emit (Printed (MNonRecoverable ack)) w1)) /\
  (forall n i max_tries cmd t w a w1,
     Home.homing_start env cmd i max_tries w = (false, Some a, w1) ->
     truthy a && (startswith a "alarm" || startswith a "error") = true ->
     Home.homing_loop env (S n) i max_tries cmd t w =
     if recoverable (parse_alarm_code a)
     then Home.homing_loop env n (i + 1) max_tries cmd t
            (HomingFacts.unlocked env (parse_alarm_code a) i max_tries w1)
     else (false, emit (Printed (MNonRecoverable a)) w1)) /\
  (forall homing homing_retries st todo w w1,
     run_step env homing homing_retries st w = (Ret false, w1) ->
     run_steps env homing homing_retries (st :: todo) w
     = (Ret false, emit (Printed MSeqAborted) w1)) /\
  (forall n attempt retries cmd ax nudge_feed w ack ok_idle w1,
     Sending.homing_attempt env cmd attempt retries w = (ack, ok_idle, w1) ->
     Sending.ack_is ack "ok" && ok_idle = false ->
     Sending.homing_loop env repr_delta (S n) attempt retries cmd ax nudge_feed w
     = Sending.homing_loop env repr_delta n (attempt + 1) retries cmd ax nudge_feed
         (SendingFacts.recovery env repr_delta ack ax attempt nudge_feed w1) /\
     exists evs,
       Sending.trace (SendingFacts.recovery env repr_delta ack ax attempt nudge_feed w1)
         = Sending.trace w1 ++ evs /\
       In (Sending.Wrote CTRL_X) evs /\
       In (Sending.Wrote ("$X" ++ CRLF)%string) evs).
Proof.
  intros env repr_delta.
  split; [|split; [|split; [|split; [|split]]]].
  - intros a. apply HomingFacts.recoverable_iff.
  - intros a H. rewrite (HomingFacts.parse_alarm_code_error _ H). reflexivity.
  - intros. apply HomingFacts.sender_homing_try. assumption.
  - intros. apply HomingFacts.home_homing_try; assumption.
  - intros. apply HomingFacts.run_steps_abort. assumption.
  - intros. split.
    + eapply SendingFacts.homing_loop_retry; eassumption.
    + apply SendingFacts.recovery_unlocks.
Qed.

Lemma homing_alarm_policy_witness :
  recoverable (parse_alarm_code "alarm:9") = true /\
  Home.send_homing_with_retries Scenarios.alarm_3_first "$HZ" 5 20000 Scenarios.idle_session
  = (Ret false,
     emit (Printed (MNonRecoverable "alarm:3"))
       (snd (Home.homing_start Scenarios.alarm_3_first "$HZ" 1 5 Scenarios.idle_session))).
Proof.
  destruct (homing_alarm_policy Scenarios.alarm_3_first Scenarios.repr_unit)
    as (Hiff & _ & _ & Hhome & _).
  split.
  - apply Hiff. right. reflexivity.
  - unfold Home.send_homing_with_retries. change (Z.to_nat 5) with 5%nat.
    rewrite (Hhome 4%nat 1 5 "$HZ" 20000 Scenarios.idle_session "alarm:3"
               (snd (Home.homing_start Scenarios.alarm_3_first "$HZ" 1 5
                       Scenarios.idle_session)));
      [reflexivity | vm_compute; reflexivity | reflexivity].
Defined.

(** C3 as stated fails on [sending.py].  Its [homing_step], answered
    [ALARM:3], does not fail at once: it resets the controller, unlocks it with
    [$X], disables the soft limits, forces absolute mode, and sends the homing
    command again. *)
Lemma homing_step_retries_after_alarm_3 :
  firstn 8 (SendingFacts.writes (Sending.trace (snd
    (Sending.homing_step Scenarios.alarm_3_first Scenarios.repr_unit "$HZ" 2 1000
       Scenarios.idle_machine))))
  = [ ("$HZ" ++ CRLF)%string; ("?" ++ CRLF)%string; CTRL_X; ("$X" ++ CRLF)%string;
      ("$20=0" ++ CRLF)%string; ("G90" ++ CRLF)%string; ("?" ++ CRLF)%string;
      ("$HZ" ++ CRLF)%string ].
Proof. vm_compute. reflexivity. Qed.



(** X1.  The waits report a timeout only once their time is up.  [wait_ack]
    (of [home.py] and [sender.py], and of [sending.py]) answers [None] only
    when the clock has reached its deadline; [wait_until_idle] and
    [wait_state] answer [False] only when [timeout_s] have passed since the
    call. *)
Theorem timeouts_wait_their_time :
  forall env,
  (forall timeout_s w w',
     wait_ack env timeout_s w = (None, w') -> now w + timeout_s <= now w') /\
  (forall timeout_s w w',
     wait_until_idle env timeout_s w = (false, w') -> now w + timeout_s <= now w') /\
  (forall timeout_s m m',
     Sending.wait_ack env timeout_s m = (None, m') ->
     Sending.now m + timeout_s <= Sending.now m') /\
  (forall targets timeout_s m m',
     Sending.wait_state env targets timeout_s m = (false, m') ->
     Sending.now m + timeout_s <= Sending.now m').
Proof.
  intros env. split; [|split; [|split]].
  - intros timeout_s w w'. apply wait_ack_none.
  - intros timeout_s w w'. apply wait_until_idle_false.
  - intros timeout_s m m'. apply SendingFacts.sending_wait_ack_none.
  - intros targets timeout_s m m'. apply SendingFacts.wait_state_false.
Qed.

Lemma timeouts_wait_their_time_witness :
  fst (wait_ack Scenarios.silent 12000 Scenarios.fresh) = None /\
  12000 <= now (snd (wait_ack Scenarios.silent 12000 Scenarios.fresh)).
Proof.
  assert (H : wait_ack Scenarios.silent 12000 Scenarios.fresh
              = (None, snd (wait_ack Scenarios.silent 12000 Scenarios.fresh)))
    by (vm_compute; reflexivity).
  split.
  - rewrite H. reflexivity.
  - apply (proj1 (timeouts_wait_their_time Scenarios.silent) 12000 Scenarios.fresh _ H).
Defined.

End Claims.

(** * Further properties of the three scripts *)

Module Extras.

Import Py Common CommonFacts.
Open Scope string_scope.
Open Scope Z_scope.
Open Scope list_scope.

(** X2.  A homing or move step writes its command at most as many times as
    it has tries, and at least once when it succeeds; between those writes it
    writes no other homing or move command.  In [sending.py] a step that fails
    has used all its tries. *)
Theorem step_command_tries_bounded :
  forall env repr_delta,
  (forall cmd max_tries t w,
     is_step_cmd (terminated cmd) = true ->
     exists k,
       runs (terminated cmd) k w (snd (Home.send_homing_with_retries env cmd max_tries t w)) /\
       Z.of_nat k <= Z.max 0 max_tries /\
       (fst (Home.send_homing_with_retries env cmd max_tries t w) = Ret true ->
        (1 <= k)%nat)) /\
  (forall cmd max_tries t w,
     is_step_cmd (terminated cmd) = true ->
     exists k,
       runs (terminated cmd) k w
         (snd (Sender.send_homing_with_retries env cmd max_tries t w)) /\
       Z.of_nat k <= Z.max 0 max_tries /\
       (fst (Sender.send_homing_with_retries env cmd max_tries t w) = Ret true ->
        (1 <= k)%nat)) /\
  (forall cmd retries nudge_feed m,
     SendingFacts.is_macro_cmd (cmd ++ CRLF) = true ->
     exists k,
       SendingFacts.sends (cmd ++ CRLF) k m
         (snd (Sending.homing_step env repr_delta cmd retries nudge_feed m)) /\
       Z.of_nat k <= Z.max 0 retries /\
       (fst (Sending.homing_step env repr_delta cmd retries nudge_feed m) = true ->
        (1 <= k)%nat) /\
       (fst (Sending.homing_step env repr_delta cmd retries nudge_feed m) = false ->
        Z.of_nat k = Z.max 0 retries)) /\
  (forall cmd ack_timeout idle_timeout retries force_g90 m,
     SendingFacts.is_macro_cmd (cmd ++ CRLF) = true ->
     exists k,
       SendingFacts.sends (cmd ++ CRLF) k m
         (snd (Sending.send_blocking env cmd ack_timeout idle_timeout retries force_g90 m)) /\
       Z.of_nat k <= Z.max 0 retries /\
       (fst (Sending.send_blocking env cmd ack_timeout idle_timeout retries force_g90 m)
        = true -> (1 <= k)%nat) /\
       (fst (Sending.send_blocking env cmd ack_timeout idle_timeout retries force_g90 m)
        = false -> Z.of_nat k = Z.max 0 retries)).
Proof.
  intros env repr_delta. split; [|split; [|split]].
  - intros cmd max_tries t w Hc. unfold Home.send_homing_with_retries.
    destruct (HomingFacts.home_homing_loop_tries env cmd max_tries t Hc
                (Z.to_nat max_tries) 1 w) as (k & Hk & Hb & Hok).
    destruct (Home.homing_loop env (Z.to_nat max_tries) 1 max_tries cmd t w) as [ok w1].
    cbn [fst snd] in *. exists k. split; [exact Hk|]. split; [lia|].
    intros E. apply Hok. congruence.
  - intros cmd max_tries t w Hc. unfold Sender.send_homing_with_retries.
    destruct (HomingFacts.sender_homing_loop_tries env cmd max_tries t Hc
                (Z.to_nat max_tries) 1 w) as (k & Hk & Hb & Hok).
    exists k. split; [exact Hk|]. split; [lia | exact Hok].
  - intros cmd retries nudge_feed m Hc. unfold Sending.homing_step.
    destruct (SendingFacts.homing_loop_tries env repr_delta cmd retries
                (Sending.axis_from_home_cmd cmd) nudge_feed Hc (Z.to_nat retries) 1 m)
      as (k & Hk & Hb & Hok & Hf).
    exists k. split; [exact Hk|]. split; [lia|]. split; [exact Hok|].
    intros F. rewrite (Hf F). lia.
  - intros cmd ack_timeout idle_timeout retries force_g90 m Hc.
    unfold Sending.send_blocking.
    destruct (SendingFacts.send_blocking_loop_tries env cmd retries ack_timeout
                idle_timeout force_g90 Hc (Z.to_nat retries) 1 m)
      as (k & Hk & Hb & Hok & Hf).
    exists k. split; [exact Hk|]. split; [lia|]. split; [exact Hok|].
    intros F. rewrite (Hf F). lia.
Qed.

Lemma step_command_tries_bounded_witness :
  is_step_cmd (terminated "$HZ") = true /\
  exists k,
    runs (terminated "$HZ") k Scenarios.idle_session
      (snd (Home.send_homing_with_retries Scenarios.silent "$HZ" 2 20000
              Scenarios.idle_session)) /\
    Z.of_nat k <= 2.
Proof.
  split; [reflexivity|].
  destruct (proj1 (step_command_tries_bounded Scenarios.silent Scenarios.repr_unit)
              "$HZ" 2 20000 Scenarios.idle_session eq_refl) as (k & Hk & Hb & _).
  exists k. split; [exact Hk | exact Hb].
Defined.

(** X3.  Success means the controller was last seen [Idle].  A
    [wait_motion_complete] that answers [True], a homing step of [home.py] that
    answers [True], and a homing macro (of any of the three scripts) that
    completes, all end in a state whose tracked controller state is [Idle]. *)
Theorem success_leaves_idle :
  forall env repr_delta,
  (forall t1 t2 w w',
     wait_motion_complete env t1 t2 w = (true, w') -> last_state w' = "Idle") /\
  (forall cmd max_tries t w w',
     Home.send_homing_with_retries env cmd max_tries t w = (Ret true, w') ->
     last_state w' = "Idle") /\
  (forall homing_retries w w',
     Home._perform_home_sequence env homing_retries w = (Ret true, w') ->
     last_state w' = "Idle") /\
  (forall homing_retries w w',
     Sender._perform_home_sequence env homing_retries w = (Ret true, w') ->
     last_state w' = "Idle") /\
  (forall home_retries m m',
     Sending.homing_macro env repr_delta home_retries m = (None, m') ->
     Sending.last_state m' = "Idle").
Proof.
  intros env repr_delta. split; [|split; [|split; [|split]]].
  - intros t1 t2 w w'. apply HomingFacts.wait_motion_complete_idle.
  - intros cmd max_tries t w w' H. unfold Home.send_homing_with_retries in H.
    destruct (Home.homing_loop env (Z.to_nat max_tries) 1 max_tries cmd t w)
      as [ok w1] eqn:E.
    inversion H; subst. eapply HomingFacts.home_homing_loop_idle. exact E.
  - intros homing_retries w w'. apply HomingFacts.run_steps_idle.
  - intros homing_retries w w'. apply HomingFacts.run_steps_idle.
  - intros home_retries m m' H. rewrite SendingFacts.homing_macro_steps in H.
    eapply SendingFacts.run_macro_idle; [|exact H]. discriminate.
Qed.

Lemma success_leaves_idle_witness :
  fst (Home._perform_home_sequence Scenarios.ok_and_idle 5 Scenarios.fresh) = Ret true /\
  last_state (snd (Home._perform_home_sequence Scenarios.ok_and_idle 5 Scenarios.fresh))
  = "Idle".
Proof.
  assert (H : Home._perform_home_sequence Scenarios.ok_and_idle 5 Scenarios.fresh
              = (Ret true,
                 snd (Home._perform_home_sequence Scenarios.ok_and_idle 5 Scenarios.fresh)))
    by (vm_compute; reflexivity).
  split.
  - rewrite H. reflexivity.
  - destruct (success_leaves_idle Scenarios.ok_and_idle Scenarios.repr_unit)
      as (_ & _ & Hm & _).
    apply (Hm 5 Scenarios.fresh). exact H.
Defined.

(** X4.  The replies the senders act on are classified replies.  In
    [home.py] and [sender.py] the receiver queues only lowercased lines that
    begin with [ok], [error] or [alarm], and [wait_ack] and [send_gcode] keep it
    so: the reply [send_gcode] returns is an ok reply when it succeeds, and the
    word ["timeout"] or a classified reply that is not an ok when it fails.  In
    [sending.py], where every line is queued, [wait_ack] skips the others and
    hands over a lowercased classified reply. *)
Theorem replies_are_classified :
  forall env,
  (forall lines w, acks_only w -> acks_only (_rx_loop lines w)) /\
  (forall timeout_s w r w',
     acks_only w -> wait_ack env timeout_s w = (r, w') ->
     acks_only w' /\ (forall a, r = Some a -> ack_line a)) /\
  (forall gcode retries ack_timeout w ok last w',
     acks_only w ->
     send_gcode env gcode retries ack_timeout w = (Ret (ok, last), w') ->
     acks_only w' /\
     (ok = true -> ack_line last /\ startswith last "ok" = true) /\
     (ok = false -> last = "timeout" \/ (ack_line last /\ startswith last "ok" = false))) /\
  (forall timeout_s m a m',
     Sending.wait_ack env timeout_s m = (Some a, m') ->
     Sending.is_ack a = true /\ lower a = a).
Proof.
  intros env. split; [|split; [|split]].
  - intros lines w. apply acks_only_rx_loop.
  - intros timeout_s w r w'. apply acks_only_wait_ack.
  - intros gcode retries ack_timeout w ok last w' H Hrun.
    unfold send_gcode in Hrun.
    eapply send_gcode_loop_reply; [exact H | | exact Hrun]. intros a Ha. discriminate.
  - intros timeout_s m a m' H.
    apply SendingFacts.sending_wait_ack_reply in H. destruct H as (H1 & _ & H2). auto.
Qed.

Lemma replies_are_classified_witness :
  acks_only Scenarios.fresh /\
  exists last,
    fst (send_gcode Scenarios.error_20 "G0 X1" 1 12000 Scenarios.fresh)
    = Ret (false, last) /\
    ack_line last.
Proof.
  split; [constructor|].
  assert (H : send_gcode Scenarios.error_20 "G0 X1" 1 12000 Scenarios.fresh
              = (Ret (false, "error:20"),
                 snd (send_gcode Scenarios.error_20 "G0 X1" 1 12000 Scenarios.fresh)))
    by (vm_compute; reflexivity).
  exists "error:20". split; [rewrite H; reflexivity|].
  destruct (replies_are_classified Scenarios.error_20) as (_ & _ & Hs & _).
  destruct (Hs "G0 X1" 1 12000 Scenarios.fresh false "error:20" _ (Forall_nil _) H)
    as (_ & _ & Hf).
  destruct (Hf eq_refl) as [E | [Ha _]]; [discriminate | exact Ha].
Defined.

(** X5.  The waits return in time.  On the sender's clock, which a sleep or
    a blocking [get] advances by the time asked for, [wait_ack] returns less
    than one poll (0.25 s; 0.2 s in [sending.py]) after its timeout,
    [wait_until_idle] less than 0.27 s after its own, [wait_motion_complete]
    less than 0.52 s after the sum of its two, [wait_state] less than 0.25 s
    after its own; [send_gcode] takes at most [ack_timeout] + 0.45 s per
    attempt, and [hard_clear] less than 19.15 s. *)
Theorem waits_return_in_time :
  forall env,
  (forall timeout_s w,
     0 <= timeout_s -> now (snd (wait_ack env timeout_s w)) < now w + timeout_s + 250) /\
  (forall timeout_s w,
     0 <= timeout_s ->
     now (snd (wait_until_idle env timeout_s w)) < now w + timeout_s + 270) /\
  (forall t1 t2 w,
     0 <= t1 -> 0 <= t2 ->
     now (snd (wait_motion_complete env t1 t2 w)) < now w + t1 + t2 + 520) /\
  (forall gcode retries ack_timeout w,
     0 <= ack_timeout ->
     now (snd (send_gcode env gcode retries ack_timeout w))
     <= now w + Z.max 0 retries * (ack_timeout + 450)) /\
  (forall timeout_s m,
     0 <= timeout_s ->
     Sending.now (snd (Sending.wait_ack env timeout_s m))
     < Sending.now m + timeout_s + 200) /\
  (forall targets timeout_s m,
     0 <= timeout_s ->
     Sending.now (snd (Sending.wait_state env targets timeout_s m))
     < Sending.now m + timeout_s + 250) /\
  (forall m, Sending.now (Sending.hard_clear env m) < Sending.now m + 19150).
Proof.
  intros env. repeat split.
  - intros. apply HomingFacts.wait_ack_within; assumption.
  - intros. apply HomingFacts.wait_until_idle_within; assumption.
  - intros. apply HomingFacts.wait_motion_complete_within; assumption.
  - intros gcode retries ack_timeout w Ht. unfold send_gcode.
    pose proof (HomingFacts.send_gcode_loop_within env gcode retries ack_timeout
                  (Z.to_nat retries) 1 None w Ht) as H.
    replace (Z.max 0 retries) with (Z.of_nat (Z.to_nat retries)) by lia. exact H.
  - intros. apply SendingFacts.sending_wait_ack_within; assumption.
  - intros. apply SendingFacts.wait_state_within; assumption.
  - intros. apply SendingFacts.hard_clear_within.
Qed.

Lemma waits_return_in_time_witness :
  0 <= 12000 /\
  now (snd (wait_ack Scenarios.silent 12000 Scenarios.fresh)) < 12250.
Proof.
  split; [lia|].
  apply (proj1 (waits_return_in_time Scenarios.silent) 12000 Scenarios.fresh). lia.
Defined.

(** X6.  [_sender_loop] of [sender.py], on a queue of plain lines closed by
    the end-of-input sentinel and with [line_retries >= 1], serves the lines in
    queue order, each written between one and [line_retries] times, with no
    write made while another command awaits its reply; and on the sentinel it
    does not return at once: it runs [wait_motion_complete(1.0, 600.0)], which
    writes status queries only, and returns when that has. *)
Theorem sender_py_loop_in_order_then_waits :
  forall env homing_retries ack_timeout line_retries cmds d rest w,
  1 <= line_retries ->
  stop w = false ->
  exists w1 blocks tail k,
    Sender._sender_loop env homing_retries ack_timeout line_retries
      (map SenderLoopFacts.gcode_item cmds ++ (d, IEof) :: rest) w
    = (ExitEof, rest, snd (wait_motion_complete env 1000 600000 w1)) /\
    trace w1 = trace w ++ List.concat blocks /\
    Forall2 (SenderLoopFacts.served line_retries) (map snd cmds) blocks /\
    trace (snd (wait_motion_complete env 1000 600000 w1)) = trace w1 ++ tail /\
    writes tail = repeat "?" k /\
    (forall pre post,
       List.concat blocks ++ tail = pre ++ post -> flights Clear pre <> Piped).
Proof.
  intros env homing_retries ack_timeout line_retries cmds d rest w Hr Hs.
  destruct (SenderLoopFacts.sender_sender_loop_gcodes env homing_retries ack_timeout
              line_retries d rest Hr cmds w Hs) as (w1 & blocks & Hrun & Htr & Hall).
  destruct (SenderLoopFacts.adds_wait_motion_complete env 1000 600000 w1)
    as (tail & Et & Ft).
  destruct (SenderLoopFacts.poll_evs_writes tail Ft) as (k & Hk).
  exists w1, blocks, tail, k.
  repeat split; auto.
  apply flights_never_piped.
  rewrite flights_app, (SenderLoopFacts.served_blocks_clear _ _ _ Hall).
  apply SenderLoopFacts.poll_evs_flights. exact Ft.
Qed.

Lemma sender_py_loop_in_order_then_waits_witness :
  1 <= 1 /\ stop Scenarios.fresh = false /\
  exists w1,
    Sender._sender_loop Scenarios.ok_and_idle 5 12000 1
      [(0%nat, IGcode "G0 X1"); (0%nat, IEof)] Scenarios.fresh
    = (ExitEof, [], snd (wait_motion_complete Scenarios.ok_and_idle 1000 600000 w1)).
Proof.
  split; [lia|]. split; [reflexivity|].
  destruct (sender_py_loop_in_order_then_waits Scenarios.ok_and_idle 5 12000 1
              [(0%nat, "G0 X1")] 0%nat [] Scenarios.fresh)
    as (w1 & _ & _ & _ & H & _); [lia | reflexivity |].
  exists w1. exact H.
Defined.



(** X8.  What the recovery of [sending.py] writes, whatever the controller
    answers.  [hard_clear] writes the soft reset, [$X], [$20=0] and [G90], in this
    order, and after them status queries only.  [nudge_axis] writes [G91], its
    one move, status queries, and last of all [G90]: it never returns with the
    controller left in relative mode by its own writes. *)
Theorem recovery_write_sequences :
  forall env repr_delta,
  (forall m,
     exists evs k,
       Sending.trace (Sending.hard_clear env m) = Sending.trace m ++ evs /\
       SendingFacts.writes evs
       = [CTRL_X; ("$X" ++ CRLF); ("$20=0" ++ CRLF); ("G90" ++ CRLF)]%string
         ++ repeat ("?" ++ CRLF)%string k) /\
  (forall axis sign feed m,
     exists evs k,
       Sending.trace (Sending.nudge_axis env repr_delta axis sign feed m)
       = Sending.trace m ++ evs /\
       SendingFacts.writes evs
       = [("G91" ++ CRLF);
          (("G1 " ++ axis ++ repr_delta sign ++ " F" ++ Sending.str_int feed) ++ CRLF)]%string
         ++ repeat ("?" ++ CRLF)%string k ++ [("G90" ++ CRLF)%string]).
Proof.
  intros env repr_delta. split.
  - intros m. apply SendingFacts.hard_clear_writes.
  - intros axis sign feed m. apply SendingFacts.nudge_axis_writes.
Qed.

(** X9.  How the receivers read a status report.  For a state name without
    a bar, the receiver of [home.py] and [sender.py] takes [State] from
    [<State|...] and from [<State>], and never queues the report as a reply.
    The receiver of [sending.py] takes the state from [<State|...] only when the
    line also holds a [">"], and leaves it as it was otherwise. *)
Theorem status_reports_set_the_state :
  forall state rest,
  find state "|" = None ->
  (forall w, track_state ("<" ++ state ++ "|" ++ rest) w = set_last_state state w) /\
  (forall w, track_state ("<" ++ state ++ ">") w = set_last_state state w) /\
  (forall raw w,
     stop w = false -> strip raw = ("<" ++ state ++ "|" ++ rest)%string ->
     last_state (rx_iter raw w) = state /\ rxq (rx_iter raw w) = rxq w) /\
  (forall m,
     Sending.track_state ("<" ++ state ++ "|" ++ rest) m
     = if contains ("<" ++ state ++ "|" ++ rest) ">"
       then Sending.set_last_state state m else m).
Proof.
  intros state rest H. split; [|split; [|split]].
  - intros w. apply ParsingFacts.track_state_report. exact H.
  - intros w. apply ParsingFacts.track_state_bare. exact H.
  - intros raw w Hs E. eapply ParsingFacts.rx_iter_report; eauto.
  - intros m. apply ParsingFacts.sending_track_state_report. exact H.
Qed.

Lemma status_reports_set_the_state_witness :
  find "Idle" "|" = None /\
  last_state (rx_iter "<Idle|MPos:0.000,0.000,0.000>" Scenarios.fresh) = "Idle" /\
  Sending.last_state (Sending.track_state "<Idle|MPos:0.000" Scenarios.idle_machine)
  = Sending.last_state Scenarios.idle_machine.
Proof.
  split; [reflexivity|].
  destruct (status_reports_set_the_state "Idle" "MPos:0.000,0.000,0.000>" eq_refl)
    as (_ & _ & Hrx & _).
  destruct (status_reports_set_the_state "Idle" "MPos:0.000" eq_refl)
    as (_ & _ & _ & Hs).
  split.
  - apply (Hrx "<Idle|MPos:0.000,0.000,0.000>" Scenarios.fresh); reflexivity.
  - change ("<Idle|MPos:0.000") with ("<" ++ "Idle" ++ "|" ++ "MPos:0.000")%string.
    rewrite Hs. reflexivity.
Defined.

(** X10.  The lines [parse_alarm_code] reads a code from, and the others.  The
    word [alarm] in any mix of cases, then an optional colon, optional blanks
    and a run of digits give the number the digits spell, whatever follows
    them, when the run has at most 4300 digits; a longer run makes [int] raise
    its [ValueError] and gives no code.  A line that does not begin with that
    word gives no code. *)
Theorem parse_alarm_code_grammar :
  forall word colon ws ds rest,
  lower word = "alarm" ->
  ParsingFacts.blanks_only ws = true ->
  truthy ds = true ->
  ParsingFacts.digits_only ds = true ->
  ParsingFacts.starts_with_digit rest = false ->
  (Z.of_nat (String.length ds) <= 4300 ->
   parse_alarm_code (word ++ (if colon : bool then ":" else "") ++ ws ++ ds ++ rest)
   = Some (int_of_digits 0 ds)) /\
  (4300 < Z.of_nat (String.length ds) ->
   parse_alarm_code (word ++ (if colon : bool then ":" else "") ++ ws ++ ds ++ rest)
   = None) /\
  (forall a, startswith (lower a) "alarm" = false -> parse_alarm_code a = None).
Proof.
  intros word colon ws ds rest Hw Hb Ht Hd Hr.
  pose proof (ParsingFacts.parse_alarm_code_reads word colon ws ds rest Hw Hb Ht Hd Hr) as E.
  split; [|split].
  - intros Hlen. rewrite E. apply ParsingFacts.int_of_str_short. exact Hlen.
  - intros Hlen. rewrite E. apply ParsingFacts.int_of_str_long. exact Hlen.
  - intros a. apply ParsingFacts.parse_alarm_code_other.
Qed.

Lemma parse_alarm_code_grammar_witness :
  parse_alarm_code "ALARM: 9 (limit)" = Some 9 /\
  parse_alarm_code ("alarm" ++ ":" ++ "" ++ Scenarios.digits_4301 ++ "") = None /\
  parse_alarm_code "error:9" = None.
Proof.
  destruct (parse_alarm_code_grammar "ALARM" true " " "9" " (limit)"
              eq_refl eq_refl eq_refl eq_refl eq_refl) as (H1 & _ & H3).
  destruct (parse_alarm_code_grammar "alarm" true "" Scenarios.digits_4301 ""
              eq_refl eq_refl eq_refl eq_refl eq_refl) as (_ & H2 & _).
  split; [apply H1; vm_compute; discriminate|].
  split; [apply H2; vm_compute; reflexivity | apply H3; reflexivity].
Defined.

(** X11.  What [homing_step] does after an attempt whose reply is an alarm
    that names code 8 or 9, when the command names an axis: whether or not the
    controller went back to [Idle], it goes on to the next attempt, and before
    that it writes the hard clear, then a nudge of that axis, by the distance
    in the direction that is negative after an odd attempt and positive after
    an even one (the special case for the first attempt changes nothing), and
    the switch back to absolute mode. *)
Theorem alarm_8_9_recovery_nudges :
  forall env repr_delta n attempt retries cmd axis nudge_feed m a ok_idle m1,
  Sending.homing_attempt env cmd attempt retries m = (Some a, ok_idle, m1) ->
  Sending.ack_is (Some a) "alarm" = true ->
  Sending.nudge_applies a (Some axis) = true ->
  exists m2 evs k1 k2,
    Sending.homing_loop env repr_delta (S n) attempt retries cmd (Some axis) nudge_feed m
    = Sending.homing_loop env repr_delta n (attempt + 1) retries cmd (Some axis)
        nudge_feed m2 /\
    Sending.trace m2 = Sending.trace m1 ++ evs /\
    SendingFacts.writes evs
    = [CTRL_X; ("$X" ++ CRLF); ("$20=0" ++ CRLF); ("G90" ++ CRLF)]%string
      ++ repeat ("?" ++ CRLF)%string k1
      ++ [("G91" ++ CRLF);
          (("G1 " ++ axis ++ repr_delta (if Z.odd attempt then -1 else 1)
            ++ " F" ++ Sending.str_int nudge_feed) ++ CRLF)]%string
      ++ repeat ("?" ++ CRLF)%string k2 ++ [("G90" ++ CRLF)%string].
Proof.
  intros env repr_delta n attempt retries cmd axis nudge_feed m a ok_idle m1 Hrun Ha Hn.
  exists (SendingFacts.recovery env repr_delta (Some a) (Some axis) attempt nudge_feed m1).
  assert (Hok : Sending.ack_is (Some a) "ok" && ok_idle = false)
    by (rewrite (SendingFacts.alarm_is_no_ok _ Ha); reflexivity).
  rewrite (SendingFacts.homing_loop_retry env repr_delta n attempt retries cmd
             (Some axis) nudge_feed m (Some a) ok_idle m1 Hrun Hok).
  unfold SendingFacts.recovery. rewrite Ha, Hn.
  rewrite ParsingFacts.nudge_sign_parity.
  set (sign := if Z.odd attempt then -1 else 1).
  set (m0 := Sending.emit (Sending.Printed (Sending.MNudge axis sign))
               (Sending.emit (Sending.Printed (Sending.MHomingReported a)) m1)).
  destruct (SendingFacts.hard_clear_writes env m0) as (e1 & k1 & E1 & W1).
  destruct (SendingFacts.nudge_axis_writes env repr_delta axis sign nudge_feed
              (Sending.hard_clear env m0)) as (e2 & k2 & E2 & W2).
  exists ([Sending.Printed (Sending.MHomingReported a);
           Sending.Printed (Sending.MNudge axis sign)] ++ e1 ++ e2), k1, k2.
  split; [reflexivity|]. split.
  - rewrite E2, E1. unfold m0. cbn [Sending.trace Sending.emit].
    rewrite <- ?app_assoc. reflexivity.
  - rewrite !SendingFacts.sending_writes_app, W1, W2.
    cbn [SendingFacts.writes flat_map app].
    rewrite <- ?app_assoc. reflexivity.
Qed.

Lemma alarm_8_9_recovery_nudges_witness :
  fst (Sending.homing_attempt Scenarios.alarm_9_first "$HZ" 2 5 Scenarios.idle_machine)
  = (Some "alarm:9", true) /\
  exists m2 evs,
    Sending.homing_loop Scenarios.alarm_9_first Scenarios.repr_unit 1 2 5 "$HZ" (Some "Z")
      1000 Scenarios.idle_machine
    = (false, m2) /\
    Sending.trace m2
    = Sending.trace (snd (Sending.homing_attempt Scenarios.alarm_9_first "$HZ" 2 5
                            Scenarios.idle_machine)) ++ evs /\
    In ("G1 Z1.0 F1000" ++ CRLF)%string (SendingFacts.writes evs).
Proof.
  assert (H : Sending.homing_attempt Scenarios.alarm_9_first "$HZ" 2 5 Scenarios.idle_machine
              = (Some "alarm:9", true,
                 snd (Sending.homing_attempt Scenarios.alarm_9_first "$HZ" 2 5
                        Scenarios.idle_machine)))
    by (vm_compute; reflexivity).
  split; [rewrite H; reflexivity|].
  destruct (alarm_8_9_recovery_nudges Scenarios.alarm_9_first Scenarios.repr_unit
              0%nat 2 5 "$HZ" "Z" 1000 Scenarios.idle_machine "alarm:9" true _
              H eq_refl eq_refl)
    as (m2 & evs & k1 & k2 & E & T & W).
  exists m2, evs. split; [exact E|]. split; [exact T|]. rewrite W.
  rewrite !in_app_iff. right. right. left. right. left. reflexivity.
Defined.

End Extras.
